(** * A B-tree keyed by host objects: model of [btreemodule.c] and its properties

    The development embeds the C implementation of the ordered mapping
    [BTreeDict] (file [src/btreemodule.c]) as Rocq functions and proves the
    properties of its specification.

    Conventions of the embedding.
    - A node's arrays [keys] and [values] are modelled by the list [slots] of
      their live prefix: slot [i] is the pair [(keys[i], values[i])] and
      [n_keys] is the length of that list.  The array [children] is the list
      of its non-NULL prefix.  A [memmove] that opens or closes a gap is a
      list insertion or deletion at that index.
    - Functions that mutate a node in place return the node they leave;
      functions that only read return their result alone.
    - A function returns [None] where the C code would read a slot outside
      the live prefix, dereference NULL, overflow a signed integer, or (for
      the two recursive mutators) when the recursion bound given to the model
      is exhausted.
    - Integers that come from the caller are checked against their C type
      where the code parses them: the order is an [int], the index of
      [peekitem] and [popitem] a [Py_ssize_t].  The order of an existing
      node or tree is one for which [btreenode_new] has computed
      [2 * order] in [int] before.
    - Memory allocation is assumed to succeed; reference counts are not
      modelled.
    - The Python runtime is a parameter ([Host]): object handles, exact type
      checks and the comparison primitives.

    Plan of the file.  The model comes first.  A tree stands for the list of
    its pairs in key order ([items]); [wf_tree] collects the structural
    invariants.  Under the assumption that the comparator is a total order
    ([cmp_total]), each operation is related to the corresponding operation
    on sorted association lists, and the iterators to that list itself.  The
    properties of the specification follow, each with an instance on a tree
    of order 2 over integer keys.  The last part embeds the remaining entry
    points of the type (the mapping protocol, [get], [pop], [setdefault],
    [update], [clear], the comparison slot, the length hints) and states
    what they and the rebalancing steps of the deletion guarantee. *)

From Stdlib Require Import ZArith Lia List Sorted Permutation.
From stdpp Require Import base option list.

Set Warnings "-register-all".
#[local] Open Scope Z_scope.

(** ** The host runtime *)

(** Comparison operators passed to [PyObject_RichCompareBool]. *)
Inductive cmp_op := Py_LT | Py_EQ.

(** What the module asks of the embedding runtime.  [PyObject] is the type of
    object handles; [a == b] in C is equality of handles.  The comparison
    primitives return what the C API returns: [PyObject_RichCompareBool] gives
    [-1] on error, [0] or [1] otherwise; [PyUnicode_Compare] gives its integer
    together with whether an exception is pending afterwards
    ([PyErr_Occurred ()]). *)
Class Host := {
  PyObject : Type;
  PyObject_eq_dec :: EqDecision PyObject;
  PyLong_CheckExact : PyObject -> bool;
  PyFloat_CheckExact : PyObject -> bool;
  PyUnicode_CheckExact : PyObject -> bool;
  PyObject_RichCompareBool : PyObject -> PyObject -> cmp_op -> Z;
  double : Type;
  PyFloat_AS_DOUBLE : PyObject -> double;
  Py_IS_NAN : double -> bool;
  double_lt : double -> double -> bool;
  PyUnicode_Compare : PyObject -> PyObject -> Z * bool
}.

(** Slot [i] of a node: the pair [(keys[i], values[i])]. *)
Abbreviation slot := (PyObject * PyObject)%type.

(** Exceptions the module raises or lets through. *)
Inductive PyErr {H : Host} :=
| ComparisonError                    (* left pending by a failing host comparison *)
| KeyError (key : option PyObject)   (* KeyError(key), or KeyError with a message *)
| IndexError_empty                   (* "peekitem from empty B-tree" *)
| IndexError_unsupported             (* "... only supports index 0 (first) or -1 (last) ..." *)
| ValueError                         (* bad order, min()/max() of an empty tree, bad pair *)
| TypeError                          (* "inclusive must be a tuple of two booleans" *)
| HostError                          (* left pending by another failing host call *)
| RuntimeError                       (* "key disappeared during popitem" *)
| SystemError                        (* NULL returned with no exception set *)
| OverflowError.                     (* argument outside its C integer type *)

(** Result of a C function: a normal return value, or the error return
    ([-1] or [NULL]) with the exception that is pending. *)
Inductive ret {H : Host} (A : Type) :=
| Return (a : A)
| Raise (e : PyErr).
Arguments Return {H A} a.
Arguments Raise {H A} e.

(** ** List helpers for the array operations *)

Section arrays.
Context {A : Type}.

(** [memmove (&a[i+1], &a[i], (n - i) * sizeof *a); a[i] = x; n++] *)
Definition insert_at (i : nat) (x : A) (l : list A) : list A :=
  take i l ++ x :: drop i l.

(** [memmove (&a[i], &a[i+1], (n - 1 - i) * sizeof *a); a[n-1] = NULL; n--] *)
Definition remove_at (i : nat) (l : list A) : list A :=
  take i l ++ drop (S i) l.
End arrays.

Section traversal.
Context {N A : Type} (f : N -> list A).

(** In-order walk of one node: [children[i]] before slot [i], and
    [children[n_keys]] last; NULL children are skipped. *)
Fixpoint zipio (cs : list N) (ss : list A) : list A :=
  match cs with
  | [] => ss
  | c :: cs' =>
      match ss with
      | [] => f c
      | s :: ss' => f c ++ s :: zipio cs' ss'
      end
  end.
End traversal.

(** [with_nth g d l i] is [g (l[i])], or [d] when [l[i]] is NULL. *)
Fixpoint with_nth {N B : Type} (g : N -> B) (d : B) (l : list N) (i : nat) : B :=
  match l with
  | [] => d
  | c :: l' => match i with O => g c | S i' => with_nth g d l' i' end
  end.

Section model.
Context {H : Host}.

Definition BTREE_DEFAULT_ORDER : Z := 8.
Definition BTREE_MIN_ORDER : Z := 2.

(** The ranges of [int] and [Py_ssize_t]. *)
Definition INT_MIN : Z := - 2 ^ 31.
Definition INT_MAX : Z := 2 ^ 31 - 1.
Definition PY_SSIZE_T_MIN : Z := - 2 ^ 63.
Definition PY_SSIZE_T_MAX : Z := 2 ^ 63 - 1.

Definition is_int (z : Z) : bool := (INT_MIN <=? z) && (z <=? INT_MAX).
Definition is_ssize_t (z : Z) : bool := (PY_SSIZE_T_MIN <=? z) && (z <=? PY_SSIZE_T_MAX).

(** *** compare_keys *)

(** Returns [-1], [0], [1], or [-2] on error. *)
Definition compare_keys (a b : PyObject) : Z :=
  if bool_decide (a = b) then 0
  else if PyLong_CheckExact a && PyLong_CheckExact b then
    let result := PyObject_RichCompareBool a b Py_LT in
    if result <? 0 then 0            (* error in comparison, treated as equal *)
    else if negb (result =? 0) then -1
    else
      let result := PyObject_RichCompareBool a b Py_EQ in
      if result <? 0 then 0          (* error in comparison, treated as equal *)
      else if negb (result =? 0) then 0
      else 1
  else
    let general :=
      let result := PyObject_RichCompareBool a b Py_EQ in
      if result <? 0 then -2
      else if negb (result =? 0) then 0
      else
        let result := PyObject_RichCompareBool a b Py_LT in
        if result <? 0 then -2
        else if negb (result =? 0) then -1
        else 1 in
    let strings :=
      if PyUnicode_CheckExact a && PyUnicode_CheckExact b then
        let '(cmp, err) := PyUnicode_Compare a b in
        if cmp <? 0 then (if err then -2 else -1)
        else if cmp >? 0 then 1
        else 0
      else general in
    if PyFloat_CheckExact a && PyFloat_CheckExact b then
      let a_val := PyFloat_AS_DOUBLE a in
      let b_val := PyFloat_AS_DOUBLE b in
      if negb (Py_IS_NAN a_val) && negb (Py_IS_NAN b_val) then
        if double_lt a_val b_val then -1
        else if double_lt b_val a_val then 1
        else 0
      else strings
    else strings.

(** *** Nodes and trees *)

Inductive PyBTreeNode := mkNode {
  is_leaf : bool;
  slots : list slot;
  children : list PyBTreeNode;
  order : Z
}.

Definition n_keys (node : PyBTreeNode) : Z := Z.of_nat (length (slots node)).

Definition keys (node : PyBTreeNode) : list PyObject := (slots node).*1.

Record PyBTreeObject := mkBTree {
  root : option PyBTreeNode;
  size : Z;
  tree_order : Z
}.

Definition btreenode_new (order : Z) (is_leaf : bool) : PyBTreeNode :=
  mkNode is_leaf [] [] order.

Definition set_slots (node : PyBTreeNode) (ss : list slot) : PyBTreeNode :=
  mkNode (is_leaf node) ss (children node) (order node).

Definition set_children (node : PyBTreeNode) (cs : list PyBTreeNode) : PyBTreeNode :=
  mkNode (is_leaf node) (slots node) cs (order node).

(** [Py_SETREF (node->values[i], value)] *)
Definition set_value (node : PyBTreeNode) (i : nat) (value : PyObject) : PyBTreeNode :=
  set_slots node (alter (fun s => (s.1, value)) i (slots node)).

(** *** node_search_key *)

(** The [while (low <= high)] loop; each round shrinks [high - low], so
    [n_keys + 1] rounds are enough. *)
Fixpoint node_search_key_loop (rounds : nat) (ks : list PyObject) (key : PyObject)
    (low high : Z) : Z * bool :=
  match rounds with
  | O => (low, false)
  | S rounds' =>
      if low <=? high then
        let mid := low + Z.quot (high - low) 2 in
        match ks !! Z.to_nat mid with
        | None => (-1, false)
        | Some k =>
            let cmp := compare_keys key k in
            if cmp =? -2 then (-1, false)
            else if cmp =? 0 then (mid, true)
            else if cmp <? 0 then node_search_key_loop rounds' ks key low (mid - 1)
            else node_search_key_loop rounds' ks key (mid + 1) high
        end
      else (low, false)
  end.

(** Returns the index and [*found]; the index is [-1] on error. *)
Definition node_search_key (node : PyBTreeNode) (key : PyObject) : Z * bool :=
  node_search_key_loop (S (length (slots node))) (keys node) key 0 (n_keys node - 1).

(** *** node_search, node_contains *)

(** [Return (Some v)]: new reference to the value; [Return None]: NULL with
    no exception; [Raise e]: NULL with [e] pending. *)
Fixpoint node_search (node : PyBTreeNode) (key : PyObject) : ret (option PyObject) :=
  match node with
  | mkNode leaf ss cs _ =>
      let '(i, found) := node_search_key node key in
      if i <? 0 then Raise ComparisonError
      else if found then
        match ss !! Z.to_nat i with
        | Some s => Return (Some s.2)
        | None => Return None
        end
      else if leaf then Return None
      else with_nth (fun c => node_search c key) (Return None) cs (Z.to_nat i)
  end.

Fixpoint node_contains (node : PyBTreeNode) (key : PyObject) : Z :=
  match node with
  | mkNode leaf ss cs _ =>
      let '(i, found) := node_search_key node key in
      if i <? 0 then -1
      else if found then 1
      else if leaf then 0
      else with_nth (fun c => node_contains c key) 0 cs (Z.to_nat i)
  end.

(** *** split_child *)

Definition split_child (parent : PyBTreeNode) (child_index : nat) : option PyBTreeNode :=
  full_child ← children parent !! child_index;
  let t := Z.to_nat (order full_child) in
  median ← slots full_child !! (t - 1)%nat;
  let new_node :=
    mkNode (is_leaf full_child)
           (take (t - 1) (drop t (slots full_child)))
           (if is_leaf full_child then [] else take t (drop t (children full_child)))
           (order full_child) in
  let full_child' :=
    mkNode (is_leaf full_child)
           (take (t - 1) (slots full_child))
           (if is_leaf full_child then children full_child
            else take t (children full_child))
           (order full_child) in
  Some (mkNode (is_leaf parent)
               (insert_at child_index median (slots parent))
               (insert_at (S child_index) new_node
                          (<[child_index := full_child']> (children parent)))
               (order parent)).

(** *** insert_non_full *)

(** [Return 0]: inserted a new key; [Return 1]: updated an existing key;
    [Raise e]: returned [-1].  The node is returned in every case, since a
    split made before an error stays. *)
Fixpoint insert_non_full (fuel : nat) (node : PyBTreeNode) (key value : PyObject)
    : option (ret Z * PyBTreeNode) :=
  match fuel with
  | O => None
  | S fuel' =>
      let '(i, found) := node_search_key node key in
      if i <? 0 then Some (Raise ComparisonError, node)
      else
        let i := Z.to_nat i in
        if found then Some (Return 1, set_value node i value)
        else if is_leaf node then
          Some (Return 0, set_slots node (insert_at i (key, value) (slots node)))
        else
          let descend (node : PyBTreeNode) (i : nat) :=
            child ← children node !! i;
            '(r, child') ← insert_non_full fuel' child key value;
            Some (r, set_children node (<[i := child']> (children node))) in
          child ← children node !! i;
          if n_keys child =? 2 * order node - 1 then
            node ← split_child node i;
            s ← slots node !! i;
            let cmp := compare_keys key s.1 in
            if cmp =? -2 then Some (Raise ComparisonError, node)
            else if cmp =? 0 then Some (Return 1, set_value node i value)
            else if cmp >? 0 then descend node (S i)
            else descend node i
          else descend node i
  end.

(** *** Deletion *)

(** Rightmost slot of the subtree: the loop of [get_predecessor]. *)
Fixpoint rightmost_slot (current : PyBTreeNode) : option slot :=
  match current with
  | mkNode leaf ss cs _ =>
      if leaf then
        (if decide (ss = []) then None else ss !! (length ss - 1)%nat)
      else with_nth rightmost_slot None cs (length ss)
  end.

(** Leftmost slot of the subtree: the loop of [get_successor]. *)
Fixpoint leftmost_slot (current : PyBTreeNode) : option slot :=
  match current with
  | mkNode leaf ss cs _ =>
      if leaf then ss !! 0%nat
      else with_nth leftmost_slot None cs 0%nat
  end.

Definition get_predecessor (node : PyBTreeNode) (idx : nat) : option slot :=
  current ← children node !! idx;
  rightmost_slot current.

Definition get_successor (node : PyBTreeNode) (idx : nat) : option slot :=
  current ← children node !! S idx;
  leftmost_slot current.

(** Merge [children[idx]] with [children[idx+1]].  The separator is written
    at [child->keys[t-1]] and the sibling's keys from [child->keys[t]] on,
    which continues the live prefix only if the child holds [t-1] keys. *)
Definition merge_children (node : PyBTreeNode) (idx : nat) : option PyBTreeNode :=
  child ← children node !! idx;
  sibling ← children node !! S idx;
  let t := order node in
  sep ← slots node !! idx;
  if negb (n_keys child =? t - 1) then None
  else
    let child' :=
      mkNode (is_leaf child)
             (slots child ++ sep :: slots sibling)
             (if is_leaf child then children child
              else children child ++ children sibling)
             (order child) in
    Some (mkNode (is_leaf node)
                 (remove_at idx (slots node))
                 (remove_at (S idx) (<[idx := child']> (children node)))
                 (order node)).

(** Borrow a key from [children[idx-1]]; the caller guarantees [idx > 0]. *)
Definition borrow_from_prev (node : PyBTreeNode) (idx : nat) : option PyBTreeNode :=
  child ← children node !! idx;
  sibling ← children node !! (idx - 1)%nat;
  sep ← slots node !! (idx - 1)%nat;
  up ← (if decide (slots sibling = []) then None
        else slots sibling !! (length (slots sibling) - 1)%nat);
  child_children ←
    (if is_leaf child then Some (children child)
     else c ← children sibling !! length (slots sibling);
          Some (c :: children child));
  let child' := mkNode (is_leaf child) (sep :: slots child) child_children (order child) in
  let sibling' :=
    mkNode (is_leaf sibling)
           (take (length (slots sibling) - 1) (slots sibling))
           (if is_leaf child then children sibling
            else take (length (slots sibling)) (children sibling))
           (order sibling) in
  Some (mkNode (is_leaf node)
               (<[(idx - 1)%nat := up]> (slots node))
               (<[(idx - 1)%nat := sibling']> (<[idx := child']> (children node)))
               (order node)).

(** Borrow a key from [children[idx+1]]. *)
Definition borrow_from_next (node : PyBTreeNode) (idx : nat) : option PyBTreeNode :=
  child ← children node !! idx;
  sibling ← children node !! S idx;
  sep ← slots node !! idx;
  up ← slots sibling !! 0%nat;
  child_children ←
    (if is_leaf child then Some (children child)
     else c ← children sibling !! 0%nat;
          Some (children child ++ [c]));
  let child' := mkNode (is_leaf child) (slots child ++ [sep]) child_children (order child) in
  let sibling' :=
    mkNode (is_leaf sibling)
           (drop 1 (slots sibling))
           (if is_leaf sibling then children sibling else drop 1 (children sibling))
           (order sibling) in
  Some (mkNode (is_leaf node)
               (<[idx := up]> (slots node))
               (<[S idx := sibling']> (<[idx := child']> (children node)))
               (order node)).

(** Ensure [children[idx]] has at least [t] keys. *)
Definition fill_child (node : PyBTreeNode) (idx : nat) : option PyBTreeNode :=
  let t := order node in
  let prev_spare : option bool :=
    if decide (0 < idx)%nat then
      prev ← children node !! (idx - 1)%nat; Some (t <=? n_keys prev)
    else Some false in
  let next_spare : option bool :=
    if Z.of_nat idx <? n_keys node then
      next ← children node !! S idx; Some (t <=? n_keys next)
    else Some false in
  match prev_spare with
  | None => None
  | Some true => borrow_from_prev node idx
  | Some false =>
      match next_spare with
      | None => None
      | Some true => borrow_from_next node idx
      | Some false =>
          if Z.of_nat idx <? n_keys node then merge_children node idx
          else if decide (0 < idx)%nat then merge_children node (idx - 1)
          else None
      end
  end.

Definition delete_from_leaf (node : PyBTreeNode) (idx : nat) : option (ret Z * PyBTreeNode) :=
  _ ← slots node !! idx;
  Some (Return 0, set_slots node (remove_at idx (slots node))).

(** [rec] stands for the recursive calls to [delete_from_node]. *)
Definition delete_from_internal
    (rec : PyBTreeNode -> PyObject -> option (ret Z * PyBTreeNode))
    (node : PyBTreeNode) (idx : nat) : option (ret Z * PyBTreeNode) :=
  s ← slots node !! idx;
  let key := s.1 in
  let t := order node in
  lchild ← children node !! idx;
  if t <=? n_keys lchild then
    pred ← get_predecessor node idx;
    let node := set_slots node (<[idx := pred]> (slots node)) in
    '(r, lchild') ← rec lchild pred.1;
    Some (r, set_children node (<[idx := lchild']> (children node)))
  else
    rchild ← children node !! S idx;
    if t <=? n_keys rchild then
      succ ← get_successor node idx;
      let node := set_slots node (<[idx := succ]> (slots node)) in
      '(r, rchild') ← rec rchild succ.1;
      Some (r, set_children node (<[S idx := rchild']> (children node)))
    else
      node ← merge_children node idx;
      merged ← children node !! idx;
      '(r, merged') ← rec merged key;
      Some (r, set_children node (<[idx := merged']> (children node))).

(** [Return 0] on success; [Raise e] when the C function returns [-1]. *)
Fixpoint delete_from_node (fuel : nat) (node : PyBTreeNode) (key : PyObject)
    : option (ret Z * PyBTreeNode) :=
  match fuel with
  | O => None
  | S fuel' =>
      let '(idx, found) := node_search_key node key in
      if idx <? 0 then Some (Raise ComparisonError, node)
      else
        let idx := Z.to_nat idx in
        if found then
          if is_leaf node then delete_from_leaf node idx
          else delete_from_internal (delete_from_node fuel') node idx
        else if is_leaf node then Some (Raise (KeyError (Some key)), node)
        else
          let last_child := Z.of_nat idx =? n_keys node in
          let t := order node in
          child ← children node !! idx;
          node ← (if n_keys child <? t then fill_child node idx else Some node);
          let idx := if last_child && (n_keys node <? Z.of_nat idx)
                     then (idx - 1)%nat else idx in
          child ← children node !! idx;
          '(r, child') ← delete_from_node fuel' child key;
          Some (r, set_children node (<[idx := child']> (children node)))
  end.

(** Number of levels below a node, along any path. *)
Fixpoint node_depth (node : PyBTreeNode) : nat :=
  match node with
  | mkNode _ _ cs _ => S (foldr (fun c d => Nat.max (node_depth c) d) O cs)
  end.

(** *** Public API *)

(** The parameter is an [int]: the function cannot be called with
    anything else ([None]).  [btreenode_new] computes [2 * order - 1] and
    [2 * order] in [int]; for an order that has not been through it before,
    the signed overflow is undefined ([None]). *)
Definition PyBTree_New (order : Z) : option PyBTreeObject :=
  if negb (is_int order) then None
  else
    let order := if order <? BTREE_MIN_ORDER then BTREE_DEFAULT_ORDER else order in
    if negb (is_int (2 * order)) then None
    else Some (mkBTree (Some (btreenode_new order true)) 0 order).

Definition PyBTree_Size (btree : PyBTreeObject) : Z := size btree.

(** Returns the result ([Return 0] on success) and the tree it leaves. *)
Definition PyBTree_Insert (btree : PyBTreeObject) (key value : PyObject)
    : option (ret Z * PyBTreeObject) :=
  let order := tree_order btree in
  root0 ← root btree;
  root1 ←
    (if n_keys root0 =? 2 * order - 1 then
       let new_root := mkNode false [] [root0] order in
       split_child new_root 0
     else Some root0);
  '(result, root2) ← insert_non_full (S (node_depth root1)) root1 key value;
  match result with
  | Raise e => Some (Raise e, mkBTree (Some root2) (size btree) order)
  | Return r =>
      Some (Return 0,
            mkBTree (Some root2) (if r =? 0 then size btree + 1 else size btree) order)
  end.

Definition PyBTree_Delete (btree : PyBTreeObject) (key : PyObject)
    : option (ret Z * PyBTreeObject) :=
  match root btree with
  | None => Some (Raise (KeyError (Some key)), btree)
  | Some root0 =>
      if size btree =? 0 then Some (Raise (KeyError (Some key)), btree)
      else
        '(result, root1) ← delete_from_node (S (node_depth root0)) root0 key;
        match result with
        | Raise e => Some (Raise e, mkBTree (Some root1) (size btree) (tree_order btree))
        | Return _ =>
            let size' := size btree - 1 in
            if (n_keys root1 =? 0) && negb (is_leaf root1) then
              (* the child becomes the new root *)
              Some (Return 0, mkBTree (children root1 !! 0%nat) size' (tree_order btree))
            else Some (Return 0, mkBTree (Some root1) size' (tree_order btree))
        end
  end.

Definition PyBTree_Search (btree : PyBTreeObject) (key : PyObject) : ret (option PyObject) :=
  match root btree with
  | None => Return None
  | Some r => node_search r key
  end.

Definition PyBTree_Contains (btree : PyBTreeObject) (key : PyObject) : Z :=
  match root btree with
  | None => 0
  | Some r => node_contains r key
  end.

(** *** Sorted sequences and the extremes *)

Fixpoint collect_keys_fast (node : PyBTreeNode) : list PyObject :=
  match node with
  | mkNode leaf ss cs _ =>
      if leaf then ss.*1 else zipio collect_keys_fast cs ss.*1
  end.

Fixpoint collect_values_fast (node : PyBTreeNode) : list PyObject :=
  match node with
  | mkNode leaf ss cs _ =>
      if leaf then ss.*2 else zipio collect_values_fast cs ss.*2
  end.

(** Each item is the tuple [(key, value)]. *)
Fixpoint collect_items_fast (node : PyBTreeNode) : list slot :=
  match node with
  | mkNode leaf ss cs _ =>
      if leaf then ss else zipio collect_items_fast cs ss
  end.

(** The list is allocated with [size] entries and filled by the walk:
    [None] when the walk does not fill exactly that many. *)
Definition collect_into {A : Type} (collect : PyBTreeNode -> list A)
    (btree : PyBTreeObject) : option (list A) :=
  if size btree >? 0 then
    let l := match root btree with Some r => collect r | None => [] end in
    if Z.of_nat (length l) =? size btree then Some l else None
  else Some [].

Definition PyBTree_Keys := collect_into collect_keys_fast.
Definition PyBTree_Values := collect_into collect_values_fast.
Definition PyBTree_Items := collect_into collect_items_fast.

(** [Some None] is NULL (no exception). *)
Definition get_min_from_node (node : option PyBTreeNode) : option (option PyObject) :=
  match node with
  | None => Some None
  | Some node =>
      if n_keys node =? 0 then Some None
      else s ← leftmost_slot node; Some (Some s.1)
  end.

Definition get_max_from_node (node : option PyBTreeNode) : option (option PyObject) :=
  match node with
  | None => Some None
  | Some node =>
      if n_keys node =? 0 then Some None
      else s ← rightmost_slot node; Some (Some s.1)
  end.

Definition PyBTree_GetMin (btree : PyBTreeObject) := get_min_from_node (root btree).
Definition PyBTree_GetMax (btree : PyBTreeObject) := get_max_from_node (root btree).

Definition btree_min (btree : PyBTreeObject) : option (ret PyObject) :=
  r ← PyBTree_GetMin btree;
  Some (match r with Some k => Return k | None => Raise ValueError end).

Definition btree_max (btree : PyBTreeObject) : option (ret PyObject) :=
  r ← PyBTree_GetMax btree;
  Some (match r with Some k => Return k | None => Raise ValueError end).

(** *** Lifecycle *)

Definition btree_clear_internal (btree : PyBTreeObject) : PyBTreeObject :=
  mkBTree (Some (btreenode_new (tree_order btree) true)) 0 (tree_order btree).

Definition PyBTree_Clear := btree_clear_internal.

(** [tp_new]: the object before [__init__] runs. *)
Definition btree_new : PyBTreeObject := mkBTree None 0 BTREE_DEFAULT_ORDER.

(** [tp_init]; the argument is the Python integer passed as [order], if
    one was passed.  The format ["|i"] raises [OverflowError] for an integer
    that is not an [int]; the overflow of [2 * order] in [btreenode_new] is
    undefined ([None]). *)
Definition btree_init (self : PyBTreeObject) (arg : option Z)
    : option (ret unit * PyBTreeObject) :=
  let parsed :=
    match arg with
    | Some o => if is_int o then Return o else Raise OverflowError
    | None => Return BTREE_DEFAULT_ORDER
    end in
  match parsed with
  | Raise e => Some (Raise e, self)
  | Return order =>
      if order <? BTREE_MIN_ORDER then Some (Raise ValueError, self)
      else if negb (is_int (2 * order)) then None
      else Some (Return (), mkBTree (Some (btreenode_new order true)) 0 order)
  end.

(** [BTreeDict(order)]: [tp_new] followed by [tp_init]. *)
Definition BTreeDict (arg : option Z) : option (ret PyBTreeObject) :=
  '(r, self) ← btree_init btree_new arg;
  Some (match r with
        | Return _ => Return self
        | Raise e => Raise e
        end).

(** Insert the pairs in order, stopping at the first failure. *)
Fixpoint insert_items (btree : PyBTreeObject) (items : list slot)
    : option (ret Z * PyBTreeObject) :=
  match items with
  | [] => Some (Return 0, btree)
  | (key, value) :: items' =>
      '(r, btree') ← PyBTree_Insert btree key value;
      match r with
      | Raise e => Some (Raise e, btree')
      | Return _ => insert_items btree' items'
      end
  end.

Definition btree_copy (btree : PyBTreeObject) : option (ret PyBTreeObject) :=
  new_btree ← PyBTree_New (tree_order btree);
  items ← PyBTree_Items btree;
  '(r, new_btree') ← insert_items new_btree items;
  Some (match r with Raise e => Raise e | Return _ => Return new_btree' end).

(** [update] from another tree (the [PyBTree_Check (arg)] branch). *)
Definition btree_update_from_btree (self other : PyBTreeObject)
    : option (ret Z * PyBTreeObject) :=
  items ← PyBTree_Items other;
  insert_items self items.

(** [btree_merge_from_seq2]: every element must be a sequence of length 2. *)
Fixpoint btree_merge_from_seq2 (self : PyBTreeObject) (seq2 : list (list PyObject))
    : option (ret Z * PyBTreeObject) :=
  match seq2 with
  | [] => Some (Return 0, self)
  | [key; value] :: seq2' =>
      '(r, self') ← PyBTree_Insert self key value;
      match r with
      | Raise e => Some (Raise e, self')
      | Return _ => btree_merge_from_seq2 self' seq2'
      end
  | _ :: _ => Some (Raise ValueError, self)
  end.

(** *** Iterators *)

Definition ITER_STACK_SIZE : Z := 64.

Record IterStackFrame := mkFrame {
  frame_node : PyBTreeNode;
  key_idx : Z
}.

(** The used part of [stack], top first; [stack_top] is its length minus
    one.  A push into a full array is out of bounds. *)
Definition push (frame : IterStackFrame) (stack : list IterStackFrame)
    : option (list IterStackFrame) :=
  if Z.of_nat (length stack) <? ITER_STACK_SIZE then Some (frame :: stack) else None.

Definition slot_at (node : PyBTreeNode) (i : Z) : option slot :=
  if i <? 0 then None else slots node !! Z.to_nat i.

Definition child_at (node : PyBTreeNode) (i : Z) : option PyBTreeNode :=
  if i <? 0 then None else children node !! Z.to_nat i.

Record PyBTreeIterObject := mkIter {
  it_btree : PyBTreeObject;
  remaining : Z;
  stack : list IterStackFrame
}.

Fixpoint iter_descend_left (node : PyBTreeNode) (stack : list IterStackFrame)
    : option (list IterStackFrame) :=
  match node with
  | mkNode leaf _ cs _ =>
      match push (mkFrame node 0) stack with
      | None => None
      | Some stack' =>
          if leaf then Some stack'
          else with_nth (fun c => iter_descend_left c stack') (Some stack') cs 0%nat
      end
  end.

Definition btree_iter (btree : PyBTreeObject) : option PyBTreeIterObject :=
  stack ←
    match root btree with
    | Some r => if n_keys r >? 0 then iter_descend_left r [] else Some []
    | None => Some []
    end;
  Some (mkIter btree (size btree) stack).

(** The loop of [btreeiter_next] over the stack. *)
Fixpoint btreeiter_next_loop (remaining : Z) (stack : list IterStackFrame)
    : option (option PyObject * Z * list IterStackFrame) :=
  match stack with
  | [] => Some (None, remaining, [])
  | frame :: rest =>
      let node := frame_node frame in
      if key_idx frame <? n_keys node then
        s ← slot_at node (key_idx frame);
        let frame' := mkFrame node (key_idx frame + 1) in
        stack' ←
          (if is_leaf node then Some (frame' :: rest)
           else
             match child_at node (key_idx frame') with
             | Some c => iter_descend_left c (frame' :: rest)
             | None => Some (frame' :: rest)
             end);
        Some (Some s.1, remaining - 1, stack')
      else btreeiter_next_loop remaining rest
  end.

Definition btreeiter_next (it : PyBTreeIterObject)
    : option (option PyObject * PyBTreeIterObject) :=
  '(r, remaining', stack') ← btreeiter_next_loop (remaining it) (stack it);
  Some (r, mkIter (it_btree it) remaining' stack').

Definition btreeiter_len (it : PyBTreeIterObject) : Z :=
  if remaining it >? 0 then remaining it else 0.

(** The reverse iterator has the same fields. *)
Fixpoint iter_descend_right (node : PyBTreeNode) (stack : list IterStackFrame)
    : option (list IterStackFrame) :=
  match node with
  | mkNode leaf ss cs _ =>
      match push (mkFrame node (Z.of_nat (length ss) - 1)) stack with
      | None => None
      | Some stack' =>
          if leaf then Some stack'
          else with_nth (fun c => iter_descend_right c stack') (Some stack') cs (length ss)
      end
  end.

Definition btree_reversed (btree : PyBTreeObject) : option PyBTreeIterObject :=
  stack ←
    match root btree with
    | Some r => if n_keys r >? 0 then iter_descend_right r [] else Some []
    | None => Some []
    end;
  Some (mkIter btree (size btree) stack).

Fixpoint btreereviter_next_loop (remaining : Z) (stack : list IterStackFrame)
    : option (option PyObject * Z * list IterStackFrame) :=
  match stack with
  | [] => Some (None, remaining, [])
  | frame :: rest =>
      let node := frame_node frame in
      if 0 <=? key_idx frame then
        s ← slot_at node (key_idx frame);
        let child_idx := key_idx frame in
        let frame' := mkFrame node (key_idx frame - 1) in
        stack' ←
          (if is_leaf node then Some (frame' :: rest)
           else
             match child_at node child_idx with
             | Some c => iter_descend_right c (frame' :: rest)
             | None => Some (frame' :: rest)
             end);
        Some (Some s.1, remaining - 1, stack')
      else btreereviter_next_loop remaining rest
  end.

Definition btreereviter_next (it : PyBTreeIterObject)
    : option (option PyObject * PyBTreeIterObject) :=
  '(r, remaining', stack') ← btreereviter_next_loop (remaining it) (stack it);
  Some (r, mkIter (it_btree it) remaining' stack').

(** *** Range iterator *)

Record PyBTreeRangeIterObject := mkRangeIter {
  rit_btree : PyBTreeObject;
  min_key : option PyObject;
  max_key : option PyObject;
  inclusive_min : bool;
  inclusive_max : bool;
  rit_stack : list IterStackFrame;
  started : bool
}.

(** Descend to the first key [>= min_key] (or leftmost if no min).  When the
    search fails the C function returns with the pushed frame's [key_idx]
    unset; reading it afterwards is undefined, hence [None]. *)
Fixpoint range_iter_descend_to_start (min_key : option PyObject) (inclusive_min : bool)
    (node : PyBTreeNode) (stack : list IterStackFrame) : option (list IterStackFrame) :=
  match node with
  | mkNode leaf ss cs _ =>
      match min_key with
      | None =>
          match push (mkFrame node 0) stack with
          | None => None
          | Some stack' =>
              if leaf then Some stack'
              else with_nth (fun c => range_iter_descend_to_start min_key inclusive_min c stack')
                            (Some stack') cs 0%nat
          end
      | Some key =>
          let '(idx, found) := node_search_key node key in
          if idx <? 0 then None
          else
            let idx := if found && negb inclusive_min then idx + 1 else idx in
            match push (mkFrame node idx) stack with
            | None => None
            | Some stack' =>
                if leaf then Some stack'
                else if found && negb inclusive_min && negb (idx <=? Z.of_nat (length ss))
                then Some stack'
                else with_nth (fun c => range_iter_descend_to_start min_key inclusive_min c stack')
                              (Some stack') cs (Z.to_nat idx)
            end
      end
  end.

(** The [while (it->stack_top >= 0)] loop of [btreerangeiter_next]. *)
Fixpoint btreerangeiter_next_loop (max_key : option PyObject) (inclusive_max : bool)
    (stack : list IterStackFrame) : option (ret (option PyObject) * list IterStackFrame) :=
  match stack with
  | [] => Some (Return None, [])
  | frame :: rest =>
      let node := frame_node frame in
      if key_idx frame <? n_keys node then
        s ← slot_at node (key_idx frame);
        let key := s.1 in
        let cmp := match max_key with Some m => compare_keys key m | None => -1 end in
        if cmp =? -2 then Some (Raise ComparisonError, stack)
        else if (if inclusive_max then cmp >? 0 else cmp >=? 0)
        then Some (Return None, stack)
        else
          let frame' := mkFrame node (key_idx frame + 1) in
          stack' ←
            (if is_leaf node then Some (frame' :: rest)
             else
               match child_at node (key_idx frame') with
               | Some c => iter_descend_left c (frame' :: rest)
               | None => Some (frame' :: rest)
               end);
          Some (Return (Some key), stack')
      else btreerangeiter_next_loop max_key inclusive_max rest
  end.

Definition btreerangeiter_next (it : PyBTreeRangeIterObject)
    : option (ret (option PyObject) * PyBTreeRangeIterObject) :=
  stack0 ←
    (if started it then Some (rit_stack it)
     else
       match root (rit_btree it) with
       | Some r =>
           if n_keys r >? 0
           then range_iter_descend_to_start (min_key it) (inclusive_min it) r (rit_stack it)
           else Some (rit_stack it)
       | None => Some (rit_stack it)
       end);
  '(r, stack') ← btreerangeiter_next_loop (max_key it) (inclusive_max it) stack0;
  Some (r, mkRangeIter (rit_btree it) (min_key it) (max_key it)
                       (inclusive_min it) (inclusive_max it) stack' true).

(** The [inclusive] argument of [irange]: absent or [None]; a tuple of two
    objects, given by what [PyObject_IsTrue] returns for each; or anything
    else. *)
Inductive inclusive_arg :=
| InclusiveDefault
| InclusivePair (min_true max_true : Z)
| InclusiveMalformed.

(** [min_key] and [max_key] are [None] when the argument is absent or
    Python's [None]. *)
Definition btree_irange (btree : PyBTreeObject) (min_key max_key : option PyObject)
    (inclusive : inclusive_arg) : ret PyBTreeRangeIterObject :=
  match inclusive with
  | InclusiveMalformed => Raise TypeError
  | InclusiveDefault => Return (mkRangeIter btree min_key max_key true false [] false)
  | InclusivePair a b =>
      if (a <? 0) || (b <? 0) then Raise HostError
      else Return (mkRangeIter btree min_key max_key
                               (negb (a =? 0)) (negb (b =? 0)) [] false)
  end.

(** *** peekitem, popitem *)

(** The argument is the Python integer passed as [index], if one was
    passed; the format ["|n"] raises [OverflowError] for an integer that is
    not a [Py_ssize_t]. *)
Definition btree_peekitem (btree : PyBTreeObject) (arg : option Z) : option (ret slot) :=
  let index := match arg with Some i => i | None => -1 end in
  if negb (is_ssize_t index) then Some (Raise OverflowError)
  else if size btree =? 0 then Some (Raise IndexError_empty)
  else if index =? 0 then
    node ← root btree; s ← leftmost_slot node; Some (Return s)
  else if (index =? -1) || (index =? size btree - 1) then
    node ← root btree; s ← rightmost_slot node; Some (Return s)
  else Some (Raise IndexError_unsupported).

Definition btree_popitem (btree : PyBTreeObject) (arg : option Z)
    : option (ret slot * PyBTreeObject) :=
  let index := match arg with Some i => i | None => -1 end in
  if negb (is_ssize_t index) then Some (Raise OverflowError, btree)
  else if size btree =? 0 then Some (Raise (KeyError None), btree)
  else
    let get_key :=
      if index =? 0 then Some (PyBTree_GetMin btree)
      else if (index =? -1) || (index =? size btree - 1) then Some (PyBTree_GetMax btree)
      else None in
    match get_key with
    | None => Some (Raise IndexError_unsupported, btree)
    | Some okey =>
        key ← okey;
        match key with
        | None => Some (Raise SystemError, btree)
        | Some key =>
            match PyBTree_Search btree key with
            | Raise e => Some (Raise e, btree)
            | Return None => Some (Raise RuntimeError, btree)
            | Return (Some value) =>
                '(r, btree') ← PyBTree_Delete btree key;
                match r with
                | Raise e => Some (Raise e, btree')
                | Return _ => Some (Return (key, value), btree')
                end
            end
        end
    end.

End model.

(** ** A host whose objects are exact integers *)

#[local] Instance ZHost : Host := {|
  PyObject := Z;
  PyLong_CheckExact := fun _ => true;
  PyFloat_CheckExact := fun _ => false;
  PyUnicode_CheckExact := fun _ => false;
  PyObject_RichCompareBool := fun a b op =>
    match op with Py_LT => if a <? b then 1 else 0 | Py_EQ => if a =? b then 1 else 0 end;
  double := unit;
  PyFloat_AS_DOUBLE := fun _ => tt;
  Py_IS_NAN := fun _ => false;
  double_lt := fun _ _ => false;
  PyUnicode_Compare := fun _ _ => (0, false)
|}.


(** ** Specification vocabulary *)

Section spec.
Context {H : Host}.

Definition klt (a b : PyObject) : Prop := compare_keys a b = -1.
Definition keq (a b : PyObject) : Prop := compare_keys a b = 0.

(** The comparator is a total order on keys and never fails. *)
Class cmp_total : Prop := {
  cmp_range : forall a b,
    compare_keys a b = -1 \/ compare_keys a b = 0 \/ compare_keys a b = 1;
  cmp_antisym : forall a b, compare_keys a b = -1 <-> compare_keys b a = 1;
  cmp_trans : forall a b c, klt a b -> klt b c -> klt a c;
  cmp_eq_compat : forall a b c, keq a b -> compare_keys a c = compare_keys b c
}.

(** Strictly increasing keys. *)
Definition sorted (l : list slot) : Prop := StronglySorted klt l.*1.

(** Sorted association lists: what a tree stands for. *)
Fixpoint list_lookup (key : PyObject) (l : list slot) : option PyObject :=
  match l with
  | [] => None
  | s :: l' => if compare_keys key s.1 =? 0 then Some s.2 else list_lookup key l'
  end.

Definition list_mem (key : PyObject) (l : list slot) : bool :=
  bool_decide (is_Some (list_lookup key l)).

Fixpoint list_insert (key value : PyObject) (l : list slot) : list slot :=
  match l with
  | [] => [(key, value)]
  | s :: l' =>
      if compare_keys key s.1 =? 0 then (s.1, value) :: l'
      else if compare_keys key s.1 <? 0 then (key, value) :: l
      else s :: list_insert key value l'
  end.

Fixpoint list_delete (key : PyObject) (l : list slot) : list slot :=
  match l with
  | [] => []
  | s :: l' => if compare_keys key s.1 =? 0 then l' else s :: list_delete key l'
  end.

(** *** The structural invariants *)

(** [shape t h node]: [node] is the top of a subtree of height [h] whose
    leaves are all at depth [h], whose nodes have order [t] and at most
    [2t-1] keys, and whose nodes below the top have at least [t-1] keys. *)
Fixpoint shape (t : Z) (h : nat) (node : PyBTreeNode) : Prop :=
  order node = t /\ n_keys node <= 2 * t - 1 /\
  match h with
  | O => is_leaf node = true /\ children node = []
  | S h' =>
      is_leaf node = false /\
      length (children node) = S (length (slots node)) /\
      Forall (fun c => t - 1 <= n_keys c /\ shape t h' c) (children node)
  end.

(** [ordered h node]: keys increase strictly within every node, and every
    key under [children[i]] is below [keys[i]], every key under
    [children[i+1]] above it. *)
Fixpoint ordered (h : nat) (node : PyBTreeNode) : Prop :=
  StronglySorted klt (keys node) /\
  match h with
  | O => True
  | S h' =>
      Forall (ordered h') (children node) /\
      forall (i : nat) (s : slot), slots node !! i = Some s ->
        (forall c, children node !! i = Some c ->
                   Forall (fun x => klt x.1 s.1) (collect_items_fast c)) /\
        (forall c, children node !! S i = Some c ->
                   Forall (fun x => klt s.1 x.1) (collect_items_fast c))
  end.

(** The invariants of a tree of minimum degree [t]. *)
Definition wf_tree (btree : PyBTreeObject) : Prop :=
  exists (r : PyBTreeNode) (h : nat),
    root btree = Some r /\
    2 <= tree_order btree /\
    shape (tree_order btree) h r /\
    ordered h r /\
    (n_keys r = 0 -> is_leaf r = true) /\
    size btree = Z.of_nat (length (collect_items_fast r)).

(** The pairs a tree holds, in key order. *)
Definition items (btree : PyBTreeObject) : list slot :=
  match root btree with
  | Some r => collect_items_fast r
  | None => []
  end.

End spec.

(** ** The comparator as an order *)

Section cmp_facts.
Context {H : Host}.

Lemma compare_keys_refl (a : PyObject) : compare_keys a a = 0.
Proof. unfold compare_keys. rewrite bool_decide_eq_true_2; done. Qed.

Context {Htot : cmp_total}.

Lemma cmp_gt_iff a b : compare_keys a b = 1 <-> klt b a.
Proof. unfold klt. symmetry. apply (cmp_antisym). Qed.

Lemma klt_irrefl a : ~ klt a a.
Proof. unfold klt. rewrite compare_keys_refl. lia. Qed.

Lemma klt_asym a b : klt a b -> ~ klt b a.
Proof.
  intros Hab Hba. apply (klt_irrefl a). eapply (cmp_trans); eauto.
Qed.

Lemma klt_not_keq a b : klt a b -> ~ keq a b.
Proof. unfold klt, keq. lia. Qed.

Lemma klt_not_keq' a b : klt a b -> ~ keq b a.
Proof.
  unfold keq. intros Hab Hba. apply (cmp_antisym) in Hab. lia.
Qed.

Lemma keq_sym a b : keq a b -> keq b a.
Proof.
  unfold keq. intros Hab.
  destruct (cmp_range b a) as [Hc | [Hc | Hc]]; [| done |].
  - apply (cmp_antisym) in Hc. lia.
  - apply cmp_gt_iff in Hc. unfold klt in Hc. lia.
Qed.

Lemma keq_trans a b c : keq a b -> keq b c -> keq a c.
Proof.
  unfold keq. intros Hab Hbc. rewrite (cmp_eq_compat a b c Hab). done.
Qed.

Lemma klt_keq_l a b c : keq a b -> klt a c -> klt b c.
Proof. unfold klt. intros Hab. rewrite (cmp_eq_compat a b c Hab). done. Qed.

Lemma klt_keq_r a b c : keq b c -> klt a b -> klt a c.
Proof.
  intros Hbc Hab. apply cmp_gt_iff. apply cmp_gt_iff in Hab.
  rewrite <- (cmp_eq_compat b c a Hbc). done.
Qed.

Lemma cmp_cases a b : klt a b \/ keq a b \/ klt b a.
Proof.
  destruct (cmp_range a b) as [Hc | [Hc | Hc]]; auto.
  right; right. by apply cmp_gt_iff.
Qed.

Lemma cmp_not_error a b : compare_keys a b <> -2.
Proof. destruct (cmp_range a b) as [Hc | [Hc | Hc]]; lia. Qed.

#[local] Instance klt_transitive : Transitive klt.
Proof. intros a b c. apply (cmp_trans). Qed.

(** *** Sorted slot lists *)

Lemma sorted_nil : sorted [].
Proof. constructor. Qed.

Lemma sorted_cons s l :
  sorted (s :: l) <-> Forall (fun x => klt s.1 x.1) l /\ sorted l.
Proof.
  unfold sorted. rewrite fmap_cons. split.
  - intros Hs. apply StronglySorted_inv in Hs as [Hs Hall].
    split; [| done]. rewrite Forall_fmap in Hall. exact Hall.
  - intros [Hall Hs]. constructor; [done |]. rewrite Forall_fmap. exact Hall.
Qed.

Lemma sorted_app l1 l2 :
  sorted (l1 ++ l2) <->
  sorted l1 /\ sorted l2 /\ Forall (fun x => Forall (fun y => klt x.1 y.1) l2) l1.
Proof.
  induction l1 as [| s l1 IH]; simpl.
  - split; [intros Hs; split_and!; [apply sorted_nil | done | constructor] | tauto].
  - rewrite !sorted_cons, Forall_app, Forall_cons, IH. tauto.
Qed.

Lemma sorted_snoc l s :
  sorted (l ++ [s]) <-> sorted l /\ Forall (fun x => klt x.1 s.1) l.
Proof.
  rewrite sorted_app. split.
  - intros (Hl & _ & Hall). split; [done |].
    eapply Forall_impl; [exact Hall |]. intros x Hx. by rewrite Forall_singleton in Hx.
  - intros [Hl Hall]. split_and!; [done | |].
    + apply sorted_cons. split; [constructor | apply sorted_nil].
    + eapply Forall_impl; [exact Hall |]. intros x Hx. by rewrite Forall_singleton.
Qed.

Lemma Forall_klt_trans_l (l : list slot) a b :
  klt a b -> Forall (fun x => klt b x.1) l -> Forall (fun x => klt a x.1) l.
Proof.
  intros Hab Hl. eapply Forall_impl; [exact Hl |]. intros x Hx. by transitivity b.
Qed.

Lemma Forall_klt_trans_r (l : list slot) a b :
  klt a b -> Forall (fun x => klt x.1 a) l -> Forall (fun x => klt x.1 b) l.
Proof.
  intros Hab Hl. eapply Forall_impl; [exact Hl |]. intros x Hx. by transitivity a.
Qed.

(** Everything before the last element of a sorted list is below what the
    last element is below. *)
Lemma sorted_snoc_below l s key :
  sorted (l ++ [s]) -> klt s.1 key -> Forall (fun x => klt x.1 key) (l ++ [s]).
Proof.
  intros [Hl Hall]%sorted_snoc Hs. apply Forall_app. split.
  - by apply (Forall_klt_trans_r _ s.1).
  - by rewrite Forall_singleton.
Qed.

Lemma sorted_cons_above l s key :
  sorted (s :: l) -> klt key s.1 -> Forall (fun x => klt key x.1) (s :: l).
Proof.
  intros [Hall Hl]%sorted_cons Hs. constructor; [done |].
  by apply (Forall_klt_trans_l _ _ s.1).
Qed.

(** *** Lookup, insertion and deletion in sorted lists *)

Lemma cmp_eqb_klt_gt key k : klt k key -> (compare_keys key k =? 0) = false.
Proof. intros Hk%cmp_gt_iff. apply Z.eqb_neq. lia. Qed.

Lemma cmp_eqb_klt_lt key k : klt key k -> (compare_keys key k =? 0) = false.
Proof. unfold klt. intros Hk. apply Z.eqb_neq. lia. Qed.

Lemma cmp_ltb_klt_gt key k : klt k key -> (compare_keys key k <? 0) = false.
Proof. intros Hk%cmp_gt_iff. apply Z.ltb_ge. lia. Qed.

Lemma list_lookup_above key l :
  Forall (fun x => klt key x.1) l -> list_lookup key l = None.
Proof.
  induction 1 as [| s l Hs _ IH]; [done |]. simpl.
  by rewrite cmp_eqb_klt_lt.
Qed.

Lemma list_lookup_app_l key l1 l2 :
  Forall (fun x => klt x.1 key) l1 -> list_lookup key (l1 ++ l2) = list_lookup key l2.
Proof.
  induction 1 as [| s l Hs _ IH]; [done |]. simpl.
  by rewrite cmp_eqb_klt_gt.
Qed.

Lemma list_lookup_app_r key l1 l2 :
  Forall (fun x => klt key x.1) l2 -> list_lookup key (l1 ++ l2) = list_lookup key l1.
Proof.
  intros Hl2. induction l1 as [| s l1 IH]; simpl.
  - by apply list_lookup_above.
  - by rewrite IH.
Qed.

Lemma list_mem_app_l key l1 l2 :
  Forall (fun x => klt x.1 key) l1 -> list_mem key (l1 ++ l2) = list_mem key l2.
Proof. intros Hl. unfold list_mem. by rewrite list_lookup_app_l. Qed.

Lemma list_mem_app_r key l1 l2 :
  Forall (fun x => klt key x.1) l2 -> list_mem key (l1 ++ l2) = list_mem key l1.
Proof. intros Hl. unfold list_mem. by rewrite list_lookup_app_r. Qed.

Lemma list_insert_app_l key value l1 l2 :
  Forall (fun x => klt x.1 key) l1 ->
  list_insert key value (l1 ++ l2) = l1 ++ list_insert key value l2.
Proof.
  induction 1 as [| s l Hs _ IH]; [done |]. simpl.
  by rewrite cmp_eqb_klt_gt, cmp_ltb_klt_gt, IH.
Qed.

Lemma list_insert_app_r key value l1 l2 :
  Forall (fun x => klt key x.1) l2 ->
  list_insert key value (l1 ++ l2) = list_insert key value l1 ++ l2.
Proof.
  intros Hl2. induction l1 as [| s l1 IH]; simpl.
  - destruct Hl2 as [| x l2 Hx _]; [done |]. simpl.
    rewrite cmp_eqb_klt_lt by done. unfold klt in Hx. rewrite Hx. done.
  - rewrite IH. by repeat case_match.
Qed.

Lemma list_delete_above key l :
  Forall (fun x => klt key x.1) l -> list_delete key l = l.
Proof.
  induction 1 as [| s l Hs _ IH]; [done |]. simpl.
  by rewrite cmp_eqb_klt_lt, IH.
Qed.

Lemma list_delete_app_l key l1 l2 :
  Forall (fun x => klt x.1 key) l1 ->
  list_delete key (l1 ++ l2) = l1 ++ list_delete key l2.
Proof.
  induction 1 as [| s l Hs _ IH]; [done |]. simpl.
  by rewrite cmp_eqb_klt_gt, IH.
Qed.

Lemma list_delete_app_r key l1 l2 :
  Forall (fun x => klt key x.1) l2 ->
  list_delete key (l1 ++ l2) = list_delete key l1 ++ l2.
Proof.
  intros Hl2. induction l1 as [| s l1 IH]; simpl.
  - by apply list_delete_above.
  - rewrite IH. by case_match.
Qed.

End cmp_facts.

(** ** Binary search inside a node *)

Section search_key.
Context {H : Host} {Htot : cmp_total}.

#[local] Existing Instance klt_transitive.

Lemma SS_lookup_above (ks : list PyObject) (m : nat) k key :
  StronglySorted klt ks -> ks !! m = Some k -> klt key k ->
  Forall (fun k' => klt key k') (drop m ks).
Proof.
  intros Hs. revert m. induction Hs as [| a l Hs IH Ha]; intros m Hm Hk; [done |].
  destruct m as [| m]; simpl in *.
  - injection Hm as ->. constructor; [done |].
    eapply Forall_impl; [exact Ha |]. intros x Hx.
    exact (cmp_trans _ _ _ Hk Hx).
  - by apply IH.
Qed.

Lemma SS_lookup_below (ks : list PyObject) (m : nat) k key :
  StronglySorted klt ks -> ks !! m = Some k -> klt k key ->
  Forall (fun k' => klt k' key) (take (S m) ks).
Proof.
  intros Hs. revert m. induction Hs as [| a l Hs IH Ha]; intros m Hm Hk; [done |].
  destruct m as [| m]; simpl in *.
  - injection Hm as ->. constructor; [done |]. rewrite take_0. constructor.
  - constructor; [| by apply IH].
    apply list_elem_of_lookup_2 in Hm.
    rewrite Forall_forall in Ha. exact (cmp_trans _ _ _ (Ha _ Hm) Hk).
Qed.

(** What [node_search_key] returns on strictly increasing keys: the index
    [i] of a key equal to [key], or else the position [i] with every key
    before it below [key] and every key from it on above. *)
Definition search_post (ks : list PyObject) (key : PyObject) (r : Z * bool) : Prop :=
  exists i : nat,
    r.1 = Z.of_nat i /\
    if r.2 then exists k, ks !! i = Some k /\ keq key k
    else (i <= length ks)%nat /\
         Forall (fun k => klt k key) (take i ks) /\
         Forall (fun k => klt key k) (drop i ks).

Lemma node_search_key_loop_spec ks key :
  StronglySorted klt ks ->
  forall rounds low high,
    0 <= low -> high < Z.of_nat (length ks) -> low <= high + 1 ->
    high - low + 1 < Z.of_nat rounds ->
    Forall (fun k => klt k key) (take (Z.to_nat low) ks) ->
    Forall (fun k => klt key k) (drop (Z.to_nat (high + 1)) ks) ->
    search_post ks key (node_search_key_loop rounds ks key low high).
Proof.
  intros Hs. induction rounds as [| rounds IH]; intros low high Hlow Hhigh Hle Hr Hlo Hhi.
  { lia. }
  simpl. destruct (Z.leb_spec low high) as [Hlh | Hlh].
  - set (mid := low + (high - low) ÷ 2).
    assert (low <= mid <= high) as Hmid
      by (subst mid; Z.to_euclidean_division_equations; lia).
    destruct (lookup_lt_is_Some_2 ks (Z.to_nat mid)) as [k Hk]; [lia |].
    rewrite Hk.
    destruct (cmp_range key k) as [Hc | [Hc | Hc]]; rewrite Hc; simpl.
    + apply IH; try lia; [done |].
      replace (Z.to_nat (mid - 1 + 1)) with (Z.to_nat mid) by lia.
      by eapply SS_lookup_above.
    + exists (Z.to_nat mid). simpl. split; [lia |]. eauto.
    + apply IH; try lia; [| done].
      replace (Z.to_nat (mid + 1)) with (S (Z.to_nat mid)) by lia.
      eapply SS_lookup_below; eauto. by apply cmp_gt_iff.
  - exists (Z.to_nat low). simpl. split; [lia |]. split; [lia |]. split; [done |].
    by replace (Z.to_nat low) with (Z.to_nat (high + 1)) by lia.
Qed.

Lemma node_search_key_spec node key :
  StronglySorted klt (keys node) ->
  search_post (keys node) key (node_search_key node key).
Proof.
  intros Hs. unfold node_search_key.
  assert (length (keys node) = length (slots node)) as Hlen
    by (unfold keys; by rewrite length_fmap).
  apply node_search_key_loop_spec; unfold n_keys; try lia; [done | |].
  - rewrite take_0. constructor.
  - rewrite drop_ge by lia. constructor.
Qed.

End search_key.

(** ** The in-order walk as a list *)

Section zip_facts.
Context {N A : Type} (f : N -> list A).

(** The walk to the left of a child: [f c0 ++ s0 :: f c1 ++ s1 :: ...]. *)
Fixpoint zl (cs : list N) (ss : list A) : list A :=
  match cs, ss with
  | c :: cs', s :: ss' => f c ++ s :: zl cs' ss'
  | _, _ => []
  end.

(** The walk to the right of a child: [s0 :: f c0 ++ s1 :: f c1 ++ ...]. *)
Fixpoint zr (ss : list A) (cs : list N) : list A :=
  match ss, cs with
  | s :: ss', c :: cs' => s :: f c ++ zr ss' cs'
  | _, _ => []
  end.

Lemma zipio_cons_zr c cs ss :
  length cs = length ss -> zipio f (c :: cs) ss = f c ++ zr ss cs.
Proof.
  revert c cs. induction ss as [| s ss IH]; intros c cs Hlen.
  - destruct cs; [| done]. simpl. by rewrite app_nil_r.
  - destruct cs as [| c' cs]; [done |]. simpl in *. f_equal. f_equal.
    apply IH. lia.
Qed.

Lemma zl_app cs1 cs2 ss1 ss2 :
  length cs1 = length ss1 ->
  zl (cs1 ++ cs2) (ss1 ++ ss2) = zl cs1 ss1 ++ zl cs2 ss2.
Proof.
  revert ss1. induction cs1 as [| c cs1 IH]; intros [| s ss1] Hlen; try done.
  simpl in *. rewrite IH by lia. by rewrite <- app_assoc.
Qed.

Lemma zr_app ss1 ss2 cs1 cs2 :
  length cs1 = length ss1 ->
  zr (ss1 ++ ss2) (cs1 ++ cs2) = zr ss1 cs1 ++ zr ss2 cs2.
Proof.
  revert cs1. induction ss1 as [| s ss1 IH]; intros [| c cs1] Hlen; try done.
  simpl in *. rewrite IH by lia. by rewrite <- app_assoc.
Qed.

Lemma zl_snoc cs ss c s :
  length cs = length ss -> zl (cs ++ [c]) (ss ++ [s]) = zl cs ss ++ f c ++ [s].
Proof. intros Hlen. by rewrite zl_app. Qed.

Lemma zipio_zl_app cs1 cs2 ss1 ss2 :
  length cs1 = length ss1 ->
  zipio f (cs1 ++ cs2) (ss1 ++ ss2) = zl cs1 ss1 ++ zipio f cs2 ss2.
Proof.
  revert ss1. induction cs1 as [| c cs1 IH]; intros [| s ss1] Hlen; try done.
  simpl in *. rewrite IH by lia. by rewrite <- app_assoc.
Qed.

(** The walk of a node around its child [c]. *)
Lemma zipio_focus cs1 c cs2 ss1 ss2 :
  length cs1 = length ss1 -> length cs2 = length ss2 ->
  zipio f (cs1 ++ c :: cs2) (ss1 ++ ss2) = zl cs1 ss1 ++ f c ++ zr ss2 cs2.
Proof.
  intros H1 H2. rewrite zipio_zl_app by done. by rewrite zipio_cons_zr.
Qed.

(** The walk of a node around its slot [m]. *)
Lemma zipio_app cs1 cs2 ss1 m ss2 :
  length cs1 = S (length ss1) ->
  zipio f (cs1 ++ cs2) (ss1 ++ m :: ss2) = zipio f cs1 ss1 ++ m :: zipio f cs2 ss2.
Proof.
  revert ss1. induction cs1 as [| c cs1 IH]; intros ss1 Hlen; [done |].
  destruct ss1 as [| s ss1]; simpl in *.
  - destruct cs1; [| done]. simpl. done.
  - rewrite IH by lia. by rewrite <- app_assoc.
Qed.

Lemma Forall_zl (P : A -> Prop) cs ss :
  Forall P ss -> Forall (fun c => Forall P (f c)) cs -> Forall P (zl cs ss).
Proof.
  intros Hss. revert cs. induction Hss as [| s ss Hs Hss IH]; intros cs Hcs.
  - destruct cs; constructor.
  - destruct Hcs as [| c cs Hc Hcs]; simpl; [constructor |].
    apply Forall_app. split; [done |]. constructor; auto.
Qed.

Lemma Forall_zr (P : A -> Prop) ss cs :
  Forall P ss -> Forall (fun c => Forall P (f c)) cs -> Forall P (zr ss cs).
Proof.
  intros Hss. revert cs. induction Hss as [| s ss Hs Hss IH]; intros cs Hcs.
  - constructor.
  - destruct Hcs as [| c cs Hc Hcs]; simpl; [constructor |].
    constructor; [done |]. apply Forall_app. auto.
Qed.

Lemma Forall_zipio (P : A -> Prop) cs ss :
  Forall P ss -> Forall (fun c => Forall P (f c)) cs -> Forall P (zipio f cs ss).
Proof.
  intros Hss Hcs. revert ss Hss. induction Hcs as [| c cs Hc Hcs IH]; intros ss Hss.
  - done.
  - destruct Hss as [| s ss Hs Hss]; simpl; [done |].
    apply Forall_app. split; [done |]. constructor; auto.
Qed.

Lemma zipio_fmap {B : Type} (g : A -> B) cs ss :
  g <$> zipio f cs ss = zipio (fun c => g <$> f c) cs (g <$> ss).
Proof.
  revert ss. induction cs as [| c cs IH]; intros ss; [done |].
  destruct ss as [| s ss]; simpl; [done |].
  by rewrite fmap_app, fmap_cons, IH.
Qed.

End zip_facts.

Lemma zipio_ext {N A : Type} (f g : N -> list A) cs ss :
  Forall (fun c => f c = g c) cs -> zipio f cs ss = zipio g cs ss.
Proof.
  intros Hcs. revert ss. induction Hcs as [| c cs Hc Hcs IH]; intros ss; [done |].
  destruct ss as [| s ss]; simpl; [done |]. by rewrite Hc, IH.
Qed.

(** ** Array helpers on split lists *)

Section array_facts.
Context {A : Type}.
Implicit Types l : list A.

Lemma insert_at_app i x l1 l2 :
  i = length l1 -> insert_at i x (l1 ++ l2) = l1 ++ x :: l2.
Proof.
  intros ->. unfold insert_at. by rewrite take_app_length, drop_app_length.
Qed.

Lemma remove_at_app i x l1 l2 :
  i = length l1 -> remove_at i (l1 ++ x :: l2) = l1 ++ l2.
Proof.
  intros ->. unfold remove_at. rewrite take_app_length.
  rewrite (cons_middle x l1 l2), app_assoc.
  rewrite (drop_app_length' (l1 ++ [x]) l2 (S (length l1))); [done |].
  rewrite length_app. simpl. lia.
Qed.

Lemma set_at_app i x y l1 l2 :
  i = length l1 -> <[i := y]> (l1 ++ x :: l2) = l1 ++ y :: l2.
Proof.
  intros ->. rewrite insert_app_r_alt by lia.
  by replace (length l1 - length l1)%nat with 0%nat by lia.
Qed.

Lemma alter_at_app (g : A -> A) i x l1 l2 :
  i = length l1 -> alter g i (l1 ++ x :: l2) = l1 ++ g x :: l2.
Proof.
  intros ->. rewrite alter_app_r_alt by lia.
  by replace (length l1 - length l1)%nat with 0%nat by lia.
Qed.

Lemma lookup_at_app i x l1 l2 :
  i = length l1 -> (l1 ++ x :: l2) !! i = Some x.
Proof. intros ->. by apply list_lookup_middle. Qed.

Lemma split_at_length l (i : nat) :
  (i <= length l)%nat -> exists l1 l2, l = l1 ++ l2 /\ length l1 = i.
Proof.
  intros Hi. exists (take i l), (drop i l). split.
  - by rewrite take_drop.
  - rewrite length_take. lia.
Qed.

End array_facts.

(** ** Nodes: unfolding, induction, and the two views of key order *)

Section node_facts.
Context {H : Host}.

Fixpoint PyBTreeNode_nested_ind (P : PyBTreeNode -> Prop)
    (Hnode : forall leaf ss cs t, Forall P cs -> P (mkNode leaf ss cs t))
    (node : PyBTreeNode) : P node :=
  match node with
  | mkNode leaf ss cs t =>
      Hnode leaf ss cs t
        ((fix go (cs : list PyBTreeNode) : Forall P cs :=
            match cs with
            | [] => Forall_nil_2 P
            | c :: cs' => Forall_cons_2 P c cs' (PyBTreeNode_nested_ind P Hnode c) (go cs')
            end) cs)
  end.

Lemma collect_items_fast_eq node :
  collect_items_fast node =
  if is_leaf node then slots node
  else zipio collect_items_fast (children node) (slots node).
Proof. by destruct node. Qed.

Lemma collect_keys_fast_items node :
  collect_keys_fast node = (collect_items_fast node).*1.
Proof.
  induction node as [leaf ss cs t IH] using PyBTreeNode_nested_ind. simpl.
  destruct leaf; [done |]. rewrite zipio_fmap. by apply zipio_ext.
Qed.

Lemma collect_values_fast_items node :
  collect_values_fast node = (collect_items_fast node).*2.
Proof.
  induction node as [leaf ss cs t IH] using PyBTreeNode_nested_ind. simpl.
  destruct leaf; [done |]. rewrite zipio_fmap. by apply zipio_ext.
Qed.

Lemma with_nth_lookup {N B : Type} (g : N -> B) (d : B) (l : list N) (i : nat) :
  with_nth g d l i = match l !! i with Some c => g c | None => d end.
Proof.
  revert i. induction l as [| c l IH]; intros [| i]; simpl; auto.
Qed.

Lemma shape_leaf t node :
  shape t 0 node <->
  order node = t /\ n_keys node <= 2 * t - 1 /\ is_leaf node = true /\ children node = [].
Proof. done. Qed.

Lemma shape_internal t h node :
  shape t (S h) node <->
  order node = t /\ n_keys node <= 2 * t - 1 /\ is_leaf node = false /\
  length (children node) = S (length (slots node)) /\
  Forall (fun c => t - 1 <= n_keys c /\ shape t h c) (children node).
Proof. done. Qed.

Lemma shape_n_keys t h node : shape t h node -> n_keys node <= 2 * t - 1.
Proof. destruct h; simpl; tauto. Qed.

Lemma shape_order t h node : shape t h node -> order node = t.
Proof. destruct h; simpl; tauto. Qed.

Lemma shape_is_leaf t h node : shape t h node -> is_leaf node = bool_decide (h = 0%nat).
Proof. destruct h; simpl; intros (_ & _ & -> & _); done. Qed.

(** A child and what lies on both sides of it. *)
Lemma children_focus (cs : list PyBTreeNode) (ss : list slot) (i : nat) c :
  length cs = S (length ss) -> cs !! i = Some c ->
  exists cs1 cs2 ss1 ss2,
    cs = cs1 ++ c :: cs2 /\ ss = ss1 ++ ss2 /\
    length cs1 = i /\ length ss1 = i /\ length cs2 = length ss2.
Proof.
  intros Hlen Hc.
  destruct (list_elem_of_split_length _ _ _ Hc) as (cs1 & cs2 & -> & ->).
  rewrite length_app in Hlen. simpl in Hlen.
  destruct (split_at_length ss (length cs1)) as (ss1 & ss2 & -> & Hss1); [lia |].
  exists cs1, cs2, ss1, ss2. rewrite length_app in Hlen. split_and!; try done. lia.
Qed.

End node_facts.

Section order_views.
Context {H : Host} {Htot : cmp_total}.

#[local] Existing Instance klt_transitive.
#[local] Abbreviation ino := collect_items_fast.

(** The separator invariant of one node. *)
Definition seps (cs : list PyBTreeNode) (ss : list slot) : Prop :=
  forall (i : nat) (s : slot), ss !! i = Some s ->
    (forall c, cs !! i = Some c -> Forall (fun x => klt x.1 s.1) (ino c)) /\
    (forall c, cs !! S i = Some c -> Forall (fun x => klt s.1 x.1) (ino c)).

Lemma Forall_zipio_inv (P : slot -> Prop) (cs : list PyBTreeNode) ss :
  length cs = S (length ss) ->
  Forall P (zipio ino cs ss) ->
  Forall P ss /\ Forall (fun c => Forall P (ino c)) cs.
Proof.
  revert cs. induction ss as [| s ss IH]; intros [| c cs] Hlen Hall; simpl in *; try lia.
  - destruct cs; [| simpl in *; lia]. split; [constructor |]. by repeat constructor.
  - apply Forall_app in Hall as [Hc Hall]. apply Forall_cons in Hall as [Hs Hall].
    destruct (IH cs) as [Hss Hcs]; [lia | done |].
    split; constructor; done.
Qed.

Lemma zipio_sorted (cs : list PyBTreeNode) ss :
  length cs = S (length ss) ->
  sorted ss -> Forall (fun c => sorted (ino c)) cs -> seps cs ss ->
  sorted (zipio ino cs ss).
Proof.
  revert cs. induction ss as [| s ss IH]; intros [| c cs] Hlen Hss Hcs Hsep;
    simpl in *; try lia.
  - destruct cs; [| simpl in *; lia]. by apply Forall_inv in Hcs.
  - apply Forall_cons in Hcs as [Hc Hcs].
    apply (sorted_cons) in Hss as [Hs Hss].
    assert (Forall (fun x => klt s.1 x.1) (zipio ino cs ss)) as Habove.
    { apply Forall_zipio; [done |].
      apply Forall_lookup. intros j cj Hj. destruct j as [| j].
      - by apply (Hsep 0%nat s).
      - destruct (lookup_lt_is_Some_2 ss j) as [sj Hsj].
        { apply lookup_lt_Some in Hj. lia. }
        apply (Forall_klt_trans_l _ _ sj.1).
        + rewrite Forall_lookup in Hs. by apply (Hs j).
        + by apply (Hsep (S j) sj). }
    apply (sorted_app). split_and!; [done | |].
    + apply (sorted_cons). split; [done |].
      apply IH; [lia | done | done |].
      intros i si Hsi. split; intros ci Hci.
      * by apply (Hsep (S i) si).
      * by apply (Hsep (S i) si).
    + assert (Forall (fun x => klt x.1 s.1) (ino c)) as Hbelow
        by (by apply (Hsep 0%nat s)).
      eapply Forall_impl; [exact Hbelow |]. intros x Hx. constructor; [done |].
      by apply (Forall_klt_trans_l _ _ s.1).
Qed.

Lemma zipio_sorted_inv (cs : list PyBTreeNode) ss :
  length cs = S (length ss) ->
  sorted (zipio ino cs ss) ->
  sorted ss /\ Forall (fun c => sorted (ino c)) cs /\ seps cs ss.
Proof.
  revert cs. induction ss as [| s ss IH]; intros [| c cs] Hlen Hs; simpl in *; try lia.
  - destruct cs; [| simpl in *; lia]. split_and!; [apply sorted_nil | by constructor |].
    intros i s Hi. done.
  - apply (sorted_app) in Hs as (Hc & Hs & Hcross).
    apply (sorted_cons) in Hs as [Habove Hs].
    destruct (IH cs) as (Hss & Hcs & Hsep); [lia | done |].
    destruct (Forall_zipio_inv _ cs ss ltac:(lia) Habove) as [Hab1 Hab2].
    split_and!.
    + apply (sorted_cons). done.
    + by constructor.
    + intros i si Hsi. destruct i as [| i]; simpl in Hsi.
      * injection Hsi as <-. split; intros ci Hci; simpl in Hci.
        -- injection Hci as <-. eapply Forall_impl; [exact Hcross |].
           intros x Hx. by apply Forall_inv in Hx.
        -- rewrite Forall_lookup in Hab2. by apply (Hab2 0%nat).
      * split; intros ci Hci; by apply (Hsep i si).
Qed.

Lemma ordered_sorted t h node :
  shape t h node -> ordered h node -> sorted (ino node).
Proof.
  revert node. induction h as [| h IH]; intros node Hshape Hord.
  - apply shape_leaf in Hshape as (_ & _ & Hleaf & _).
    rewrite collect_items_fast_eq, Hleaf. apply Hord.
  - apply shape_internal in Hshape as (_ & _ & Hleaf & Hlen & Hcs).
    destruct Hord as (Hkeys & Hords & Hsep).
    rewrite collect_items_fast_eq, Hleaf. apply zipio_sorted; try done.
    apply Forall_lookup. intros i c Hc.
    rewrite Forall_lookup in Hcs, Hords.
    apply IH; [by apply (Hcs i) | by apply (Hords i)].
Qed.

Lemma sorted_ordered t h node :
  shape t h node -> sorted (ino node) -> ordered h node.
Proof.
  revert node. induction h as [| h IH]; intros node Hshape Hs.
  - apply shape_leaf in Hshape as (_ & _ & Hleaf & _).
    rewrite collect_items_fast_eq, Hleaf in Hs. split; done.
  - apply shape_internal in Hshape as (_ & _ & Hleaf & Hlen & Hcs).
    rewrite collect_items_fast_eq, Hleaf in Hs.
    apply zipio_sorted_inv in Hs as (Hss & Hsc & Hsep); [| done].
    split_and!; try done.
    apply Forall_lookup. intros i c Hc.
    rewrite Forall_lookup in Hcs, Hsc.
    apply IH; [by apply (Hcs i) | by apply (Hsc i)].
Qed.

End order_views.

(** ** split_child *)

Section split.
Context {H : Host}.
#[local] Abbreviation ino := collect_items_fast.

Lemma Forall_shape_app t h (c : PyBTreeNode) cs1 cs2 :
  Forall (fun c => t - 1 <= n_keys c /\ shape t h c) (cs1 ++ c :: cs2) ->
  Forall (fun c => t - 1 <= n_keys c /\ shape t h c) cs1 /\
  (t - 1 <= n_keys c /\ shape t h c) /\
  Forall (fun c => t - 1 <= n_keys c /\ shape t h c) cs2.
Proof. rewrite Forall_app, Forall_cons. tauto. Qed.

(** Splitting a full child [c] found at [children[i]]: the two halves
    [cl] and [cr] and the median [m] between them. *)
Lemma split_child_spec t h parent (i : nat) c cs1 cs2 ss1 ss2 :
  2 <= t ->
  children parent = cs1 ++ c :: cs2 -> slots parent = ss1 ++ ss2 ->
  length cs1 = i -> length ss1 = i ->
  shape t h c -> n_keys c = 2 * t - 1 ->
  exists cl m cr,
    split_child parent i =
      Some (mkNode (is_leaf parent) (ss1 ++ m :: ss2) (cs1 ++ cl :: cr :: cs2)
                   (order parent)) /\
    slots c !! Z.to_nat (t - 1) = Some m /\
    shape t h cl /\ shape t h cr /\
    n_keys cl = t - 1 /\ n_keys cr = t - 1 /\
    ino c = ino cl ++ m :: ino cr.
Proof.
  intros Ht Hcs Hss Hi1 Hi2 Hshape Hfull.
  destruct c as [leaf css ccs ct]. unfold n_keys in Hfull. simpl in Hfull.
  assert (ct = t) as -> by (destruct h; apply Hshape).
  set (tn := Z.to_nat t).
  assert (length css = (tn - 1) + S (tn - 1))%nat as Hlen by lia.
  destruct (split_at_length css (tn - 1)) as (a & mb & -> & Ha); [lia |].
  rewrite length_app in Hlen.
  destruct mb as [| m b]; [simpl in Hlen; lia |]. simpl in Hlen.
  assert (length b = (tn - 1)%nat) as Hb by lia.
  assert (take (tn - 1) (a ++ m :: b) = a) as Htake by (by apply take_app_length').
  assert (take (tn - 1) (drop tn (a ++ m :: b)) = b) as Hdrop.
  { rewrite (cons_middle m a b), app_assoc.
    rewrite drop_app_length' by (rewrite length_app; simpl; lia).
    apply take_ge. lia. }
  assert ((a ++ m :: b) !! (tn - 1)%nat = Some m) as Hm by (by apply lookup_at_app).
  unfold split_child. rewrite Hcs, Hss.
  rewrite lookup_at_app by done. simpl.
  fold tn. rewrite Hm. simpl. rewrite Htake, Hdrop.
  rewrite insert_at_app by done.
  rewrite set_at_app by done.
  rewrite (cons_middle _ cs1 cs2), app_assoc.
  rewrite insert_at_app by (rewrite length_app; simpl; lia).
  rewrite <- app_assoc. simpl.
  destruct h as [| h].
  - apply shape_leaf in Hshape as (_ & Hn & Hleaf & Hc). simpl in *. subst leaf ccs.
    eexists _, m, _. split; [reflexivity |].
    replace (Z.to_nat (t - 1)) with (tn - 1)%nat by lia.
    unfold n_keys. simpl. split_and!; try done; try lia.
  - apply shape_internal in Hshape as (_ & Hn & Hleaf & Hclen & Hall).
    simpl in *. subst leaf.
    rewrite length_app in Hclen. simpl in Hclen.
    destruct (split_at_length ccs tn) as (ca & cb & -> & Hca); [lia |].
    rewrite length_app in Hclen.
    rewrite take_app_length' by done.
    rewrite drop_app_length' by done.
    rewrite take_ge by lia.
    apply Forall_app in Hall as [Hall1 Hall2].
    eexists _, m, _. split; [reflexivity |].
    replace (Z.to_nat (t - 1)) with (tn - 1)%nat by lia.
    unfold n_keys. simpl. split_and!; try done; try lia.
    apply zipio_app. lia.
Qed.

End split.

(** ** Searching a node with sorted slots *)

Section search_slots.
Context {H : Host} {Htot : cmp_total}.
#[local] Abbreviation ino := collect_items_fast.

(** The outcome of [node_search_key] in terms of the slots around the
    returned index. *)
Definition search_result (ss : list slot) (key : PyObject) (r : Z * bool) : Prop :=
  exists l1 l2 : list slot,
    r.1 = Z.of_nat (length l1) /\
    Forall (fun x => klt x.1 key) l1 /\ Forall (fun x => klt key x.1) l2 /\
    if r.2 then exists s, ss = l1 ++ s :: l2 /\ keq key s.1
    else ss = l1 ++ l2.

Lemma node_search_key_slots node key :
  sorted (slots node) -> search_result (slots node) key (node_search_key node key).
Proof.
  intros Hs. pose proof (node_search_key_spec node key Hs) as Hpost.
  destruct (node_search_key node key) as [z found].
  destruct Hpost as (i & Hz & Hpost). simpl in Hz, Hpost. subst z.
  unfold keys in Hpost. destruct found.
  - destruct Hpost as (k & Hk & Heq).
    rewrite list_lookup_fmap in Hk.
    apply fmap_Some in Hk as (s & Hsi & ->).
    destruct (list_elem_of_split_length _ _ _ Hsi) as (l1 & l2 & Hsplit & ->).
    rewrite Hsplit in Hs.
    apply sorted_app in Hs as (_ & Hs & Hcross).
    apply sorted_cons in Hs as [Habove _].
    exists l1, l2. simpl. split_and!; [done | | | by exists s].
    + eapply Forall_impl; [exact Hcross |]. intros x Hx.
      apply Forall_inv in Hx. eapply klt_keq_r; [| exact Hx]. by apply keq_sym.
    + eapply Forall_impl; [exact Habove |]. intros x Hx.
      eapply klt_keq_l; [| exact Hx]. by apply keq_sym.
  - destruct Hpost as (Hi & Hlo & Hhi).
    rewrite length_fmap in Hi.
    rewrite <- fmap_take, Forall_fmap in Hlo.
    rewrite <- fmap_drop, Forall_fmap in Hhi.
    exists (take i (slots node)), (drop i (slots node)). simpl.
    split_and!; [rewrite length_take; lia | done | done | by rewrite take_drop].
Qed.

(** *** Lists around a focus *)

Lemma focus_bounds (cs1 cs2 : list PyBTreeNode) (l1 l2 M : list slot) key :
  sorted (zl ino cs1 l1 ++ M ++ zr ino l2 cs2) ->
  length cs1 = length l1 -> length cs2 = length l2 ->
  Forall (fun x => klt x.1 key) l1 -> Forall (fun x => klt key x.1) l2 ->
  Forall (fun x => klt x.1 key) (zl ino cs1 l1) /\
  Forall (fun x => klt key x.1) (zr ino l2 cs2).
Proof.
  intros Hs H1 H2 Hlo Hhi.
  apply sorted_app in Hs as (HL & Hs & _).
  apply sorted_app in Hs as (_ & HR & _).
  split.
  - destruct (decide (l1 = [])) as [-> | Hne].
    { destruct cs1; [constructor | done]. }
    destruct (exists_last Hne) as (l1' & s & ->).
    destruct cs1 as [| c0 cs1'] using rev_ind.
    { rewrite length_app in H1. simpl in H1. lia. }
    clear IHcs1'. rewrite !length_app in H1. simpl in H1.
    rewrite zl_snoc in HL |- * by lia.
    rewrite app_assoc in HL |- *.
    apply sorted_snoc_below; [done |].
    apply Forall_app in Hlo as [_ Hlo]. by apply Forall_inv in Hlo.
  - destruct l2 as [| s l2]; [constructor |].
    destruct cs2 as [| c cs2]; [done |]. simpl in HR |- *.
    apply sorted_cons_above; [done |]. by apply Forall_inv in Hhi.
Qed.

Lemma focus_lookup L M R key :
  Forall (fun x => klt x.1 key) L -> Forall (fun x => klt key x.1) R ->
  list_lookup key (L ++ M ++ R) = list_lookup key M.
Proof. intros HL HR. by rewrite list_lookup_app_l, list_lookup_app_r. Qed.

Lemma focus_mem L M R key :
  Forall (fun x => klt x.1 key) L -> Forall (fun x => klt key x.1) R ->
  list_mem key (L ++ M ++ R) = list_mem key M.
Proof. intros HL HR. by rewrite list_mem_app_l, list_mem_app_r. Qed.

Lemma focus_insert L M R key value :
  Forall (fun x => klt x.1 key) L -> Forall (fun x => klt key x.1) R ->
  list_insert key value (L ++ M ++ R) = L ++ list_insert key value M ++ R.
Proof. intros HL HR. by rewrite list_insert_app_l, list_insert_app_r. Qed.

Lemma focus_delete L M R key :
  Forall (fun x => klt x.1 key) L -> Forall (fun x => klt key x.1) R ->
  list_delete key (L ++ M ++ R) = L ++ list_delete key M ++ R.
Proof. intros HL HR. by rewrite list_delete_app_l, list_delete_app_r. Qed.

Lemma list_insert_above key value l :
  Forall (fun x => klt key x.1) l -> list_insert key value l = (key, value) :: l.
Proof.
  intros Hl. rewrite <- (app_nil_l l) at 1. by rewrite list_insert_app_r.
Qed.

Lemma list_insert_head key value s l :
  keq key s.1 -> list_insert key value (s :: l) = (s.1, value) :: l.
Proof. unfold keq. intros Heq. simpl. by rewrite Heq. Qed.

Lemma list_lookup_head key s l :
  keq key s.1 -> list_lookup key (s :: l) = Some s.2.
Proof. unfold keq. intros Heq. simpl. by rewrite Heq. Qed.

Lemma list_delete_head key s l :
  keq key s.1 -> list_delete key (s :: l) = l.
Proof. unfold keq. intros Heq. simpl. by rewrite Heq. Qed.

Lemma list_mem_head key s l : keq key s.1 -> list_mem key (s :: l) = true.
Proof.
  intros Heq. unfold list_mem. rewrite list_lookup_head by done.
  by apply bool_decide_eq_true_2.
Qed.

Lemma list_insert_cons_below key value s l :
  klt s.1 key -> list_insert key value (s :: l) = s :: list_insert key value l.
Proof. intros Hs. apply (list_insert_app_l key value [s] l). by constructor. Qed.

Lemma list_lookup_cons_below key s l :
  klt s.1 key -> list_lookup key (s :: l) = list_lookup key l.
Proof. intros Hs. apply (list_lookup_app_l key [s] l). by constructor. Qed.

Lemma list_mem_cons_below key s l :
  klt s.1 key -> list_mem key (s :: l) = list_mem key l.
Proof. intros Hs. apply (list_mem_app_l key [s] l). by constructor. Qed.

Lemma list_delete_cons_below key s l :
  klt s.1 key -> list_delete key (s :: l) = s :: list_delete key l.
Proof. intros Hs. apply (list_delete_app_l key [s] l). by constructor. Qed.

Lemma list_mem_above key l :
  Forall (fun x => klt key x.1) l -> list_mem key l = false.
Proof.
  intros Hl. unfold list_mem. rewrite list_lookup_above by done.
  apply bool_decide_eq_false_2. by intros [? ?].
Qed.

End search_slots.

(** ** insert_non_full *)

Section insert.
Context {H : Host} {Htot : cmp_total}.
#[local] Abbreviation ino := collect_items_fast.

#[local] Ltac post4 := split; [| split; [| split]].

Lemma n_keys_nonneg (node : PyBTreeNode) : 0 <= n_keys node.
Proof. unfold n_keys. lia. Qed.

Lemma of_nat_length_ltb (l : list slot) : (Z.of_nat (length l) <? 0) = false.
Proof. apply Z.ltb_ge. lia. Qed.

Lemma insert_non_full_spec t key value :
  2 <= t ->
  forall (h fuel : nat) node,
    (h < fuel)%nat -> shape t h node -> n_keys node < 2 * t - 1 ->
    sorted (ino node) ->
    exists r node',
      insert_non_full fuel node key value = Some (Return r, node') /\
      shape t h node' /\
      ino node' = list_insert key value (ino node) /\
      r = (if list_mem key (ino node) then 1 else 0) /\
      n_keys node <= n_keys node' <= n_keys node + 1.
Proof.
  intros Ht. induction h as [| h IH]; intros fuel node Hfuel Hshape Hroom Hsorted.
  - (* leaf *)
    destruct fuel as [| fuel]; [lia |].
    destruct node as [leaf ss cs ot].
    apply shape_leaf in Hshape as (Ho & Hn & Hleaf & Hcs). simpl in *. subst.
    cbn [insert_non_full].
    pose proof (node_search_key_slots (mkNode true ss [] t) key Hsorted) as Hsr.
    destruct (node_search_key _ key) as [z found].
    destruct Hsr as (l1 & l2 & Hz & Hlo & Hhi & Hcase). simpl in Hz, Hcase. subst z.
    destruct found; [destruct Hcase as (s & -> & Heq) | subst ss]; simpl in *.
    + rewrite of_nat_length_ltb, Nat2Z.id. unfold set_value, set_slots. simpl.
      rewrite alter_at_app by done.
      eexists _, _. split; [reflexivity |]. post4.
      * apply shape_leaf. unfold n_keys in *. simpl in *.
        rewrite !length_app in *. simpl in *. done.
      * simpl. rewrite list_insert_app_l by done. by rewrite list_insert_head.
      * rewrite list_mem_app_l by done. by rewrite list_mem_head.
      * unfold n_keys in *. simpl in *. rewrite ?length_app in *. simpl in *. lia.
    + rewrite of_nat_length_ltb, Nat2Z.id. unfold set_slots. simpl.
      rewrite insert_at_app by done.
      eexists _, _. split; [reflexivity |]. post4.
      * apply shape_leaf. unfold n_keys in *. simpl in *.
        rewrite !length_app in *. simpl in *. split_and!; try done. lia.
      * simpl. rewrite list_insert_app_l by done. by rewrite list_insert_above.
      * rewrite list_mem_app_l by done. by rewrite list_mem_above.
      * unfold n_keys in *. simpl in *. rewrite ?length_app in *. simpl in *. lia.
  - (* internal node *)
    destruct fuel as [| fuel]; [lia |].
    destruct node as [leaf ss cs ot].
    apply shape_internal in Hshape as (Ho & Hn & Hleaf & Hlen & Hall). simpl in *. subst.
    destruct (zipio_sorted_inv cs ss Hlen Hsorted) as (Hss_sorted & Hcs_sorted & _).
    cbn [insert_non_full].
    pose proof (node_search_key_slots (mkNode false ss cs t) key Hss_sorted) as Hsr.
    destruct (node_search_key _ key) as [z found].
    destruct Hsr as (l1 & l2 & Hz & Hlo & Hhi & Hcase). simpl in Hz, Hcase. subst z.
    destruct found; [destruct Hcase as (s & -> & Heq) | subst ss]; simpl in *.
    + (* the key is in this node *)
      rewrite of_nat_length_ltb, Nat2Z.id. unfold set_value, set_slots. simpl.
      rewrite alter_at_app by done.
      destruct (split_at_length cs (S (length l1))) as (csA & csB & -> & HcsA).
      { rewrite Hlen, length_app. simpl. lia. }
      rewrite zipio_app in Hsorted |- * by done.
      apply sorted_app in Hsorted as (_ & _ & Hcross).
      assert (Forall (fun x => klt x.1 key) (zipio ino csA l1)) as Hbelow.
      { eapply Forall_impl; [exact Hcross |]. intros x Hx.
        apply Forall_inv in Hx. eapply klt_keq_r; [| exact Hx]. by apply keq_sym. }
      eexists _, _. split; [reflexivity |]. post4.
      * apply shape_internal. unfold n_keys in *. simpl in *.
        rewrite !length_app in *. simpl in *. done.
      * rewrite collect_items_fast_eq. simpl. rewrite zipio_app by done.
        rewrite list_insert_app_l by done. by rewrite list_insert_head.
      * rewrite list_mem_app_l by done. by rewrite list_mem_head.
      * unfold n_keys in *. simpl in *. rewrite ?length_app in *. simpl in *. lia.
    + (* descend into children[i] *)
      rewrite of_nat_length_ltb, Nat2Z.id.
      rewrite length_app in Hlen.
      destruct (lookup_lt_is_Some_2 cs (length l1)) as [c Hc]; [lia |].
      destruct (children_focus cs (l1 ++ l2) (length l1) c) as
        (cs1 & cs2 & l1' & l2' & -> & Hl & Hcs1 & Hl1' & Hcs2);
        [by rewrite length_app | done |].
      apply app_inj_1 in Hl as [<- <-]; [| done].
      rewrite zipio_focus in Hsorted |- * by done.
      destruct (focus_bounds cs1 cs2 l1 l2 (ino c) key) as [HL HR]; try done.
      apply Forall_shape_app in Hall as (Hall1 & [Hcmin Hcshape] & Hall2).
      assert (sorted (ino c)) as Hc_sorted.
      { apply sorted_app in Hsorted as (_ & Hs & _).
        by apply sorted_app in Hs as (Hs & _). }
      rewrite lookup_at_app by done. simpl.
      destruct (Z.eqb_spec (n_keys c) (2 * t - 1)) as [Hfull | Hnotfull].
      * (* the child is full: split it first *)
        destruct (split_child_spec t h (mkNode false (l1 ++ l2) (cs1 ++ c :: cs2) t)
                    (length l1) c cs1 cs2 l1 l2) as
          (cl & m & cr & Hsplit & Hm & Hcl & Hcr & Hncl & Hncr & Hino); try done.
        rewrite Hsplit. simpl.
        rewrite (lookup_at_app (length l1) m l1 l2) by done. simpl.
        rewrite Hino in Hsorted, Hc_sorted |- *.
        apply sorted_app in Hc_sorted as (Hcl_sorted & Hcr_sorted & Hcl_below).
        apply sorted_cons in Hcr_sorted as [Hcr_above Hcr_sorted].
        assert (Forall (fun x => klt x.1 m.1) (ino cl)) as Hcl_m.
        { eapply Forall_impl; [exact Hcl_below |]. intros x Hx. by apply Forall_inv in Hx. }
        assert (Z.of_nat (length (l1 ++ m :: l2)) <= 2 * t - 1) as Hn'.
        { unfold n_keys in Hroom. simpl in Hroom.
          rewrite length_app in Hroom |- *. simpl. lia. }
        destruct (cmp_range key m.1) as [Hcmp | [Hcmp | Hcmp]]; rewrite Hcmp; simpl.
        -- (* key below the median: children[i] *)
           destruct (IH fuel cl) as (r & cl' & Hrec & Hcl' & Hino' & Hr & Hncl');
             [lia | done | lia | done |].
           rewrite lookup_at_app by done. simpl. rewrite Hrec. simpl.
           unfold set_children. simpl. rewrite set_at_app by done.
           eexists _, _. split; [reflexivity |].
           assert (Forall (fun x => klt key x.1) (m :: ino cr ++ zr ino l2 cs2)) as Habove.
           { constructor; [done |]. apply Forall_app. split; [| done].
             by apply (Forall_klt_trans_l _ _ m.1). }
           post4.
           ++ apply shape_internal. unfold n_keys in *. simpl in *. split_and!; try done.
              ** rewrite !length_app. simpl. lia.
              ** rewrite Forall_app, !Forall_cons. split_and!; try done; lia.
           ++ rewrite collect_items_fast_eq. simpl.
              rewrite (zipio_focus ino cs1 cl' (cr :: cs2) l1 (m :: l2))
                by (simpl; lia).
              simpl. rewrite Hino'.
              rewrite <- !app_assoc. simpl.
              rewrite (focus_insert (zl ino cs1 l1) (ino cl)) by done. done.
           ++ rewrite Hr. rewrite <- !app_assoc. simpl.
              by rewrite (focus_mem (zl ino cs1 l1) (ino cl)).
           ++ unfold n_keys in *. simpl in *. rewrite ?length_app in *. simpl in *. lia.
        -- (* key equal to the median *)
           unfold set_value, set_slots. simpl. rewrite alter_at_app by done.
           eexists _, _. split; [reflexivity |].
           assert (Forall (fun x => klt x.1 key) (ino cl)) as Hcl_key.
           { eapply Forall_impl; [exact Hcl_m |]. intros x Hx.
             eapply klt_keq_r; [| exact Hx]. by apply keq_sym. }
           post4.
           ++ apply shape_internal. unfold n_keys in *. simpl in *. split_and!; try done.
              ** rewrite !length_app in *. simpl in *. lia.
              ** rewrite !length_app. simpl. lia.
              ** rewrite Forall_app, !Forall_cons. split_and!; try done; lia.
           ++ rewrite collect_items_fast_eq. simpl.
              rewrite (zipio_focus ino cs1 cl (cr :: cs2) l1 ((m.1, value) :: l2))
                by (simpl; lia).
              simpl. rewrite <- !app_assoc. simpl.
              rewrite !list_insert_app_l by done.
              by rewrite list_insert_head.
           ++ rewrite <- !app_assoc. simpl.
              rewrite !list_mem_app_l by done. by rewrite list_mem_head.
           ++ unfold n_keys in *. simpl in *. rewrite ?length_app in *. simpl in *. lia.
        -- (* key above the median: children[i+1] *)
           apply cmp_gt_iff in Hcmp.
           destruct (IH fuel cr) as (r & cr' & Hrec & Hcr' & Hino' & Hr & Hncr');
             [lia | done | lia | done |].
           rewrite (cons_middle cl cs1 (cr :: cs2)), app_assoc.
           rewrite lookup_at_app by (rewrite length_app; simpl; lia).
           simpl. rewrite Hrec. simpl.
           unfold set_children. simpl.
           rewrite set_at_app by (rewrite length_app; simpl; lia).
           eexists _, _. split; [reflexivity |].
           assert (Forall (fun x => klt x.1 key) (ino cl)) as Hcl_key
             by (by apply (Forall_klt_trans_r _ m.1)).
           post4.
           ++ apply shape_internal. unfold n_keys in *. simpl in *. split_and!; try done.
              ** rewrite !length_app. simpl. lia.
              ** rewrite !Forall_app, !Forall_cons. split_and!; try done; try lia.
           ++ rewrite collect_items_fast_eq. simpl.
              rewrite (cons_middle m l1 l2), app_assoc.
              rewrite (zipio_focus ino (cs1 ++ [cl]) cr' cs2 (l1 ++ [m]) l2)
                by (rewrite ?length_app; simpl; lia).
              rewrite zl_snoc by done. rewrite Hino'.
              rewrite <- !app_assoc. simpl.
              rewrite !list_insert_app_l by done.
              rewrite list_insert_cons_below by done.
              by rewrite list_insert_app_r.
           ++ rewrite Hr. rewrite <- !app_assoc. simpl.
              rewrite !list_mem_app_l by done.
              rewrite list_mem_cons_below by done.
              by rewrite list_mem_app_r.
           ++ unfold n_keys in *. simpl in *. rewrite ?length_app in *. simpl in *. lia.
      * (* the child has room *)
        destruct (IH fuel c) as (r & c' & Hrec & Hc' & Hino' & Hr & Hnc');
          [lia | done | | done |].
        { pose proof (shape_n_keys _ _ _ Hcshape). lia. }
        rewrite Hrec. simpl.
        unfold set_children. simpl. rewrite set_at_app by done.
        eexists _, _. split; [reflexivity |]. post4.
        -- apply shape_internal. unfold n_keys in *. simpl in *. split_and!; try done.
           ++ rewrite !length_app. simpl. lia.
           ++ rewrite Forall_app, !Forall_cons. split_and!; try done.
              lia.
        -- rewrite collect_items_fast_eq. simpl.
           rewrite zipio_focus by done. rewrite Hino'.
           by rewrite focus_insert.
        -- by rewrite Hr, focus_mem.
        -- unfold n_keys in *. simpl in *. rewrite ?length_app in *. simpl in *. lia.
Qed.

End insert.

(** ** Sorted association lists: algebra of insertion and deletion *)

Section assoc_facts.
Context {H : Host} {Htot : cmp_total}.

Lemma list_insert_Forall (Q : PyObject -> Prop) key value l :
  Q key -> Forall (fun x => Q x.1) l ->
  Forall (fun x => Q x.1) (list_insert key value l).
Proof.
  intros Hk. induction 1 as [| s l Hs Hl IH]; simpl.
  - by repeat constructor.
  - repeat case_match; repeat constructor; done.
Qed.

Lemma list_insert_sorted key value l :
  sorted l -> sorted (list_insert key value l).
Proof.
  induction l as [| s l IH]; intros Hs; simpl.
  - apply sorted_cons. split; [constructor | apply sorted_nil].
  - destruct (cmp_range key s.1) as [Hc | [Hc | Hc]]; rewrite Hc; simpl.
    + apply sorted_cons. split; [| done]. by apply sorted_cons_above.
    + apply sorted_cons in Hs as [Habove Hs]. apply sorted_cons. done.
    + apply sorted_cons in Hs as [Habove Hs]. apply sorted_cons. split; [| auto].
      apply list_insert_Forall; [by apply cmp_gt_iff | done].
Qed.

Lemma list_mem_nil key : list_mem key [] = false.
Proof. apply list_mem_above. constructor. Qed.

Lemma list_mem_cons key s l :
  list_mem key (s :: l) = (compare_keys key s.1 =? 0) || list_mem key l.
Proof.
  unfold list_mem. simpl. by destruct (compare_keys key s.1 =? 0).
Qed.

Lemma list_insert_length key value l :
  sorted l ->
  length (list_insert key value l) =
  if list_mem key l then length l else S (length l).
Proof.
  induction l as [| s l IH]; intros Hs.
  - by rewrite list_mem_nil.
  - rewrite list_mem_cons. simpl.
    destruct (Z.eqb_spec (compare_keys key s.1) 0) as [Heq | Heq]; simpl; [done |].
    destruct (Z.ltb_spec (compare_keys key s.1) 0) as [Hlt | Hlt]; simpl.
    + assert (klt key s.1) as Hk.
      { destruct (cmp_range key s.1) as [Hc | [Hc | Hc]]; [done | lia | lia]. }
      rewrite list_mem_above; [done |].
      apply sorted_cons in Hs as [Habove _].
      by apply (Forall_klt_trans_l _ _ s.1).
    + apply sorted_cons in Hs as [_ Hs]. rewrite IH by done. by destruct (list_mem key l).
Qed.

Lemma list_lookup_insert_eq key value l :
  list_lookup key (list_insert key value l) = Some value.
Proof.
  induction l as [| s l IH]; simpl.
  - by rewrite compare_keys_refl.
  - destruct (compare_keys key s.1 =? 0) eqn:Heq; simpl.
    + by rewrite Heq.
    + destruct (compare_keys key s.1 <? 0); simpl.
      * by rewrite compare_keys_refl.
      * by rewrite Heq.
Qed.

Lemma list_lookup_insert_ne key key' value l :
  ~ keq key' key ->
  list_lookup key' (list_insert key value l) = list_lookup key' l.
Proof.
  intros Hne. induction l as [| s l IH]; simpl.
  - destruct (Z.eqb_spec (compare_keys key' key) 0); [done | done].
  - destruct (Z.eqb_spec (compare_keys key s.1) 0) as [Heq | Heq]; simpl.
    + destruct (Z.eqb_spec (compare_keys key' s.1) 0) as [Heq' | Heq']; [| done].
      exfalso. apply Hne. eapply keq_trans; [exact Heq' |]. by apply keq_sym.
    + destruct (compare_keys key s.1 <? 0); simpl.
      * destruct (Z.eqb_spec (compare_keys key' key) 0); [done | done].
      * by rewrite IH.
Qed.

Lemma list_delete_Forall (Q : slot -> Prop) key l :
  Forall Q l -> Forall Q (list_delete key l).
Proof.
  induction 1 as [| s l Hs Hl IH]; simpl; [constructor |].
  case_match; [done | by constructor].
Qed.

Lemma list_delete_sorted key l : sorted l -> sorted (list_delete key l).
Proof.
  induction l as [| s l IH]; intros Hs; simpl; [done |].
  apply sorted_cons in Hs as [Habove Hs].
  case_match; [done |]. apply sorted_cons. split; [| auto].
  by apply list_delete_Forall.
Qed.

Lemma list_delete_length key l :
  Z.of_nat (length (list_delete key l)) =
  if list_mem key l then Z.of_nat (length l) - 1 else Z.of_nat (length l).
Proof.
  induction l as [| s l IH].
  - by rewrite list_mem_nil.
  - rewrite list_mem_cons. simpl.
    destruct (compare_keys key s.1 =? 0); simpl; [lia |].
    destruct (list_mem key l); lia.
Qed.

Lemma list_lookup_delete_eq key l :
  sorted l -> list_lookup key (list_delete key l) = None.
Proof.
  induction l as [| s l IH]; intros Hs; simpl; [done |].
  apply sorted_cons in Hs as [Habove Hs].
  destruct (Z.eqb_spec (compare_keys key s.1) 0) as [Heq | Heq]; simpl.
  - apply list_lookup_above.
    eapply Forall_impl; [exact Habove |]. intros x Hx.
    eapply klt_keq_l; [| exact Hx]. by apply keq_sym.
  - destruct (Z.eqb_spec (compare_keys key s.1) 0); [done | auto].
Qed.

Lemma list_lookup_delete_ne key key' l :
  ~ keq key' key ->
  list_lookup key' (list_delete key l) = list_lookup key' l.
Proof.
  intros Hne. induction l as [| s l IH]; simpl; [done |].
  destruct (Z.eqb_spec (compare_keys key s.1) 0) as [Heq | Heq]; simpl.
  - destruct (Z.eqb_spec (compare_keys key' s.1) 0) as [Heq' | Heq']; [| done].
    exfalso. apply Hne. eapply keq_trans; [exact Heq' |]. by apply keq_sym.
  - by rewrite IH.
Qed.

Lemma list_delete_missing key l : list_mem key l = false -> list_delete key l = l.
Proof.
  induction l as [| s l IH]; [done |].
  rewrite list_mem_cons. simpl.
  destruct (compare_keys key s.1 =? 0); simpl; [done |].
  intros Hm. by rewrite IH.
Qed.

Lemma list_mem_lookup key l : list_mem key l = true <-> is_Some (list_lookup key l).
Proof. unfold list_mem. apply bool_decide_eq_true. Qed.

End assoc_facts.

(** ** Lookup, and insertion into a tree *)

Section tree_insert.
Context {H : Host} {Htot : cmp_total}.
#[local] Abbreviation ino := collect_items_fast.

Lemma node_depth_eq node :
  node_depth node = S (foldr (fun c d => Nat.max (node_depth c) d) O (children node)).
Proof. by destruct node. Qed.

Lemma node_depth_shape t h node : shape t h node -> node_depth node = S h.
Proof.
  revert node. induction h as [| h IH]; intros node Hshape; rewrite node_depth_eq.
  - apply shape_leaf in Hshape as (_ & _ & _ & ->). done.
  - apply shape_internal in Hshape as (_ & _ & _ & Hlen & Hall). f_equal.
    destruct (children node) as [| c cs]; [done |]. clear Hlen.
    apply Forall_cons in Hall as [[_ Hc] Hall]. simpl. rewrite (IH c Hc).
    assert (foldr (fun c d => Nat.max (node_depth c) d) O cs <= S h)%nat; [| lia].
    induction Hall as [| c' cs [_ Hc'] Hall IHall]; simpl; [lia |].
    rewrite (IH c' Hc'). lia.
Qed.

Lemma node_search_eq node key :
  node_search node key =
  let '(i, found) := node_search_key node key in
  if i <? 0 then Raise ComparisonError
  else if found then
    match slots node !! Z.to_nat i with
    | Some s => Return (Some s.2)
    | None => Return None
    end
  else if is_leaf node then Return None
  else match children node !! Z.to_nat i with
       | Some c => node_search c key
       | None => Return None
       end.
Proof.
  destruct node as [leaf ss cs t]. simpl.
  destruct (node_search_key _ key) as [i found].
  by rewrite with_nth_lookup.
Qed.

Lemma node_contains_eq node key :
  node_contains node key =
  let '(i, found) := node_search_key node key in
  if i <? 0 then -1
  else if found then 1
  else if is_leaf node then 0
  else match children node !! Z.to_nat i with
       | Some c => node_contains c key
       | None => 0
       end.
Proof.
  destruct node as [leaf ss cs t]. simpl.
  destruct (node_search_key _ key) as [i found].
  by rewrite with_nth_lookup.
Qed.

Lemma node_search_spec t h node key :
  shape t h node -> sorted (ino node) ->
  node_search node key = Return (list_lookup key (ino node)) /\
  node_contains node key = (if list_mem key (ino node) then 1 else 0).
Proof.
  revert node. induction h as [| h IH]; intros node Hshape Hsorted.
  - apply shape_leaf in Hshape as (_ & _ & Hleaf & _).
    rewrite node_search_eq, node_contains_eq, collect_items_fast_eq in *.
    rewrite Hleaf in *.
    pose proof (node_search_key_slots node key Hsorted) as Hsr.
    destruct (node_search_key _ key) as [z found].
    destruct Hsr as (l1 & l2 & Hz & Hlo & Hhi & Hcase). simpl in Hz, Hcase. subst z.
    rewrite of_nat_length_ltb, Nat2Z.id.
    destruct found; [destruct Hcase as (s & -> & Heq) | rewrite Hcase].
    + rewrite lookup_at_app by done.
      rewrite list_lookup_app_l, list_mem_app_l by done.
      by rewrite list_lookup_head, list_mem_head.
    + rewrite list_lookup_app_l, list_mem_app_l by done.
      by rewrite list_lookup_above, list_mem_above.
  - apply shape_internal in Hshape as (_ & _ & Hleaf & Hlen & Hall).
    rewrite node_search_eq, node_contains_eq, collect_items_fast_eq in *.
    rewrite Hleaf in *.
    destruct (zipio_sorted_inv _ _ Hlen Hsorted) as (Hss_sorted & Hcs_sorted & _).
    pose proof (node_search_key_slots node key Hss_sorted) as Hsr.
    destruct (node_search_key _ key) as [z found].
    destruct Hsr as (l1 & l2 & Hz & Hlo & Hhi & Hcase). simpl in Hz, Hcase. subst z.
    rewrite of_nat_length_ltb, Nat2Z.id.
    destruct found; [destruct Hcase as (s & Hss & Heq) | rename Hcase into Hss];
      rewrite Hss in *.
    + rewrite lookup_at_app by done.
      destruct (split_at_length (children node) (S (length l1))) as (csA & csB & Hcs & HcsA).
      { rewrite Hlen, length_app. simpl. lia. }
      rewrite Hcs in *.
      rewrite zipio_app in Hsorted |- * by done.
      apply sorted_app in Hsorted as (_ & _ & Hcross).
      assert (Forall (fun x => klt x.1 key) (zipio ino csA l1)) as Hbelow.
      { eapply Forall_impl; [exact Hcross |]. intros x Hx.
        apply Forall_inv in Hx. eapply klt_keq_r; [| exact Hx]. by apply keq_sym. }
      rewrite list_lookup_app_l, list_mem_app_l by done.
      by rewrite list_lookup_head, list_mem_head.
    + rewrite length_app in Hlen.
      destruct (lookup_lt_is_Some_2 (children node) (length l1)) as [c Hc]; [lia |].
      rewrite Hc.
      destruct (children_focus (children node) (l1 ++ l2) (length l1) c) as
        (cs1 & cs2 & l1' & l2' & Hcs & Hl & Hcs1 & Hl1' & Hcs2);
        [by rewrite length_app | done |].
      apply app_inj_1 in Hl as [<- <-]; [| done].
      rewrite Hcs in *.
      rewrite zipio_focus in Hsorted |- * by done.
      destruct (focus_bounds cs1 cs2 l1 l2 (ino c) key) as [HL HR]; try done.
      apply Forall_shape_app in Hall as (_ & [_ Hcshape] & _).
      assert (sorted (ino c)) as Hc_sorted.
      { apply sorted_app in Hsorted as (_ & Hs & _).
        by apply sorted_app in Hs as (Hs & _). }
      destruct (IH c Hcshape Hc_sorted) as [-> ->].
      by rewrite focus_lookup, focus_mem.
Qed.

End tree_insert.

Section tree_insert_top.
Context {H : Host} {Htot : cmp_total}.
#[local] Abbreviation ino := collect_items_fast.

Lemma list_insert_present key value l :
  sorted l -> list_mem key l = true ->
  exists l1 s l2,
    l = l1 ++ s :: l2 /\ keq key s.1 /\
    list_insert key value l = l1 ++ (s.1, value) :: l2.
Proof.
  induction l as [| s l IH]; intros Hs; [by rewrite list_mem_nil |].
  apply sorted_cons in Hs as [Habove Hs].
  rewrite list_mem_cons. simpl.
  destruct (Z.eqb_spec (compare_keys key s.1) 0) as [Heq | Hne]; simpl.
  - intros _. by exists [], s, l.
  - intros Hm. destruct (IH Hs Hm) as (l1 & s' & l2 & -> & Heq & Hins).
    destruct (Z.ltb_spec (compare_keys key s.1) 0) as [Hlt | Hge].
    + assert (klt key s.1) as Hk.
      { destruct (cmp_range key s.1) as [Hc | [Hc | Hc]]; [done | lia | lia]. }
      rewrite list_mem_above in Hm; [done |].
      by apply (Forall_klt_trans_l _ _ s.1).
    + exists (s :: l1), s', l2. split_and!; try done. simpl. by rewrite Hins.
Qed.

Lemma list_insert_absent key value l :
  sorted l -> list_mem key l = false ->
  exists l1 l2,
    l = l1 ++ l2 /\ list_insert key value l = l1 ++ (key, value) :: l2.
Proof.
  induction l as [| s l IH]; intros Hs.
  - intros _. by exists [], [].
  - apply sorted_cons in Hs as [Habove Hs].
    rewrite list_mem_cons. simpl.
    destruct (Z.eqb_spec (compare_keys key s.1) 0) as [Heq | Hne]; simpl; [done |].
    intros Hm. destruct (Z.ltb_spec (compare_keys key s.1) 0) as [Hlt | Hge].
    + by exists [], (s :: l).
    + destruct (IH Hs Hm) as (l1 & l2 & -> & Hins).
      exists (s :: l1), l2. split; [done |]. simpl. by rewrite Hins.
Qed.

Lemma wf_tree_sorted btree : wf_tree btree -> sorted (items btree).
Proof.
  intros (r & h & Hroot & Ht & Hshape & Hord & _). unfold items. rewrite Hroot.
  by eapply ordered_sorted.
Qed.

Lemma wf_tree_size btree : wf_tree btree -> size btree = Z.of_nat (length (items btree)).
Proof.
  intros (r & h & Hroot & Ht & Hshape & Hord & Hleaf & Hsize). unfold items.
  by rewrite Hroot.
Qed.

(** [PyBTree_Insert] on a well-formed tree. *)
Lemma PyBTree_Insert_spec btree key value :
  wf_tree btree ->
  exists btree',
    PyBTree_Insert btree key value = Some (Return 0, btree') /\
    wf_tree btree' /\
    tree_order btree' = tree_order btree /\
    items btree' = list_insert key value (items btree) /\
    size btree' = (if list_mem key (items btree) then size btree else size btree + 1).
Proof.
  intros (r & h & Hroot & Ht & Hshape & Hord & Hleaf & Hsize).
  set (t := tree_order btree) in *.
  pose proof (ordered_sorted _ _ _ Hshape Hord) as Hsorted.
  unfold PyBTree_Insert, items. rewrite Hroot. simpl. fold t.
  assert (forall h1 root1,
    shape t h1 root1 -> n_keys root1 < 2 * t - 1 -> ino root1 = ino r ->
    (n_keys root1 = 0 -> is_leaf root1 = true) ->
    exists btree',
      ('(result, root2) ← insert_non_full (S (node_depth root1)) root1 key value;
       match result with
       | Raise e => Some (Raise e, mkBTree (Some root2) (size btree) t)
       | Return r0 =>
           Some (Return 0,
                 mkBTree (Some root2)
                         (if r0 =? 0 then size btree + 1 else size btree) t)
       end) = Some (Return 0, btree') /\
      wf_tree btree' /\ tree_order btree' = t /\
      match root btree' with Some r' => ino r' | None => [] end =
        list_insert key value (ino r) /\
      size btree' = (if list_mem key (ino r) then size btree else size btree + 1))
    as Hmain.
  { intros h1 root1 Hshape1 Hroom1 Hino1 Hleaf1.
    destruct (insert_non_full_spec t key value Ht h1 (S (node_depth root1)) root1)
      as (r0 & root2 & Hins & Hshape2 & Hino2 & Hr0 & Hn2); try done.
    { rewrite (node_depth_shape _ _ _ Hshape1). lia. }
    { by rewrite Hino1. }
    rewrite Hins. simpl. eexists. split; [reflexivity |].
    rewrite Hino1 in Hino2, Hr0.
    assert (sorted (ino root2)) as Hsorted2
      by (rewrite Hino2; by apply list_insert_sorted).
    split_and!; simpl.
    - exists root2, h1. simpl. split_and!; try done.
      + by eapply sorted_ordered.
      + intros Hz. rewrite (shape_is_leaf _ _ _ Hshape2).
        rewrite <- (shape_is_leaf _ _ _ Hshape1). apply Hleaf1.
        pose proof (n_keys_nonneg root1). lia.
      + rewrite Hino2, list_insert_length by done. rewrite Hr0.
        destruct (list_mem key (ino r)); simpl; lia.
    - done.
    - done.
    - rewrite Hr0. by destruct (list_mem key (ino r)). }
  destruct (Z.eqb_spec (n_keys r) (2 * t - 1)) as [Hfull | Hnotfull].
  - destruct (split_child_spec t h (mkNode false [] [r] t) 0 r [] [] [] [])
      as (cl & m & cr & Hsplit & Hm & Hcl & Hcr & Hncl & Hncr & Hino); try done.
    rewrite Hsplit. simpl.
    apply (Hmain (S h)).
    + apply shape_internal. unfold n_keys in *. simpl. split_and!; try done; try lia.
      apply Forall_cons_2; [split; [lia | done] |].
      apply Forall_cons_2; [split; [lia | done] | constructor].
    + unfold n_keys. simpl. lia.
    + by rewrite collect_items_fast_eq.
    + unfold n_keys. simpl. lia.
  - simpl. apply (Hmain h); try done.
    + pose proof (shape_n_keys _ _ _ Hshape). lia.
Qed.

End tree_insert_top.

(** ** The balancing primitives of deletion *)

Section rebalance.
Context {H : Host}.
#[local] Abbreviation ino := collect_items_fast.
#[local] Ltac post3 := split; [| split].
#[local] Ltac post6 := split; [| split; [| split; [| split; [| split]]]].

Lemma rightmost_slot_eq node :
  rightmost_slot node =
  if is_leaf node then
    (if decide (slots node = []) then None
     else slots node !! (length (slots node) - 1)%nat)
  else match children node !! length (slots node) with
       | Some c => rightmost_slot c
       | None => None
       end.
Proof. destruct node as [leaf ss cs t]. simpl. by rewrite with_nth_lookup. Qed.

Lemma leftmost_slot_eq node :
  leftmost_slot node =
  if is_leaf node then slots node !! 0%nat
  else match children node !! 0%nat with
       | Some c => leftmost_slot c
       | None => None
       end.
Proof. destruct node as [leaf ss cs t]. simpl. by rewrite with_nth_lookup. Qed.

Lemma rightmost_slot_spec t h node :
  2 <= t -> shape t h node -> 1 <= n_keys node ->
  exists X s, rightmost_slot node = Some s /\ ino node = X ++ [s].
Proof.
  intros Ht. revert node. induction h as [| h IH]; intros node Hshape Hn.
  - apply shape_leaf in Hshape as (_ & _ & Hleaf & _).
    rewrite rightmost_slot_eq, collect_items_fast_eq, Hleaf.
    unfold n_keys in Hn.
    destruct (slots node) as [| s0 ss] using rev_ind; [simpl in Hn; lia |].
    clear IHss. exists ss, s0. split; [| done].
    rewrite decide_False by (by destruct ss).
    rewrite length_app. simpl. apply lookup_at_app. lia.
  - apply shape_internal in Hshape as (_ & _ & Hleaf & Hlen & Hall).
    rewrite rightmost_slot_eq, collect_items_fast_eq, Hleaf.
    destruct (lookup_lt_is_Some_2 (children node) (length (slots node))) as [c Hc];
      [lia |].
    rewrite Hc.
    destruct (children_focus _ (slots node) _ c Hlen Hc) as
      (cs1 & cs2 & ss1 & ss2 & Hcs & Hss & Hcs1 & Hss1 & Hcs2).
    assert (ss2 = []) as ->.
    { apply (f_equal length) in Hss. rewrite length_app in Hss.
      destruct ss2; [done | simpl in Hss; lia]. }
    destruct cs2; [| done].
    assert (length cs1 = length ss1) as Hl12 by lia.
    rewrite Hcs, Hss. rewrite zipio_focus by done.
    rewrite Hcs in Hall.
    apply Forall_shape_app in Hall as (_ & [Hcmin Hcshape] & _).
    destruct (IH c Hcshape) as (X & s & Hr & Hino); [lia |].
    exists (zl ino cs1 ss1 ++ X), s. split; [done |].
    rewrite Hino. simpl. by rewrite app_nil_r, app_assoc.
Qed.

Lemma leftmost_slot_spec t h node :
  2 <= t -> shape t h node -> 1 <= n_keys node ->
  exists s Y, leftmost_slot node = Some s /\ ino node = s :: Y.
Proof.
  intros Ht. revert node. induction h as [| h IH]; intros node Hshape Hn.
  - apply shape_leaf in Hshape as (_ & _ & Hleaf & _).
    rewrite leftmost_slot_eq, collect_items_fast_eq, Hleaf.
    unfold n_keys in Hn.
    destruct (slots node) as [| s0 ss]; [simpl in Hn; lia |].
    by exists s0, ss.
  - apply shape_internal in Hshape as (_ & _ & Hleaf & Hlen & Hall).
    rewrite leftmost_slot_eq, collect_items_fast_eq, Hleaf.
    destruct (children node) as [| c cs]; [done |]. simpl.
    apply Forall_cons in Hall as [[Hcmin Hcshape] _].
    destruct (IH c Hcshape) as (s & Y & Hl & Hino); [lia |].
    rewrite Hl, Hino.
    destruct (slots node) as [| s0 ss]; simpl; eauto.
Qed.

(** Merging [children[idx]] with its right sibling around the separator. *)
Lemma merge_children_spec t h node (idx : nat) c sib sep cs1 cs2 ss1 ss2 :
  order node = t ->
  children node = cs1 ++ c :: sib :: cs2 -> slots node = ss1 ++ sep :: ss2 ->
  length cs1 = idx -> length ss1 = idx ->
  shape t h c -> shape t h sib -> n_keys c = t - 1 -> n_keys sib = t - 1 ->
  exists merged,
    merge_children node idx =
      Some (mkNode (is_leaf node) (ss1 ++ ss2) (cs1 ++ merged :: cs2) (order node)) /\
    shape t h merged /\ n_keys merged = 2 * t - 1 /\
    ino merged = ino c ++ sep :: ino sib.
Proof.
  intros Ho Hcs Hss Hi1 Hi2 Hc Hsib Hnc Hnsib.
  unfold merge_children. rewrite Hcs, Hss, Ho.
  rewrite (lookup_at_app idx c cs1 (sib :: cs2)) by done. simpl.
  rewrite (cons_middle c cs1 (sib :: cs2)), app_assoc.
  rewrite (lookup_at_app (S idx) sib (cs1 ++ [c]) cs2)
    by (rewrite length_app; simpl; lia).
  simpl. rewrite (lookup_at_app idx sep ss1 ss2) by done. simpl.
  rewrite Hnc, Z.eqb_refl. simpl.
  rewrite <- app_assoc. simpl.
  rewrite (set_at_app idx c _ cs1 (sib :: cs2)) by done.
  rewrite remove_at_app by done.
  rewrite (cons_middle _ cs1 (sib :: cs2)), app_assoc.
  rewrite (remove_at_app (S idx) sib) by (rewrite length_app; simpl; lia).
  rewrite <- app_assoc. simpl.
  eexists. split; [reflexivity |].
  unfold n_keys in *. simpl.
  destruct h as [| h].
  - apply shape_leaf in Hc as (Hoc & _ & Hlc & Hcc).
    apply shape_leaf in Hsib as (Hos & _ & Hls & Hcsib).
    rewrite Hlc. post3.
    + apply shape_leaf. unfold n_keys. simpl. rewrite length_app. simpl.
      split_and!; try done; try lia.
    + rewrite length_app. simpl. lia.
    + rewrite (collect_items_fast_eq c), (collect_items_fast_eq sib), Hlc, Hls. done.
  - apply shape_internal in Hc as (Hoc & _ & Hlc & Hlenc & Hallc).
    apply shape_internal in Hsib as (Hos & _ & Hls & Hlens & Halls).
    rewrite Hlc. post3.
    + apply shape_internal. unfold n_keys. simpl. rewrite !length_app. simpl.
      split_and!; try done; try lia. by apply Forall_app.
    + rewrite length_app. simpl. lia.
    + rewrite (collect_items_fast_eq c), (collect_items_fast_eq sib), Hlc, Hls.
      simpl. by apply zipio_app.
Qed.

(** Borrowing through the separator from the left sibling: [X] is what
    moves from the sibling's walk into the child's. *)
Lemma borrow_from_prev_spec t h node (idx : nat) c sib sep cs1 cs2 ss1 ss2 :
  2 <= t ->
  children node = cs1 ++ sib :: c :: cs2 -> slots node = ss1 ++ sep :: ss2 ->
  length cs1 = (idx - 1)%nat -> length ss1 = (idx - 1)%nat -> (0 < idx)%nat ->
  shape t h c -> shape t h sib -> n_keys c < 2 * t - 1 -> 1 <= n_keys sib ->
  exists c' sib' up X,
    borrow_from_prev node idx =
      Some (mkNode (is_leaf node) (ss1 ++ up :: ss2) (cs1 ++ sib' :: c' :: cs2)
                   (order node)) /\
    shape t h c' /\ shape t h sib' /\
    n_keys c' = n_keys c + 1 /\ n_keys sib' = n_keys sib - 1 /\
    ino sib = ino sib' ++ up :: X /\ ino c' = X ++ sep :: ino c.
Proof.
  intros Ht Hcs Hss Hi1 Hi2 Hidx Hc Hsib Hnc Hnsib.
  unfold borrow_from_prev. rewrite Hcs, Hss.
  rewrite (cons_middle sib cs1 (c :: cs2)), app_assoc.
  rewrite (lookup_at_app idx c (cs1 ++ [sib]) cs2)
    by (rewrite length_app; simpl; lia).
  simpl. rewrite <- app_assoc. simpl.
  rewrite (lookup_at_app (idx - 1) sib cs1 (c :: cs2)) by done. simpl.
  rewrite (lookup_at_app (idx - 1) sep ss1 ss2) by done. simpl.
  unfold n_keys in Hnsib.
  destruct (slots sib) as [| up sss _] eqn:Hsibss using rev_ind; [simpl in Hnsib; lia |].
  rewrite decide_False by (by destruct sss).
  rewrite length_app. simpl.
  replace (length sss + 1 - 1)%nat with (length sss) by lia.
  rewrite (lookup_at_app (length sss) up sss []) by done. simpl.
  rewrite take_app_length.
  assert (forall c' sib',
    <[(idx - 1)%nat := sib']> (<[idx := c']> (cs1 ++ sib :: c :: cs2)) =
    cs1 ++ sib' :: c' :: cs2) as Hset.
  { intros c' sib'. rewrite (cons_middle sib cs1 (c :: cs2)), app_assoc.
    rewrite (set_at_app idx c _ (cs1 ++ [sib]) cs2) by (rewrite length_app; simpl; lia).
    rewrite <- app_assoc. simpl.
    by rewrite (set_at_app (idx - 1) sib _ cs1 _). }
  rewrite (set_at_app (idx - 1) sep up ss1 ss2) by done.
  destruct h as [| h].
  - apply shape_leaf in Hc as (Hoc & Hnc' & Hlc & Hcc).
    apply shape_leaf in Hsib as (Hos & Hns' & Hls & Hcsib).
    rewrite Hlc. simpl. rewrite Hset.
    eexists _, _, up, []. split; [reflexivity |].
    unfold n_keys in *. rewrite Hsibss, length_app in Hns'. simpl in Hns'.
    post6.
    + apply shape_leaf. unfold n_keys. simpl. split_and!; try done; try lia.
    + apply shape_leaf. unfold n_keys. simpl. split_and!; try done; try lia.
    + simpl. lia.
    + simpl. rewrite Hsibss, length_app. simpl. lia.
    + rewrite (collect_items_fast_eq sib), Hls, Hsibss. simpl. by rewrite ?Hls.
    + rewrite (collect_items_fast_eq c), Hlc. simpl. by rewrite ?Hlc.
  - apply shape_internal in Hc as (Hoc & Hnc' & Hlc & Hlenc & Hallc).
    apply shape_internal in Hsib as (Hos & Hns' & Hls & Hlens & Halls).
    rewrite Hlc. simpl.
    rewrite Hsibss, length_app in Hlens. simpl in Hlens.
    destruct (children sib) as [| moved scs _] eqn:Hsibcs using rev_ind;
      [simpl in Hlens; lia |].
    rewrite length_app in Hlens. simpl in Hlens.
    rewrite (lookup_at_app (length sss + 1) moved scs []) by lia. simpl.
    rewrite take_app_length' by lia. rewrite Hset.
    apply Forall_app in Halls as [Halls Hmoved].
    apply Forall_inv in Hmoved.
    eexists _, _, up, (ino moved). split; [reflexivity |].
    unfold n_keys in *. rewrite Hsibss, length_app in Hns'. simpl in Hns'.
    post6.
    + apply shape_internal. unfold n_keys. simpl. split_and!; try done; try lia.
      by constructor.
    + apply shape_internal. unfold n_keys. simpl. split_and!; try done; try lia.
    + simpl. lia.
    + simpl. rewrite Hsibss, length_app. simpl. lia.
    + rewrite (collect_items_fast_eq sib), Hls, Hsibss, Hsibcs. simpl. rewrite ?Hls.
      rewrite (zipio_app ino scs [moved] sss up []) by lia. done.
    + rewrite (collect_items_fast_eq c), Hlc. simpl. by rewrite ?Hlc.
Qed.

(** Borrowing through the separator from the right sibling: [Y] is what
    moves from the sibling's walk into the child's. *)
Lemma borrow_from_next_spec t h node (idx : nat) c sib sep cs1 cs2 ss1 ss2 :
  2 <= t ->
  children node = cs1 ++ c :: sib :: cs2 -> slots node = ss1 ++ sep :: ss2 ->
  length cs1 = idx -> length ss1 = idx ->
  shape t h c -> shape t h sib -> n_keys c < 2 * t - 1 -> 1 <= n_keys sib ->
  exists c' sib' up Y,
    borrow_from_next node idx =
      Some (mkNode (is_leaf node) (ss1 ++ up :: ss2) (cs1 ++ c' :: sib' :: cs2)
                   (order node)) /\
    shape t h c' /\ shape t h sib' /\
    n_keys c' = n_keys c + 1 /\ n_keys sib' = n_keys sib - 1 /\
    ino sib = Y ++ up :: ino sib' /\ ino c' = ino c ++ sep :: Y.
Proof.
  intros Ht Hcs Hss Hi1 Hi2 Hc Hsib Hnc Hnsib.
  unfold borrow_from_next. rewrite Hcs, Hss.
  rewrite (lookup_at_app idx c cs1 (sib :: cs2)) by done. simpl.
  rewrite (cons_middle c cs1 (sib :: cs2)), app_assoc.
  rewrite (lookup_at_app (S idx) sib (cs1 ++ [c]) cs2)
    by (rewrite length_app; simpl; lia).
  simpl. rewrite <- app_assoc. simpl.
  rewrite (lookup_at_app idx sep ss1 ss2) by done. simpl.
  unfold n_keys in Hnsib.
  destruct (slots sib) as [| up sss] eqn:Hsibss; [simpl in Hnsib; lia |]. simpl.
  assert (forall c' sib',
    <[S idx := sib']> (<[idx := c']> (cs1 ++ c :: sib :: cs2)) =
    cs1 ++ c' :: sib' :: cs2) as Hset.
  { intros c' sib'. rewrite (set_at_app idx c _ cs1 (sib :: cs2)) by done.
    rewrite (cons_middle c' cs1 (sib :: cs2)), app_assoc.
    rewrite (set_at_app (S idx) sib _ (cs1 ++ [c']) cs2)
      by (rewrite length_app; simpl; lia).
    by rewrite <- app_assoc. }
  rewrite (set_at_app idx sep up ss1 ss2) by done.
  destruct h as [| h].
  - apply shape_leaf in Hc as (Hoc & Hnc' & Hlc & Hcc).
    apply shape_leaf in Hsib as (Hos & Hns' & Hls & Hcsib).
    rewrite Hlc, Hls. simpl. rewrite Hset.
    eexists _, _, up, []. split; [reflexivity |].
    unfold n_keys in *. rewrite Hsibss in Hns'. simpl in Hns'.
    post6.
    + apply shape_leaf. unfold n_keys. simpl. rewrite length_app. simpl.
      split_and!; try done; try lia.
    + apply shape_leaf. unfold n_keys. simpl. rewrite drop_0.
      split_and!; try done; try lia.
    + simpl. rewrite length_app. simpl. lia.
    + simpl. rewrite Hsibss, drop_0. simpl. lia.
    + rewrite (collect_items_fast_eq sib), Hls, Hsibss. simpl. by rewrite drop_0.
    + rewrite (collect_items_fast_eq c), Hlc. simpl. done.
  - apply shape_internal in Hc as (Hoc & Hnc' & Hlc & Hlenc & Hallc).
    apply shape_internal in Hsib as (Hos & Hns' & Hls & Hlens & Halls).
    rewrite Hlc, Hls. simpl.
    rewrite Hsibss in Hlens. simpl in Hlens.
    destruct (children sib) as [| moved scs] eqn:Hsibcs; [simpl in Hlens; lia |].
    simpl in Hlens. simpl. rewrite Hset.
    apply Forall_cons in Halls as [Hmoved Halls].
    eexists _, _, up, (ino moved). split; [reflexivity |].
    unfold n_keys in *. rewrite Hsibss in Hns'. simpl in Hns'.
    post6.
    + apply shape_internal. unfold n_keys. simpl. rewrite !length_app. simpl.
      split_and!; try done; try lia. apply Forall_app. split; [done |]. by constructor.
    + apply shape_internal. unfold n_keys. simpl. rewrite !drop_0.
      split_and!; try done; try lia.
    + simpl. rewrite length_app. simpl. lia.
    + simpl. rewrite Hsibss, drop_0. simpl. lia.
    + rewrite (collect_items_fast_eq sib), Hls, Hsibss, Hsibcs. simpl.
      by rewrite !drop_0.
    + rewrite (collect_items_fast_eq c), Hlc. simpl.
      by rewrite (zipio_app ino (children c) [moved] (slots c) sep []).
Qed.

#[local] Abbreviation valid t h :=
  (fun c : PyBTreeNode => t - 1 <= n_keys c /\ shape t h c).

#[local] Ltac idx_cond :=
  match goal with
  | |- context [(?a =? ?b) && (?c <? ?d)] =>
      destruct (Z.eqb_spec a b); destruct (Z.ltb_spec c d); simpl; try done; try lia
  end.

(** [fill_child] seen from the child it prepares: the node it leaves,
    split around the child [c'] that the deletion descends into, with
    [X] and [Y] the parts of the walk that moved into that child. *)
Lemma fill_child_focus t h node cs1 c cs2 l1 l2 :
  2 <= t -> order node = t -> is_leaf node = false ->
  children node = cs1 ++ c :: cs2 -> slots node = l1 ++ l2 ->
  length cs1 = length l1 -> length cs2 = length l2 ->
  1 <= n_keys node ->
  Forall (valid t h) cs1 -> shape t h c -> n_keys c = t - 1 -> Forall (valid t h) cs2 ->
  exists csA c' csB ssA ssB X Y,
    fill_child node (length l1) =
      Some (mkNode false (ssA ++ ssB) (csA ++ c' :: csB) t) /\
    length csA = length ssA /\ length csB = length ssB /\
    length ssA =
      (if (Z.of_nat (length l1) =? n_keys node) &&
          (Z.of_nat (length (ssA ++ ssB)) <? Z.of_nat (length l1))
       then (length l1 - 1)%nat else length l1) /\
    Forall (valid t h) csA /\ Forall (valid t h) csB /\
    shape t h c' /\ t <= n_keys c' /\
    n_keys node - 1 <= Z.of_nat (length (ssA ++ ssB)) <= n_keys node /\
    zl ino cs1 l1 = zl ino csA ssA ++ X /\
    zr ino l2 cs2 = Y ++ zr ino ssB csB /\
    ino c' = X ++ ino c ++ Y.
Proof.
  intros Ht Ho Hleaf Hcs Hss Hl1 Hl2 Hn Hv1 Hc Hnc Hv2.
  pose proof (n_keys_nonneg c) as Hc0.
  unfold fill_child. rewrite Ho.
  assert (n_keys node = Z.of_nat (length l1 + length l2)) as Hnk
    by (unfold n_keys; by rewrite Hss, length_app).
  rewrite Hnk in Hn |- *. clear Hnk.
  destruct l1 as [| sepL l1' _] using rev_ind.
  - (* idx = 0: only a right sibling *)
    destruct cs1; [| done]. simpl in *.
    destruct l2 as [| sep l2']; [simpl in Hn; lia |].
    destruct cs2 as [| sib cs2']; [done |]. simpl in Hl2.
    apply Forall_cons in Hv2 as [[Hsibmin Hsib] Hv2].
    rewrite Hcs. simpl.
    destruct (Z.leb_spec t (n_keys sib)) as [Hspare | Hnospare].
    + destruct (borrow_from_next_spec t h node 0 c sib sep [] cs2' [] l2')
        as (c' & sib' & up & Yb & Hb & Hc' & Hsib' & Hnc' & Hnsib' & Hinos & Hinoc);
        try done; try lia.
      rewrite Hb, Hleaf, Ho. simpl.
      exists [], c', (sib' :: cs2'), [], (up :: l2'), [], (sep :: Yb).
      split; [reflexivity |]. simpl.
      split_and!; try done; try lia.
      * constructor; [| done]. split; [lia | done].
      * rewrite Hinos. by rewrite <- app_assoc.
    + destruct (merge_children_spec t h node 0 c sib sep [] cs2' [] l2')
        as (merged & Hm & Hmshape & Hnm & Hinom); try done; try lia.
      rewrite Hm, Hleaf, Ho. simpl.
      exists [], merged, cs2', [], l2', [], (sep :: ino sib).
      split; [reflexivity |]. simpl.
      split_and!; try done; try lia.
  - (* idx > 0: there is a left sibling *)
    destruct cs1 as [| sibL cs1' _] using rev_ind.
    { rewrite length_app in Hl1. simpl in Hl1. lia. }
    rewrite !length_app in Hl1. simpl in Hl1.
    rewrite !length_app in *. simpl in *.
    apply Forall_app in Hv1 as [Hv1 HsibL].
    apply Forall_inv in HsibL. destruct HsibL as [HsibLmin HsibL].
    rewrite decide_True by lia.
    replace (length l1' + 1 - 1)%nat with (length l1') by lia.
    rewrite Hcs. rewrite <- (app_assoc cs1' [sibL]). simpl.
    rewrite (lookup_at_app (length l1') sibL cs1' (c :: cs2)) by lia. simpl.
    rewrite <- app_assoc in Hcs, Hss. simpl in Hcs, Hss.
    destruct (Z.leb_spec t (n_keys sibL)) as [Hspare | Hnospare].
    + destruct (borrow_from_prev_spec t h node (length l1' + 1) c sibL sepL
                  cs1' cs2 l1' l2)
        as (c' & sib' & up & Xb & Hb & Hc' & Hsib' & Hnc' & Hnsib' & Hinos & Hinoc);
        try done; try lia.
      rewrite Hb, Hleaf, Ho.
      exists (cs1' ++ [sib']), c', cs2, (l1' ++ [up]), l2, (Xb ++ [sepL]), [].
      split; [by rewrite <- !app_assoc |].
      rewrite !length_app. simpl.
      split_and!; try done; try lia.
      * idx_cond.
      * apply Forall_app. split; [done |]. constructor; [| done]. split; [lia | done].
      * rewrite !zl_snoc by lia. rewrite Hinos. by rewrite <- !app_assoc.
      * rewrite Hinoc. rewrite app_nil_r. by rewrite <- app_assoc.
    + destruct l2 as [| sep l2'].
      * (* last child: merge with the left sibling *)
        destruct cs2; [| done]. simpl in *.
        replace (Z.of_nat (length l1' + 1) <? Z.of_nat (length l1' + 1 + 0))
          with false by (symmetry; apply Z.ltb_ge; lia).
        destruct (merge_children_spec t h node (length l1') sibL c sepL cs1' [] l1' [])
          as (merged & Hm & Hmshape & Hnm & Hinom); try done; try lia.
        rewrite Hm, Hleaf, Ho. rewrite decide_True by lia.
        exists cs1', merged, [], l1', [], (ino sibL ++ [sepL]), [].
        split; [reflexivity |]. rewrite !app_nil_r. simpl.
        split_and!; try done; try lia.
        -- idx_cond.
        -- by rewrite zl_snoc by lia.
        -- rewrite Hinom. by rewrite <- app_assoc.
      * destruct cs2 as [| sib cs2']; [done |]. simpl in Hl2.
        apply Forall_cons in Hv2 as [[Hsibmin Hsib] Hv2].
        replace (Z.of_nat (length l1' + 1) <? Z.of_nat (length l1' + 1 + length (sep :: l2')))
          with true by (symmetry; apply Z.ltb_lt; simpl; lia).
        rewrite (cons_middle sibL cs1' (c :: sib :: cs2')), app_assoc.
        rewrite (cons_middle c (cs1' ++ [sibL]) (sib :: cs2')), app_assoc.
        rewrite (lookup_at_app (S (length l1' + 1)) sib ((cs1' ++ [sibL]) ++ [c]) cs2')
          by (rewrite !length_app; simpl; lia).
        simpl.
        assert (children node = (cs1' ++ [sibL]) ++ c :: sib :: cs2') as Hcs'
          by (by rewrite <- app_assoc).
        assert (slots node = (l1' ++ [sepL]) ++ sep :: l2') as Hss'
          by (by rewrite <- app_assoc).
        destruct (Z.leb_spec t (n_keys sib)) as [Hspare' | Hnospare'].
        -- destruct (borrow_from_next_spec t h node (length l1' + 1) c sib sep
                       (cs1' ++ [sibL]) cs2' (l1' ++ [sepL]) l2')
             as (c' & sib' & up & Yb & Hb & Hc' & Hsib' & Hnc' & Hnsib' & Hinos & Hinoc);
             try done; try lia; try (rewrite length_app; simpl; lia).
           rewrite Hb, Hleaf, Ho.
           exists (cs1' ++ [sibL]), c', (sib' :: cs2'), (l1' ++ [sepL]), (up :: l2'),
                  [], (sep :: Yb).
           split; [reflexivity |].
           rewrite !length_app. simpl.
           split_and!; try done; try lia.
           ++ idx_cond.
           ++ apply Forall_app. split; [done |]. constructor; [| done]. done.
           ++ constructor; [| done]. split; [lia | done].
           ++ by rewrite app_nil_r.
           ++ rewrite Hinos. by rewrite <- app_assoc.
        -- destruct (merge_children_spec t h node (length l1' + 1) c sib sep
                       (cs1' ++ [sibL]) cs2' (l1' ++ [sepL]) l2')
             as (merged & Hm & Hmshape & Hnm & Hinom);
             try done; try lia; try (rewrite length_app; simpl; lia).
           rewrite Hm, Hleaf, Ho.
           exists (cs1' ++ [sibL]), merged, cs2', (l1' ++ [sepL]), l2',
                  [], (sep :: ino sib).
           split; [reflexivity |].
           rewrite !length_app. simpl.
           split_and!; try done; try lia.
           ++ idx_cond.
           ++ apply Forall_app. split; [done |]. constructor; [| done]. done.
           ++ by rewrite app_nil_r.
Qed.

End rebalance.

(** ** delete_from_node *)

Section delete.
Context {H : Host} {Htot : cmp_total}.
#[local] Abbreviation ino := collect_items_fast.
#[local] Abbreviation valid t h :=
  (fun c : PyBTreeNode => t - 1 <= n_keys c /\ shape t h c).
#[local] Ltac post4 := split; [| split; [| split]].

Lemma list_delete_last key X s :
  sorted (X ++ [s]) -> keq key s.1 -> list_delete key (X ++ [s]) = X.
Proof.
  intros [_ Hbelow]%sorted_snoc Heq.
  rewrite list_delete_app_l.
  - rewrite list_delete_head by done. by rewrite app_nil_r.
  - eapply Forall_impl; [exact Hbelow |]. intros x Hx.
    eapply klt_keq_r; [| exact Hx]. by apply keq_sym.
Qed.

Lemma list_mem_last key X s :
  sorted (X ++ [s]) -> keq key s.1 -> list_mem key (X ++ [s]) = true.
Proof.
  intros [_ Hbelow]%sorted_snoc Heq.
  rewrite list_mem_app_l.
  - by apply list_mem_head.
  - eapply Forall_impl; [exact Hbelow |]. intros x Hx.
    eapply klt_keq_r; [| exact Hx]. by apply keq_sym.
Qed.

Lemma keq_refl (a : PyObject) : keq a a.
Proof. apply compare_keys_refl. Qed.

Lemma delete_from_node_spec t :
  2 <= t ->
  forall (h fuel : nat) node key,
    (h < fuel)%nat -> shape t h node ->
    (is_leaf node = false -> 1 <= n_keys node) ->
    sorted (ino node) ->
    exists r node',
      delete_from_node fuel node key = Some (r, node') /\
      shape t h node' /\
      ino node' = list_delete key (ino node) /\
      r = (if list_mem key (ino node) then Return 0 else Raise (KeyError (Some key))) /\
      n_keys node - 1 <= n_keys node' <= n_keys node.
Proof.
  intros Ht. induction h as [| h IH]; intros fuel node key Hfuel Hshape Hmin Hsorted.
  - (* leaf *)
    destruct fuel as [| fuel]; [lia |].
    destruct node as [leaf ss cs ot].
    apply shape_leaf in Hshape as (Ho & Hn & Hleaf & Hcs). simpl in *. subst.
    cbn [delete_from_node].
    pose proof (node_search_key_slots (mkNode true ss [] t) key Hsorted) as Hsr.
    destruct (node_search_key _ key) as [z found].
    destruct Hsr as (l1 & l2 & Hz & Hlo & Hhi & Hcase). simpl in Hz, Hcase. subst z.
    rewrite of_nat_length_ltb, Nat2Z.id.
    destruct found; [destruct Hcase as (s & -> & Heq) | subst ss]; simpl.
    + unfold delete_from_leaf, set_slots. simpl.
      rewrite lookup_at_app by done. simpl. rewrite remove_at_app by done.
      eexists _, _. split; [reflexivity |]. post4.
      * apply shape_leaf. unfold n_keys in *. simpl in *.
        rewrite !length_app in *. simpl in *. split_and!; try done; lia.
      * simpl. rewrite list_delete_app_l by done. by rewrite list_delete_head.
      * rewrite list_mem_app_l by done. by rewrite list_mem_head.
      * unfold n_keys. simpl. rewrite !length_app. simpl. lia.
    + eexists _, _. split; [reflexivity |]. post4.
      * apply shape_leaf. done.
      * simpl. rewrite list_delete_app_l by done. by rewrite list_delete_above.
      * rewrite list_mem_app_l by done. by rewrite list_mem_above.
      * lia.
  - (* internal node *)
    destruct fuel as [| fuel]; [lia |].
    destruct node as [leaf ss cs ot].
    apply shape_internal in Hshape as (Ho & Hn & Hleaf & Hlen & Hall). simpl in *. subst.
    specialize (Hmin eq_refl).
    destruct (zipio_sorted_inv cs ss Hlen Hsorted) as (Hss_sorted & Hcs_sorted & _).
    cbn [delete_from_node].
    pose proof (node_search_key_slots (mkNode false ss cs t) key Hss_sorted) as Hsr.
    destruct (node_search_key _ key) as [z found].
    destruct Hsr as (l1 & l2 & Hz & Hlo & Hhi & Hcase). simpl in Hz, Hcase. subst z.
    rewrite of_nat_length_ltb, Nat2Z.id.
    destruct found; [destruct Hcase as (s & -> & Heq) | subst ss]; simpl.
    + (* the key is in this node: delete_from_internal *)
      rewrite length_app in Hlen. simpl in Hlen.
      destruct (lookup_lt_is_Some_2 cs (length l1)) as [lc Hlc]; [lia |].
      destruct (children_focus cs (l1 ++ s :: l2) (length l1) lc) as
        (cs1 & cs2 & l1' & l2' & -> & Hl & Hcs1 & Hl1' & Hcs2);
        [rewrite length_app; simpl; lia | done |].
      apply app_inj_1 in Hl as [<- <-]; [| done].
      destruct cs2 as [| rc cs2]; [done |]. simpl in Hcs2.
      rewrite zipio_focus in Hsorted by done. simpl in Hsorted.
      apply Forall_shape_app in Hall as (Hall1 & [Hlcmin Hlcshape] & Hall2).
      apply Forall_cons in Hall2 as [[Hrcmin Hrcshape] Hall2].
      (* order facts around the slot *)
      apply sorted_app in Hsorted as (HsL & Hsorted & HcrossL).
      apply sorted_app in Hsorted as (Hslc & Hsorted & Hcrosslc).
      apply sorted_cons in Hsorted as [Habove_s Hsorted].
      apply sorted_app in Hsorted as (Hsrc & HsR & HcrossR).
      assert (Forall (fun x => klt x.1 key) (zl ino cs1 l1)) as HL.
      { eapply Forall_impl; [exact HcrossL |]. intros x Hx.
        apply Forall_app in Hx as [_ Hx]. apply Forall_inv in Hx.
        eapply klt_keq_r; [| exact Hx]. by apply keq_sym. }
      assert (Forall (fun x => klt x.1 key) (ino lc)) as Hlc_key.
      { eapply Forall_impl; [exact Hcrosslc |]. intros x Hx.
        apply Forall_inv in Hx. eapply klt_keq_r; [| exact Hx]. by apply keq_sym. }
      assert (forall X, list_delete key (zl ino cs1 l1 ++ ino lc ++ s :: X) =
                        zl ino cs1 l1 ++ ino lc ++ X) as Hdel.
      { intros X. rewrite !list_delete_app_l by done. by rewrite list_delete_head. }
      assert (forall X, list_mem key (zl ino cs1 l1 ++ ino lc ++ s :: X) = true) as Hmem.
      { intros X. rewrite !list_mem_app_l by done. by rewrite list_mem_head. }
      rewrite zipio_focus by done. simpl. rewrite Hdel, Hmem.
      unfold delete_from_internal. simpl.
      rewrite (lookup_at_app (length l1) s l1 l2) by done. simpl.
      rewrite (lookup_at_app (length l1) lc cs1 (rc :: cs2)) by done. simpl.
      destruct (Z.leb_spec t (n_keys lc)) as [Hlc_spare | Hlc_min].
      * (* replace by the predecessor *)
        destruct (rightmost_slot_spec t h lc Ht Hlcshape) as (X & pred & Hpred & HinoX);
          [lia |].
        unfold get_predecessor. simpl.
        rewrite (lookup_at_app (length l1) lc cs1 (rc :: cs2)) by done. simpl.
        rewrite Hpred. simpl.
        destruct (IH fuel lc pred.1) as (r & lc' & Hrec & Hlc' & Hino' & Hr & Hnlc');
          [lia | done | lia | done |].
        rewrite Hrec. simpl. unfold set_children, set_slots. simpl.
        rewrite (set_at_app (length l1) s pred l1 l2) by done.
        rewrite (set_at_app (length l1) lc lc' cs1 (rc :: cs2)) by done.
        rewrite HinoX in Hino', Hr, Hslc.
        rewrite list_delete_last in Hino' by (done || apply keq_refl).
        rewrite list_mem_last in Hr by (done || apply keq_refl).
        eexists _, _. split; [by rewrite Hr |]. post4.
        -- apply shape_internal. unfold n_keys in *. simpl in *. split_and!; try done.
           ++ rewrite !length_app in *. simpl in *. lia.
           ++ rewrite !length_app. simpl. lia.
           ++ rewrite Forall_app, !Forall_cons. split_and!; try done; lia.
        -- rewrite collect_items_fast_eq. simpl.
           rewrite (zipio_focus ino cs1 lc' (rc :: cs2) l1 (pred :: l2)) by (simpl; lia).
           simpl. rewrite Hino', HinoX. by rewrite <- !app_assoc.
        -- done.
        -- unfold n_keys. simpl. rewrite !length_app. simpl. lia.
      * rewrite (cons_middle lc cs1 (rc :: cs2)), app_assoc.
        rewrite (lookup_at_app (S (length l1)) rc (cs1 ++ [lc]) cs2)
          by (rewrite length_app; simpl; lia).
        simpl.
        destruct (Z.leb_spec t (n_keys rc)) as [Hrc_spare | Hrc_min].
        -- (* replace by the successor *)
           destruct (leftmost_slot_spec t h rc Ht Hrcshape) as (succ & Y & Hsucc & HinoY);
             [lia |].
           unfold get_successor. simpl.
           rewrite (lookup_at_app (S (length l1)) rc (cs1 ++ [lc]) cs2)
             by (rewrite length_app; simpl; lia).
           simpl. rewrite Hsucc. simpl.
           destruct (IH fuel rc succ.1) as (r & rc' & Hrec & Hrc' & Hino' & Hr & Hnrc');
             [lia | done | lia | done |].
           rewrite Hrec. simpl. unfold set_children, set_slots. simpl.
           rewrite (set_at_app (length l1) s succ l1 l2) by done.
           rewrite (set_at_app (S (length l1)) rc rc' (cs1 ++ [lc]) cs2)
             by (rewrite length_app; simpl; lia).
           rewrite <- app_assoc. simpl.
           rewrite HinoY in Hino', Hr.
           rewrite list_delete_head in Hino' by apply keq_refl.
           rewrite list_mem_head in Hr by apply keq_refl.
           eexists _, _. split; [by rewrite Hr |]. post4.
           ++ apply shape_internal. unfold n_keys in *. simpl in *. split_and!; try done.
              ** rewrite !length_app in *. simpl in *. lia.
              ** rewrite !length_app. simpl. lia.
              ** rewrite Forall_app, !Forall_cons. split_and!; try done; lia.
           ++ rewrite collect_items_fast_eq. simpl.
              rewrite (zipio_focus ino cs1 lc (rc' :: cs2) l1 (succ :: l2)) by (simpl; lia).
              simpl. rewrite Hino', HinoY. done.
           ++ done.
           ++ unfold n_keys. simpl. rewrite !length_app. simpl. lia.
        -- (* merge the two children and delete from the merged node *)
           rewrite <- app_assoc. simpl.
           destruct (merge_children_spec t h
                       (mkNode false (l1 ++ s :: l2) (cs1 ++ lc :: rc :: cs2) t)
                       (length l1) lc rc s cs1 cs2 l1 l2)
             as (merged & Hm & Hmshape & Hnm & Hinom); try done; try lia.
           rewrite Hm. simpl.
           rewrite (lookup_at_app (length l1) merged cs1 cs2) by done. simpl.
           destruct (IH fuel merged s.1) as (r & m' & Hrec & Hm' & Hino' & Hr & Hnm');
             [lia | done | lia | |].
           { rewrite Hinom. apply sorted_app. split_and!; [done | |].
             - apply sorted_cons. split; [| done].
               by apply Forall_app in Habove_s as [? _].
             - eapply Forall_impl; [exact Hcrosslc |]. intros x Hx.
               apply Forall_cons in Hx as [Hx1 Hx2]. constructor; [done |].
               by apply Forall_app in Hx2 as [? _]. }
           rewrite Hrec. simpl. unfold set_children. simpl.
           rewrite (set_at_app (length l1) merged m' cs1 cs2) by done.
           rewrite Hinom in Hino', Hr.
           assert (Forall (fun x => klt x.1 s.1) (ino lc)) as Hlc_s.
           { eapply Forall_impl; [exact Hcrosslc |]. intros x Hx.
             by apply Forall_inv in Hx. }
           rewrite list_delete_app_l in Hino' by done.
           rewrite list_delete_head in Hino' by apply keq_refl.
           rewrite list_mem_app_l in Hr by done.
           rewrite list_mem_head in Hr by apply keq_refl.
           eexists _, _. split; [by rewrite Hr |]. post4.
           ++ apply shape_internal. unfold n_keys in *. simpl in *. split_and!; try done.
              ** rewrite !length_app in *. simpl in *. lia.
              ** rewrite !length_app. simpl. lia.
              ** rewrite Forall_app, !Forall_cons. split_and!; try done; lia.
           ++ rewrite collect_items_fast_eq. simpl.
              rewrite (zipio_focus ino cs1 m' cs2 l1 l2) by lia.
              rewrite Hino'. by rewrite <- !app_assoc.
           ++ done.
           ++ unfold n_keys. simpl. rewrite !length_app. simpl. lia.
    + (* the key is not in this node: descend, filling the child first *)
      rewrite length_app in Hlen.
      destruct (lookup_lt_is_Some_2 cs (length l1)) as [c Hc]; [lia |].
      destruct (children_focus cs (l1 ++ l2) (length l1) c) as
        (cs1 & cs2 & l1' & l2' & -> & Hl & Hcs1 & Hl1' & Hcs2);
        [by rewrite length_app | done |].
      apply app_inj_1 in Hl as [<- <-]; [| done].
      rewrite zipio_focus in Hsorted |- * by done.
      destruct (focus_bounds cs1 cs2 l1 l2 (ino c) key) as [HL HR]; try done.
      apply Forall_shape_app in Hall as (Hall1 & [Hcmin Hcshape] & Hall2).
      rewrite (lookup_at_app (length l1) c cs1 cs2) by done. simpl.
      (* what the node looks like once the child is ready *)
      assert (exists csA c' csB ssA ssB X Y,
        (if n_keys c <? t
         then fill_child (mkNode false (l1 ++ l2) (cs1 ++ c :: cs2) t) (length l1)
         else Some (mkNode false (l1 ++ l2) (cs1 ++ c :: cs2) t)) =
          Some (mkNode false (ssA ++ ssB) (csA ++ c' :: csB) t) /\
        length csA = length ssA /\ length csB = length ssB /\
        length ssA =
          (if (Z.of_nat (length l1) =? Z.of_nat (length (l1 ++ l2))) &&
              (Z.of_nat (length (ssA ++ ssB)) <? Z.of_nat (length l1))
           then (length l1 - 1)%nat else length l1) /\
        Forall (valid t h) csA /\ Forall (valid t h) csB /\
        shape t h c' /\ t <= n_keys c' /\
        Z.of_nat (length (l1 ++ l2)) - 1 <= Z.of_nat (length (ssA ++ ssB))
          <= Z.of_nat (length (l1 ++ l2)) /\
        zl ino cs1 l1 = zl ino csA ssA ++ X /\
        zr ino l2 cs2 = Y ++ zr ino ssB csB /\
        ino c' = X ++ ino c ++ Y) as Hready.
      { destruct (Z.ltb_spec (n_keys c) t) as [Hfill | Hnofill].
        - apply (fill_child_focus t h (mkNode false (l1 ++ l2) (cs1 ++ c :: cs2) t));
            try done. lia.
        - exists cs1, c, cs2, l1, l2, [], []. rewrite !app_nil_r.
          split_and!; try done; try lia.
          destruct (Z.eqb_spec (Z.of_nat (length l1)) (Z.of_nat (length (l1 ++ l2))));
            destruct (Z.ltb_spec (Z.of_nat (length (l1 ++ l2))) (Z.of_nat (length l1)));
            simpl; try done.
          rewrite length_app in *. lia. }
      destruct Hready as (csA & c' & csB & ssA & ssB & X & Y & Hfill & HlA & HlB & Hidx
                          & HvA & HvB & Hc' & Hnc' & Hn' & HLX & HRY & Hinoc').
      rewrite Hfill. simpl. unfold n_keys. simpl. rewrite <- Hidx.
      rewrite (lookup_at_app (length ssA) c' csA csB) by done. simpl.
      rewrite HLX, HRY in Hsorted |- *. rewrite HLX in HL. rewrite HRY in HR.
      apply Forall_app in HL as [HL' _]. apply Forall_app in HR as [_ HR'].
      assert (zl ino csA ssA ++ ino c' ++ zr ino ssB csB =
              (zl ino csA ssA ++ X) ++ ino c ++ Y ++ zr ino ssB csB) as Hsame.
      { rewrite Hinoc'. by rewrite <- !app_assoc. }
      rewrite <- Hsame in Hsorted |- *.
      assert (sorted (ino c')) as Hc'_sorted.
      { apply sorted_app in Hsorted as (_ & Hs & _).
        by apply sorted_app in Hs as (Hs & _). }
      destruct (IH fuel c' key) as (r & c'' & Hrec & Hc'' & Hino'' & Hr & Hnc'');
        [lia | done | lia | done |].
      rewrite Hrec. simpl. unfold set_children. simpl.
      rewrite (set_at_app (length ssA) c' c'' csA csB) by done.
      eexists _, _. split; [reflexivity |]. post4.
      * apply shape_internal. unfold n_keys in *. simpl in *. split_and!; try done.
        -- lia.
        -- rewrite !length_app in *. simpl in *. lia.
        -- rewrite Forall_app, !Forall_cons. split_and!; try done; lia.
      * rewrite collect_items_fast_eq. simpl.
        rewrite (zipio_focus ino csA c'' csB ssA ssB) by done.
        rewrite Hino''. by rewrite focus_delete.
      * by rewrite Hr, focus_mem.
      * unfold n_keys. simpl. lia.
Qed.

End delete.

Section tree_delete_top.
Context {H : Host} {Htot : cmp_total}.
#[local] Abbreviation ino := collect_items_fast.

Lemma list_delete_present key l :
  list_mem key l = true ->
  exists l1 s l2, l = l1 ++ s :: l2 /\ keq key s.1 /\ list_delete key l = l1 ++ l2.
Proof.
  induction l as [| s l IH]; [by rewrite list_mem_nil |].
  rewrite list_mem_cons. simpl.
  destruct (Z.eqb_spec (compare_keys key s.1) 0) as [Heq | Hne]; simpl.
  - intros _. by exists [], s, l.
  - intros Hm. destruct (IH Hm) as (l1 & s' & l2 & -> & Heq & Hdel).
    exists (s :: l1), s', l2. split_and!; try done. simpl. by rewrite Hdel.
Qed.

(** The tree a search is run on needs only its shape and its order. *)
Definition searchable (btree : PyBTreeObject) : Prop :=
  exists r h, root btree = Some r /\ shape (tree_order btree) h r /\ sorted (ino r).

Lemma wf_tree_searchable btree : wf_tree btree -> searchable btree.
Proof.
  intros (r & h & Hroot & Ht & Hshape & Hord & _). exists r, h.
  split_and!; try done. by eapply ordered_sorted.
Qed.

Lemma PyBTree_Search_spec btree key :
  searchable btree ->
  PyBTree_Search btree key = Return (list_lookup key (items btree)) /\
  PyBTree_Contains btree key = (if list_mem key (items btree) then 1 else 0).
Proof.
  intros (r & h & Hroot & Hshape & Hsorted).
  unfold PyBTree_Search, PyBTree_Contains, items. rewrite Hroot.
  by eapply node_search_spec.
Qed.

(** [PyBTree_Delete] on a well-formed tree. *)
Lemma PyBTree_Delete_spec btree key :
  wf_tree btree ->
  exists r btree',
    PyBTree_Delete btree key = Some (r, btree') /\
    tree_order btree' = tree_order btree /\
    items btree' = list_delete key (items btree) /\
    searchable btree' /\
    if list_mem key (items btree)
    then r = Return 0 /\ size btree' = size btree - 1 /\ wf_tree btree'
    else r = Raise (KeyError (Some key)) /\ size btree' = size btree.
Proof.
  intros Hwf. pose proof (wf_tree_searchable _ Hwf) as Hsearchable.
  destruct Hwf as (r & h & Hroot & Ht & Hshape & Hord & Hleaf & Hsize).
  set (t := tree_order btree) in *.
  pose proof (ordered_sorted _ _ _ Hshape Hord) as Hsorted.
  unfold PyBTree_Delete, items. rewrite Hroot.
  destruct (Z.eqb_spec (size btree) 0) as [Hempty | Hnonempty].
  - assert (ino r = []) as Hnil by (destruct (ino r); [done | simpl in Hsize; lia]).
    eexists _, _. split; [reflexivity |]. rewrite Hroot, Hnil. simpl. done.
  - destruct (delete_from_node_spec t Ht h (S (node_depth r)) r key)
      as (r0 & root1 & Hdel & Hshape1 & Hino1 & Hr0 & Hn1); try done.
    { rewrite (node_depth_shape _ _ _ Hshape). lia. }
    { intros Hl. pose proof (n_keys_nonneg r).
      destruct (decide (n_keys r = 0)) as [Hz | Hz]; [| lia].
      rewrite (Hleaf Hz) in Hl. done. }
    rewrite Hdel. simpl.
    assert (sorted (ino root1)) as Hsorted1
      by (rewrite Hino1; by apply list_delete_sorted).
    pose proof (list_delete_length key (ino r)) as Hlen.
    destruct (list_mem key (ino r)) eqn:Hmem; subst r0.
    + destruct ((n_keys root1 =? 0) && negb (is_leaf root1)) eqn:Hshrink.
      * (* the root lost its last key: its only child becomes the root *)
        apply andb_true_iff in Hshrink as [Hz%Z.eqb_eq Hl%negb_true_iff].
        destruct h as [| h];
          [apply shape_leaf in Hshape1 as (_ & _ & Hl' & _); congruence |].
        apply shape_internal in Hshape1 as (_ & _ & _ & Hlen1 & Hall1).
        unfold n_keys in Hz. destruct (slots root1) eqn:Hss1; [| simpl in Hz; lia].
        destruct (children root1) as [| c cs] eqn:Hcs1; [done |].
        destruct cs; [| done]. apply Forall_inv in Hall1 as [Hcmin Hcshape].
        assert (ino root1 = ino c) as Hinoc.
        { rewrite (collect_items_fast_eq root1), Hl, Hcs1, Hss1. done. }
        eexists _, _. split; [reflexivity |]. simpl. rewrite <- Hinoc.
        split_and!; try done.
        -- exists c, h. simpl. by rewrite <- Hinoc.
        -- exists c, h. simpl. rewrite <- Hinoc. split_and!; try done.
           ++ eapply sorted_ordered; [done |]. by rewrite <- Hinoc.
           ++ lia.
           ++ rewrite Hino1. lia.
      * eexists _, _. split; [reflexivity |]. simpl.
        split_and!; try done.
        -- by exists root1, h.
        -- exists root1, h. simpl. split_and!; try done.
           ++ by eapply sorted_ordered.
           ++ intros Hz. apply andb_false_iff in Hshrink as [Hnz | Hl].
              ** apply Z.eqb_neq in Hnz. done.
              ** by apply negb_false_iff in Hl.
           ++ rewrite Hino1. lia.
    + eexists _, _. split; [reflexivity |]. simpl.
      split_and!; try done. by exists root1, h.
Qed.

End tree_delete_top.

(** ** Height and number of keys *)

Section height.
Context {H : Host}.
#[local] Abbreviation ino := collect_items_fast.

Lemma length_zipio_ge (c0 c1 : PyBTreeNode) cs (s : slot) ss :
  (length (ino c0) + 1 + length (ino c1) <=
   length (zipio ino (c0 :: c1 :: cs) (s :: ss)))%nat.
Proof.
  simpl. rewrite length_app. simpl.
  destruct ss; simpl; rewrite ?length_app; lia.
Qed.

(** A subtree of height [h] whose top node has a key holds at least
    [2^(h+1) - 1] keys. *)
Lemma min_keys t h node :
  2 <= t -> shape t h node -> 1 <= n_keys node ->
  2 ^ (Z.of_nat h + 1) - 1 <= Z.of_nat (length (ino node)).
Proof.
  intros Ht. revert node. induction h as [| h IH]; intros node Hshape Hn.
  - apply shape_leaf in Hshape as (_ & _ & Hleaf & _).
    rewrite collect_items_fast_eq, Hleaf. unfold n_keys in Hn. simpl. lia.
  - apply shape_internal in Hshape as (_ & _ & Hleaf & Hlen & Hall).
    rewrite collect_items_fast_eq, Hleaf. unfold n_keys in Hn.
    destruct (slots node) as [| s ss]; [simpl in Hn; lia |].
    destruct (children node) as [| c0 [| c1 cs]]; simpl in Hlen; try lia.
    apply Forall_cons in Hall as [[Hc0 Hs0] Hall].
    apply Forall_cons in Hall as [[Hc1 Hs1] _].
    pose proof (length_zipio_ge c0 c1 cs s ss) as Hge.
    pose proof (IH c0 Hs0 ltac:(lia)) as H0.
    pose proof (IH c1 Hs1 ltac:(lia)) as H1.
    replace (Z.of_nat (S h) + 1) with (Z.succ (Z.of_nat h + 1)) by lia.
    rewrite Z.pow_succ_r by lia. lia.
Qed.

(** With at most [PY_SSIZE_T_MAX] keys the tree has at most 63 levels. *)
Lemma height_bound t h node :
  2 <= t -> shape t h node -> 1 <= n_keys node ->
  Z.of_nat (length (ino node)) <= PY_SSIZE_T_MAX ->
  Z.of_nat h + 1 <= 63.
Proof.
  intros Ht Hshape Hn Hmax. pose proof (min_keys t h node Ht Hshape Hn) as Hmin.
  unfold PY_SSIZE_T_MAX in Hmax.
  destruct (Z.le_gt_cases (Z.of_nat h + 1) 63) as [Hle | Hgt]; [done |].
  assert (2 ^ 64 <= 2 ^ (Z.of_nat h + 1)) by (apply Z.pow_le_mono_r; lia).
  lia.
Qed.

End height.

(** ** Iterators *)

Section iter_defs.
Context {H : Host}.
#[local] Abbreviation ino := collect_items_fast.

(** What a frame still has to yield, walking forward. *)
Definition frame_rest (f : IterStackFrame) : list slot :=
  let node := frame_node f in
  let i := Z.to_nat (key_idx f) in
  if is_leaf node then drop i (slots node)
  else zr ino (drop i (slots node)) (drop (S i) (children node)).

(** What a frame still has to yield, walking backward. *)
Definition frame_rrest (f : IterStackFrame) : list slot :=
  let node := frame_node f in
  let i := Z.to_nat (key_idx f + 1) in
  if is_leaf node then reverse (take i (slots node))
  else reverse (zl ino (take i (children node)) (take i (slots node))).

Definition stack_rest (st : list IterStackFrame) : list slot :=
  concat (frame_rest <$> st).

Definition stack_rrest (st : list IterStackFrame) : list slot :=
  concat (frame_rrest <$> st).

(** Every frame holds a well-shaped subtree, an index within [lo .. hi]
    of its node, and leaves room in the array for the frames its subtree
    can still push. *)
Fixpoint stack_ok (t : Z) (lo : Z) (hi : PyBTreeNode -> Z)
    (st : list IterStackFrame) : Prop :=
  match st with
  | [] => True
  | f :: rest =>
      (exists h, shape t h (frame_node f) /\
                 Z.of_nat (length rest) + Z.of_nat h + 1 <= ITER_STACK_SIZE) /\
      lo <= key_idx f <= hi (frame_node f) /\
      stack_ok t lo hi rest
  end.

(** The keys an iterator yields until it is exhausted. *)
Inductive iter_yields (next : PyBTreeIterObject -> option (option PyObject * PyBTreeIterObject))
  : PyBTreeIterObject -> list PyObject -> Prop :=
| iter_yields_done it it' :
    next it = Some (None, it') -> iter_yields next it []
| iter_yields_step it k it' ks :
    next it = Some (Some k, it') -> iter_yields next it' ks ->
    iter_yields next it (k :: ks).

(** The keys a range iterator yields until it reports the end. *)
Inductive range_yields : PyBTreeRangeIterObject -> list PyObject -> Prop :=
| range_yields_done it it' :
    btreerangeiter_next it = Some (Return None, it') -> range_yields it []
| range_yields_step it k it' ks :
    btreerangeiter_next it = Some (Return (Some k), it') -> range_yields it' ks ->
    range_yields it (k :: ks).

End iter_defs.

Section forward_iter.
Context {H : Host}.
#[local] Abbreviation ino := collect_items_fast.
#[local] Abbreviation fwd_ok t := (stack_ok t 0 n_keys).

Lemma iter_descend_left_eq node stack :
  iter_descend_left node stack =
  match push (mkFrame node 0) stack with
  | None => None
  | Some stack' =>
      if is_leaf node then Some stack'
      else match children node !! 0%nat with
           | Some c => iter_descend_left c stack'
           | None => Some stack'
           end
  end.
Proof.
  destruct node as [leaf ss cs t]. simpl.
  destruct (push _ stack); [| done]. by rewrite with_nth_lookup.
Qed.

Lemma push_room f (stack : list IterStackFrame) :
  Z.of_nat (length stack) < ITER_STACK_SIZE -> push f stack = Some (f :: stack).
Proof.
  intros Hroom. unfold push.
  by destruct (Z.ltb_spec (Z.of_nat (length stack)) ITER_STACK_SIZE); [| lia].
Qed.

Lemma stack_rest_cons f st : stack_rest (f :: st) = frame_rest f ++ stack_rest st.
Proof. done. Qed.

Lemma iter_descend_left_spec t h c st :
  shape t h c ->
  Z.of_nat (length st) + Z.of_nat h + 1 <= ITER_STACK_SIZE ->
  fwd_ok t st ->
  exists st',
    iter_descend_left c st = Some st' /\
    fwd_ok t st' /\
    stack_rest st' = ino c ++ stack_rest st.
Proof.
  revert c st. induction h as [| h IH]; intros c st Hshape Hroom Hok;
    rewrite iter_descend_left_eq, push_room by lia.
  - pose proof Hshape as (_ & _ & Hleaf & _)%shape_leaf. rewrite Hleaf.
    eexists. split; [reflexivity |]. split.
    + simpl. split_and!; try done; [by exists 0%nat | apply n_keys_nonneg].
    + rewrite stack_rest_cons. unfold frame_rest. simpl.
      by rewrite Hleaf, drop_0, collect_items_fast_eq, Hleaf.
  - pose proof Hshape as (_ & _ & Hleaf & Hlen & Hall)%shape_internal. rewrite Hleaf.
    destruct (children c) as [| c0 cs] eqn:Hcs; [done |]. simpl.
    apply Forall_cons in Hall as [[_ Hc0] _].
    destruct (IH c0 (mkFrame c 0 :: st)) as (st' & Hd & Hok' & Hrest); try done.
    { simpl. lia. }
    { simpl. split_and!; try done; [by exists (S h) | apply n_keys_nonneg]. }
    exists st'. split_and!; try done.
    rewrite Hrest, stack_rest_cons. unfold frame_rest. simpl.
    rewrite Hleaf, Hcs, drop_0. simpl. rewrite drop_0.
    rewrite (collect_items_fast_eq c), Hleaf, Hcs.
    rewrite zipio_cons_zr by (simpl in Hlen; lia). by rewrite <- app_assoc.
Qed.

Lemma slot_at_lookup node (i : nat) :
  slot_at node (Z.of_nat i) = slots node !! i.
Proof.
  unfold slot_at. destruct (Z.ltb_spec (Z.of_nat i) 0); [lia |]. by rewrite Nat2Z.id.
Qed.

Lemma child_at_lookup node (i : nat) :
  child_at node (Z.of_nat i) = children node !! i.
Proof.
  unfold child_at. destruct (Z.ltb_spec (Z.of_nat i) 0); [lia |]. by rewrite Nat2Z.id.
Qed.

(** One step of the forward walk: the first pending slot comes out and
    the rest stays on the stack. *)
Lemma btreeiter_next_loop_spec t remaining st :
  fwd_ok t st ->
  exists res,
    btreeiter_next_loop remaining st = Some res /\
    match stack_rest st with
    | [] => res = (None, remaining, [])
    | s :: out =>
        exists st', res = (Some s.1, remaining - 1, st') /\
                    fwd_ok t st' /\ stack_rest st' = out
    end.
Proof.
  induction st as [| f rest IH]; intros Hok.
  - eexists. split; [reflexivity |]. done.
  - destruct Hok as ((h & Hshape & Hroom) & Hidx & Hrest).
    destruct f as [node idx]. simpl in *.
    destruct (Z.ltb_spec idx (n_keys node)) as [Hlt | Hge].
    + (* a key is pending in the top frame *)
      assert (idx = Z.of_nat (Z.to_nat idx)) as Hi by lia.
      set (i := Z.to_nat idx) in *. rewrite Hi. rewrite slot_at_lookup.
      destruct (lookup_lt_is_Some_2 (slots node) i) as [s Hs];
        [unfold n_keys in Hlt; lia |].
      rewrite Hs. simpl.
      rewrite stack_rest_cons. unfold frame_rest at 1. simpl.
      replace (Z.to_nat (Z.of_nat i)) with i by lia.
      rewrite (drop_S _ _ _ Hs).
      replace (Z.of_nat i + 1) with (Z.of_nat (S i)) by lia.
      destruct h as [| h].
      * pose proof Hshape as (_ & _ & Hleaf & _)%shape_leaf. rewrite Hleaf. simpl.
        eexists. split; [reflexivity |].
        eexists. split; [reflexivity |]. split.
        -- simpl. split_and!; try done; first [by exists 0%nat | unfold n_keys in *; lia].
        -- rewrite stack_rest_cons. unfold frame_rest. simpl.
           by rewrite Hleaf, Nat2Z.id.
      * pose proof Hshape as (_ & _ & Hleaf & Hlen & Hall)%shape_internal.
        rewrite Hleaf. simpl. rewrite child_at_lookup.
        destruct (lookup_lt_is_Some_2 (children node) (S i)) as [c Hc];
          [unfold n_keys in Hlt; lia |].
        rewrite Hc. rewrite (drop_S _ _ _ Hc). simpl.
        rewrite Forall_lookup in Hall. destruct (Hall _ _ Hc) as [_ Hcshape].
        destruct (iter_descend_left_spec t h c (mkFrame node (Z.of_nat (S i)) :: rest))
          as (st' & Hd & Hok' & Hrest'); try done.
        { simpl. lia. }
        { simpl. split_and!; try done; first [by exists (S h) | unfold n_keys in *; lia]. }
        rewrite Hd. simpl.
        eexists. split; [reflexivity |].
        eexists. split; [reflexivity |]. split; [done |].
        rewrite Hrest', stack_rest_cons. unfold frame_rest at 1. simpl.
        rewrite Hleaf, Nat2Z.id. by rewrite <- app_assoc.
    + (* the top frame is finished: pop it *)
      destruct (IH Hrest) as (res & Hres & Hout).
      exists res. split; [done |].
      rewrite stack_rest_cons. unfold frame_rest at 1. simpl.
      assert (Z.to_nat idx = length (slots node)) as -> by (unfold n_keys in *; lia).
      rewrite drop_all. by destruct (is_leaf node).
Qed.

Lemma iter_yields_forward t out :
  forall st rem btree,
    fwd_ok t st -> stack_rest st = out ->
    iter_yields btreeiter_next (mkIter btree rem st) out.*1.
Proof.
  induction out as [| s out IH]; intros st rem btree Hok Hout;
    destruct (btreeiter_next_loop_spec t rem st Hok) as (res & Hres & Hpost);
    rewrite Hout in Hpost.
  - subst res. eapply iter_yields_done. unfold btreeiter_next. simpl.
    rewrite Hres. reflexivity.
  - destruct Hpost as (st' & -> & Hok' & Hout').
    eapply iter_yields_step.
    + unfold btreeiter_next. simpl. rewrite Hres. reflexivity.
    + by apply IH.
Qed.

(** What an iterator yields is determined by its state. *)
Lemma iter_yields_unique next it ks1 ks2 :
  iter_yields next it ks1 -> iter_yields next it ks2 -> ks1 = ks2.
Proof.
  intros Hy1. revert ks2. induction Hy1 as [it it1 Hn1 | it k1 it1 ks1 Hn1 Hy1 IH];
    intros ks2 Hy2; destruct Hy2 as [it it2 Hn2 | it k2 it2 ks2 Hn2 Hy2];
    try congruence.
  assert (k1 = k2 /\ it1 = it2) as [-> ->] by (split; congruence).
  f_equal. by apply IH.
Qed.

Lemma root_room t h r :
  2 <= t -> shape t h r -> 0 < n_keys r ->
  Z.of_nat (length (ino r)) <= PY_SSIZE_T_MAX ->
  Z.of_nat (length (@nil IterStackFrame)) + Z.of_nat h + 1 <= ITER_STACK_SIZE.
Proof.
  intros Ht Hshape Hn Hsize.
  pose proof (height_bound t h r Ht Hshape ltac:(lia) Hsize).
  unfold ITER_STACK_SIZE. simpl. lia.
Qed.

Lemma empty_root_items t h r :
  shape t h r -> (n_keys r = 0 -> is_leaf r = true) -> ~ 0 < n_keys r -> ino r = [].
Proof.
  intros Hshape Hleaf Hn. pose proof (n_keys_nonneg r).
  assert (n_keys r = 0) as Hz by lia.
  rewrite collect_items_fast_eq, (Hleaf Hz).
  unfold n_keys in Hz. by destruct (slots r).
Qed.

Lemma btree_iter_spec btree :
  wf_tree btree -> size btree <= PY_SSIZE_T_MAX ->
  exists it, btree_iter btree = Some it /\
             iter_yields btreeiter_next it (items btree).*1.
Proof.
  intros (r & h & Hroot & Ht & Hshape & Hord & Hleaf & Hsize) Hmax.
  unfold btree_iter, items. rewrite Hroot.
  destruct (Z.gtb_spec (n_keys r) 0) as [Hn | Hn].
  - destruct (iter_descend_left_spec (tree_order btree) h r []) as (st & -> & Hok & Hrest);
      try done.
    { apply (root_room (tree_order btree) h r); try done; lia. }
    eexists. split; [reflexivity |].
    apply (iter_yields_forward (tree_order btree)); [done |].
    rewrite Hrest. apply app_nil_r.
  - eexists. split; [reflexivity |].
    rewrite (empty_root_items (tree_order btree) h r) by (done || lia).
    by apply (iter_yields_forward (tree_order btree) []).
Qed.

End forward_iter.

Section reverse_iter.
Context {H : Host}.
#[local] Abbreviation ino := collect_items_fast.
#[local] Abbreviation bwd_ok t := (stack_ok t (-1) (fun node => n_keys node - 1)).

Lemma iter_descend_right_eq node stack :
  iter_descend_right node stack =
  match push (mkFrame node (n_keys node - 1)) stack with
  | None => None
  | Some stack' =>
      if is_leaf node then Some stack'
      else match children node !! length (slots node) with
           | Some c => iter_descend_right c stack'
           | None => Some stack'
           end
  end.
Proof.
  destruct node as [leaf ss cs t]. simpl. unfold n_keys. simpl.
  destruct (push _ stack); [| done]. by rewrite with_nth_lookup.
Qed.

Lemma stack_rrest_cons f st : stack_rrest (f :: st) = frame_rrest f ++ stack_rrest st.
Proof. done. Qed.

(** The walk of a node seen from its last child. *)
Lemma zipio_last (cs : list PyBTreeNode) (ss : list slot) c :
  cs !! length ss = Some c -> length cs = S (length ss) ->
  zipio ino cs ss = zl ino (take (length ss) cs) ss ++ ino c.
Proof.
  intros Hc Hlen.
  rewrite <- (take_drop (length ss) cs) at 1.
  rewrite (drop_S _ _ _ Hc), drop_ge by lia.
  rewrite <- (app_nil_r ss) at 2.
  rewrite zipio_zl_app by (rewrite length_take; lia). done.
Qed.

Lemma iter_descend_right_spec t h c st :
  shape t h c ->
  Z.of_nat (length st) + Z.of_nat h + 1 <= ITER_STACK_SIZE ->
  bwd_ok t st ->
  exists st',
    iter_descend_right c st = Some st' /\
    bwd_ok t st' /\
    stack_rrest st' = reverse (ino c) ++ stack_rrest st.
Proof.
  revert c st. induction h as [| h IH]; intros c st Hshape Hroom Hok;
    rewrite iter_descend_right_eq, push_room by lia.
  - pose proof Hshape as (_ & _ & Hleaf & _)%shape_leaf. rewrite Hleaf.
    pose proof (n_keys_nonneg c).
    eexists. split; [reflexivity |]. split.
    + simpl. split_and!; try done; first [by exists 0%nat | lia].
    + rewrite stack_rrest_cons. unfold frame_rrest. simpl.
      rewrite Hleaf, collect_items_fast_eq, Hleaf.
      rewrite take_ge; [done |]. unfold n_keys. lia.
  - pose proof Hshape as (_ & _ & Hleaf & Hlen & Hall)%shape_internal. rewrite Hleaf.
    pose proof (n_keys_nonneg c).
    destruct (lookup_lt_is_Some_2 (children c) (length (slots c))) as [c0 Hc0]; [lia |].
    rewrite Hc0.
    rewrite Forall_lookup in Hall. destruct (Hall _ _ Hc0) as [_ Hshape0].
    destruct (IH c0 (mkFrame c (n_keys c - 1) :: st)) as (st' & Hd & Hok' & Hrest);
      try done.
    { simpl. lia. }
    { simpl. split_and!; try done; first [by exists (S h) | lia]. }
    exists st'. split_and!; try done.
    rewrite Hrest, stack_rrest_cons. unfold frame_rrest. simpl.
    rewrite Hleaf. rewrite (collect_items_fast_eq c), Hleaf.
    rewrite (zipio_last _ _ c0) by done.
    replace (Z.to_nat (n_keys c - 1 + 1)) with (length (slots c))
      by (unfold n_keys; lia).
    rewrite (take_ge (slots c)) by lia.
    by rewrite reverse_app, <- app_assoc.
Qed.

(** One step of the backward walk. *)
Lemma btreereviter_next_loop_spec t remaining st :
  bwd_ok t st ->
  exists res,
    btreereviter_next_loop remaining st = Some res /\
    match stack_rrest st with
    | [] => res = (None, remaining, [])
    | s :: out =>
        exists st', res = (Some s.1, remaining - 1, st') /\
                    bwd_ok t st' /\ stack_rrest st' = out
    end.
Proof.
  induction st as [| f rest IH]; intros Hok.
  - eexists. split; [reflexivity |]. done.
  - destruct Hok as ((h & Hshape & Hroom) & Hidx & Hrest).
    destruct f as [node idx]. simpl in *.
    destruct (Z.leb_spec 0 idx) as [Hle | Hneg].
    + assert (idx = Z.of_nat (Z.to_nat idx)) as Hi by lia.
      set (i := Z.to_nat idx) in *. rewrite Hi. rewrite slot_at_lookup.
      destruct (lookup_lt_is_Some_2 (slots node) i) as [s Hs];
        [unfold n_keys in Hidx; lia |].
      rewrite Hs. simpl.
      rewrite stack_rrest_cons. unfold frame_rrest at 1. simpl.
      replace (Z.to_nat (Z.of_nat i + 1)) with (S i) by lia.
      rewrite (take_S_r _ _ _ Hs).
      destruct h as [| h].
      * pose proof Hshape as (_ & _ & Hleaf & _)%shape_leaf. rewrite Hleaf. simpl.
        rewrite reverse_snoc.
        eexists. split; [reflexivity |].
        eexists. split; [reflexivity |]. split.
        -- simpl. split_and!; try done; first [by exists 0%nat | lia].
        -- rewrite stack_rrest_cons. unfold frame_rrest. simpl.
           rewrite Hleaf. by replace (Z.to_nat (Z.of_nat i - 1 + 1)) with i by lia.
      * pose proof Hshape as (_ & _ & Hleaf & Hlen & Hall)%shape_internal.
        rewrite Hleaf. simpl. rewrite child_at_lookup.
        destruct (lookup_lt_is_Some_2 (children node) i) as [c Hc];
          [unfold n_keys in Hidx; lia |].
        rewrite Hc. rewrite (take_S_r _ _ _ Hc).
        rewrite Forall_lookup in Hall. destruct (Hall _ _ Hc) as [_ Hcshape].
        destruct (iter_descend_right_spec t h c (mkFrame node (Z.of_nat i - 1) :: rest))
          as (st' & Hd & Hok' & Hrest'); try done.
        { simpl. lia. }
        { simpl. split_and!; try done; first [by exists (S h) | lia]. }
        rewrite Hd. simpl.
        rewrite zl_snoc
          by (rewrite !length_take; unfold n_keys in Hidx; lia).
        rewrite app_assoc, reverse_snoc.
        eexists. split; [reflexivity |].
        eexists. split; [reflexivity |]. split; [done |].
        rewrite Hrest', stack_rrest_cons. unfold frame_rrest at 1. simpl.
        rewrite Hleaf. replace (Z.to_nat (Z.of_nat i - 1 + 1)) with i by lia.
        by rewrite reverse_app, <- app_assoc.
    + destruct (IH Hrest) as (res & Hres & Hout).
      exists res. split; [done |].
      rewrite stack_rrest_cons. unfold frame_rrest at 1. simpl.
      replace (Z.to_nat (idx + 1)) with 0%nat by lia.
      by destruct (is_leaf node).
Qed.

Lemma iter_yields_backward t out :
  forall st rem btree,
    bwd_ok t st -> stack_rrest st = out ->
    iter_yields btreereviter_next (mkIter btree rem st) out.*1.
Proof.
  induction out as [| s out IH]; intros st rem btree Hok Hout;
    destruct (btreereviter_next_loop_spec t rem st Hok) as (res & Hres & Hpost);
    rewrite Hout in Hpost.
  - subst res. eapply iter_yields_done. unfold btreereviter_next. simpl.
    rewrite Hres. reflexivity.
  - destruct Hpost as (st' & -> & Hok' & Hout').
    eapply iter_yields_step.
    + unfold btreereviter_next. simpl. rewrite Hres. reflexivity.
    + by apply IH.
Qed.

Lemma btree_reversed_spec btree :
  wf_tree btree -> size btree <= PY_SSIZE_T_MAX ->
  exists it, btree_reversed btree = Some it /\
             iter_yields btreereviter_next it (reverse (items btree).*1).
Proof.
  intros (r & h & Hroot & Ht & Hshape & Hord & Hleaf & Hsize) Hmax.
  unfold btree_reversed, items. rewrite Hroot. rewrite <- fmap_reverse.
  destruct (Z.gtb_spec (n_keys r) 0) as [Hn | Hn].
  - destruct (iter_descend_right_spec (tree_order btree) h r []) as (st & -> & Hok & Hrest);
      try done.
    { apply (root_room (tree_order btree) h r); try done; lia. }
    eexists. split; [reflexivity |].
    apply (iter_yields_backward (tree_order btree)); [done |].
    rewrite Hrest. apply app_nil_r.
  - eexists. split; [reflexivity |].
    rewrite (empty_root_items (tree_order btree) h r) by (done || lia).
    by apply (iter_yields_backward (tree_order btree) []).
Qed.

End reverse_iter.

(** ** Range iteration *)

Section range_defs.
Context {H : Host}.

(** The bound predicate of a range: [lo <= k] or [lo < k], and [k < hi] or
    [k <= hi], an absent bound being no constraint. *)
Definition above (lo : option PyObject) (inclusive : bool) (k : PyObject) : bool :=
  match lo with
  | None => true
  | Some m => if inclusive then 0 <=? compare_keys k m else 0 <? compare_keys k m
  end.

Definition below (hi : option PyObject) (inclusive : bool) (k : PyObject) : bool :=
  match hi with
  | None => true
  | Some m => if inclusive then compare_keys k m <=? 0 else compare_keys k m <? 0
  end.

Definition in_range (lo hi : option PyObject) (imin imax : bool) (k : PyObject) : bool :=
  above lo imin k && below hi imax k.

End range_defs.

Section range_seek.
Context {H : Host} {Htot : cmp_total}.
#[local] Abbreviation ino := collect_items_fast.
#[local] Abbreviation fwd_ok t := (stack_ok t 0 n_keys).

Lemma above_lt key imin k : klt k key -> above (Some key) imin k = false.
Proof. unfold klt, above. intros ->. by destruct imin. Qed.

Lemma above_gt key imin k : klt key k -> above (Some key) imin k = true.
Proof. intros Hk%cmp_gt_iff. unfold above. rewrite Hk. by destruct imin. Qed.

Lemma above_eq key imin k : keq key k -> above (Some key) imin k = imin.
Proof. intros Hk%keq_sym. unfold keq, above in *. rewrite Hk. by destruct imin. Qed.

Lemma above_up lo imin x y : klt x y -> above lo imin x = true -> above lo imin y = true.
Proof.
  destruct lo as [key |]; [| done]. intros Hxy Hx.
  destruct (cmp_cases x key) as [Hc | [Hc | Hc]].
  - by rewrite above_lt in Hx.
  - apply above_gt. eapply klt_keq_l; [exact Hc | done].
  - apply above_gt. exact (cmp_trans _ _ _ Hc Hxy).
Qed.

Lemma above_down lo imin x y : klt x y -> above lo imin y = false -> above lo imin x = false.
Proof.
  intros Hxy Hy. destruct (above lo imin x) eqn:Hx; [| done].
  by rewrite (above_up lo imin x y Hxy Hx) in Hy.
Qed.

Lemma below_down hi imax x y : klt x y -> below hi imax y = true -> below hi imax x = true.
Proof.
  destruct hi as [key |]; [| done]. unfold below. intros Hxy Hy.
  assert (klt x key) as Hx.
  { destruct (cmp_cases y key) as [Hc | [Hc | Hc]].
    - exact (cmp_trans _ _ _ Hxy Hc).
    - eapply klt_keq_r; [exact Hc | done].
    - apply cmp_gt_iff in Hc. rewrite Hc in Hy. by destruct imax. }
  unfold klt in Hx. rewrite Hx. by destruct imax.
Qed.

Lemma filter_none {A : Type} (f : A -> bool) l :
  Forall (fun x => f x = false) l -> List.filter f l = [].
Proof. induction 1 as [| x l Hx _ IH]; simpl; [done |]. by rewrite Hx. Qed.

Lemma filter_all {A : Type} (f : A -> bool) l :
  Forall (fun x => f x = true) l -> List.filter f l = l.
Proof. induction 1 as [| x l Hx _ IH]; simpl; [done |]. by rewrite Hx, IH. Qed.

Lemma filter_fst {A B : Type} (f : A -> bool) (l : list (A * B)) :
  (List.filter (fun x => f x.1) l).*1 = List.filter f l.*1.
Proof.
  induction l as [| x l IH]; simpl; [done |].
  destruct (f x.1); simpl; by f_equal.
Qed.

Lemma sorted_filter (f : slot -> bool) l : sorted l -> sorted (List.filter f l).
Proof.
  induction l as [| s l IH]; simpl; [done |].
  intros [Hall Hs]%sorted_cons. destruct (f s); [| by apply IH].
  apply sorted_cons. split; [| by apply IH].
  apply Forall_forall. intros x Hx%list_elem_of_In%filter_In.
  rewrite Forall_forall in Hall. apply Hall. apply list_elem_of_In. tauto.
Qed.

(** A property closed under smaller keys that holds of the slots left of a
    child holds of everything walked before that child. *)
Lemma zl_closed (P : slot -> Prop) (cs : list PyBTreeNode) (ss : list slot) :
  (forall x y, klt x.1 y.1 -> P y -> P x) ->
  length cs = length ss -> sorted (zl ino cs ss) -> Forall P ss -> Forall P (zl ino cs ss).
Proof.
  intros Hclosed. revert ss. induction cs as [| c cs IH]; intros [| s ss] Hlen Hs Hall;
    simpl in *; try done.
  apply Forall_cons in Hall as [Hps Hall].
  apply sorted_app in Hs as (_ & Hs & Hcross).
  apply sorted_cons in Hs as [_ Hs].
  apply Forall_app. split.
  - eapply Forall_impl; [exact Hcross |]. intros x Hx.
    apply Forall_inv in Hx. by apply (Hclosed x s).
  - constructor; [done |]. apply IH; [lia | done | done].
Qed.

Lemma zr_closed (P : slot -> Prop) (ss : list slot) (cs : list PyBTreeNode) :
  (forall x y, klt x.1 y.1 -> P x -> P y) ->
  sorted (zr ino ss cs) -> Forall P ss -> Forall P (zr ino ss cs).
Proof.
  intros Hclosed. revert cs. induction ss as [| s ss IH]; intros [| c cs] Hs Hall;
    simpl in *; try done.
  apply Forall_cons in Hall as [Hps Hall].
  apply sorted_cons in Hs as [Habove Hs].
  apply sorted_app in Hs as (_ & Hs & _).
  apply Forall_app in Habove as [Hc _].
  constructor; [done |]. apply Forall_app. split.
  - eapply Forall_impl; [exact Hc |]. intros x Hx. by apply (Hclosed s x).
  - by apply IH.
Qed.

(** Where the seek positions a frame in a node with sorted slots. *)
Lemma seek_index node key imin :
  sorted (slots node) ->
  exists ss1 ss2 found,
    node_search_key node key = (Z.of_nat (length ss1) - (if found && negb imin then 1 else 0), found) /\
    (found && negb imin = true -> (1 <= length ss1)%nat) /\
    slots node = ss1 ++ ss2 /\
    Forall (fun x => above (Some key) imin x.1 = false) ss1 /\
    Forall (fun x => above (Some key) imin x.1 = true) ss2.
Proof.
  intros Hs. pose proof (node_search_key_slots node key Hs) as Hsr.
  destruct (node_search_key node key) as [z found].
  destruct Hsr as (l1 & l2 & Hz & Hlo & Hhi & Hcase). simpl in Hz, Hcase. subst z.
  assert (Forall (fun x => above (Some key) imin x.1 = false) l1) as Hlo'.
  { eapply Forall_impl; [exact Hlo |]. intros x Hx. by apply above_lt. }
  assert (Forall (fun x => above (Some key) imin x.1 = true) l2) as Hhi'.
  { eapply Forall_impl; [exact Hhi |]. intros x Hx. by apply above_gt. }
  destruct found; [destruct Hcase as (s & Hss & Heq); destruct imin |].
  - exists l1, (s :: l2), true. simpl. split_and!; try done.
    + f_equal. lia.
    + constructor; [| done]. exact (above_eq key true s.1 Heq).
  - exists (l1 ++ [s]), l2, true. simpl. split_and!; try done.
    + f_equal. rewrite length_app. simpl. lia.
    + rewrite length_app. simpl. lia.
    + by rewrite <- app_assoc.
    + apply Forall_app. split; [done |]. constructor; [| done].
      exact (above_eq key false s.1 Heq).
  - exists l1, l2, false. simpl. split_and!; try done. f_equal. lia.
Qed.

Lemma range_iter_descend_to_start_eq lo imin node stack :
  range_iter_descend_to_start lo imin node stack =
  match lo with
  | None =>
      match push (mkFrame node 0) stack with
      | None => None
      | Some stack' =>
          if is_leaf node then Some stack'
          else match children node !! 0%nat with
               | Some c => range_iter_descend_to_start lo imin c stack'
               | None => Some stack'
               end
      end
  | Some key =>
      let '(idx, found) := node_search_key node key in
      if idx <? 0 then None
      else
        let idx := if found && negb imin then idx + 1 else idx in
        match push (mkFrame node idx) stack with
        | None => None
        | Some stack' =>
            if is_leaf node then Some stack'
            else if found && negb imin && negb (idx <=? n_keys node) then Some stack'
            else match children node !! Z.to_nat idx with
                 | Some c => range_iter_descend_to_start lo imin c stack'
                 | None => Some stack'
                 end
        end
  end.
Proof.
  destruct node as [leaf ss cs t]. simpl. destruct lo as [key |].
  - destruct (node_search_key _ key) as [idx found].
    destruct (idx <? 0); [done |]. destruct (push _ stack); [| done].
    by rewrite with_nth_lookup.
  - destruct (push _ stack); [| done]. by rewrite with_nth_lookup.
Qed.

Lemma range_seek_none t imin h node st :
  shape t h node ->
  range_iter_descend_to_start None imin node st = iter_descend_left node st.
Proof.
  revert node st. induction h as [| h IH]; intros node st Hshape;
    rewrite range_iter_descend_to_start_eq, iter_descend_left_eq;
    destruct (push _ st) as [st' |]; try done.
  - by pose proof Hshape as (_ & _ & -> & _)%shape_leaf.
  - pose proof Hshape as (_ & _ & -> & _ & Hall)%shape_internal.
    destruct (children node !! 0%nat) as [c |] eqn:Hc; [| done].
    rewrite Forall_lookup in Hall. destruct (Hall _ _ Hc) as [_ Hcshape].
    by apply IH.
Qed.

(** The seek leaves on the stack exactly the items that satisfy the lower
    bound. *)
Lemma range_seek_spec t lo imin h node st :
  shape t h node -> sorted (ino node) ->
  Z.of_nat (length st) + Z.of_nat h + 1 <= ITER_STACK_SIZE ->
  fwd_ok t st ->
  exists st',
    range_iter_descend_to_start lo imin node st = Some st' /\
    fwd_ok t st' /\
    stack_rest st' = List.filter (fun x => above lo imin x.1) (ino node) ++ stack_rest st.
Proof.
  destruct lo as [key |]; cycle 1.
  { intros Hshape _ Hroom Hok. rewrite (range_seek_none t imin h) by done.
    destruct (iter_descend_left_spec t h node st) as (st' & Hd & Hok' & Hrest); try done.
    exists st'. split_and!; try done. rewrite Hrest. f_equal.
    symmetry. apply filter_all. by apply Forall_true. }
  revert node st. induction h as [| h IH]; intros node st Hshape Hsorted Hroom Hok;
    rewrite range_iter_descend_to_start_eq.
  - pose proof Hshape as (_ & _ & Hleaf & _)%shape_leaf.
    rewrite collect_items_fast_eq, Hleaf in Hsorted |- *.
    destruct (seek_index node key imin Hsorted) as (ss1 & ss2 & found & -> & Hpos & Hss & Hlo & Hhi).
    assert ((Z.of_nat (length ss1) - (if found && negb imin then 1 else 0) <? 0) = false) as ->.
    { destruct (found && negb imin); [specialize (Hpos eq_refl) |]; lia. }
    assert ((if found && negb imin
             then Z.of_nat (length ss1) - (if found && negb imin then 1 else 0) + 1
             else Z.of_nat (length ss1) - (if found && negb imin then 1 else 0))
            = Z.of_nat (length ss1)) as ->.
    { destruct (found && negb imin); lia. }
    cbv zeta. rewrite push_room by lia. rewrite ?Hleaf.
    eexists. split; [reflexivity |]. split.
    + simpl. split_and!; try done; first [by exists 0%nat | lia | idtac].
      unfold n_keys. rewrite Hss, length_app. lia.
    + rewrite stack_rest_cons. unfold frame_rest. cbn [frame_node key_idx].
      rewrite Hleaf, Nat2Z.id, Hss, drop_app_length.
      by rewrite List.filter_app, filter_none, filter_all.
  - pose proof Hshape as (_ & _ & Hleaf & Hlen & Hall)%shape_internal.
    rewrite collect_items_fast_eq, Hleaf in Hsorted |- *.
    destruct (zipio_sorted_inv _ _ Hlen Hsorted) as (Hss_sorted & Hcs_sorted & _).
    destruct (seek_index node key imin Hss_sorted)
      as (ss1 & ss2 & found & -> & Hpos & Hss & Hlo & Hhi).
    assert ((Z.of_nat (length ss1) - (if found && negb imin then 1 else 0) <? 0) = false) as ->.
    { destruct (found && negb imin); [specialize (Hpos eq_refl) |]; lia. }
    assert ((if found && negb imin
             then Z.of_nat (length ss1) - (if found && negb imin then 1 else 0) + 1
             else Z.of_nat (length ss1) - (if found && negb imin then 1 else 0))
            = Z.of_nat (length ss1)) as ->.
    { destruct (found && negb imin); lia. }
    cbv zeta. rewrite push_room by lia. rewrite ?Hleaf.
    assert (Z.of_nat (length ss1) <= n_keys node) as Hidx.
    { unfold n_keys. rewrite Hss, length_app. lia. }
    assert ((found && negb imin && negb (Z.of_nat (length ss1) <=? n_keys node)) = false) as ->.
    { destruct (Z.leb_spec (Z.of_nat (length ss1)) (n_keys node)); [| lia].
      by rewrite andb_false_r. }
    rewrite Nat2Z.id.
    destruct (lookup_lt_is_Some_2 (children node) (length ss1)) as [c Hc];
      [unfold n_keys in Hidx; lia |].
    rewrite Hc.
    destruct (children_focus (children node) (slots node) (length ss1) c Hlen Hc)
      as (cs1 & cs2 & l1 & l2 & Hcs & Hsl & Hcs1 & Hl1 & Hcs2).
    assert (l1 = ss1 /\ l2 = ss2) as [-> ->].
    { rewrite Hss in Hsl. by apply app_inj_1 in Hsl as [-> ->]. }
    rewrite Hcs, Hss in Hsorted |- *.
    rewrite zipio_focus in Hsorted |- * by done.
    pose proof Hsorted as (HsL & (Hsc & HsR & _)%sorted_app & _)%sorted_app.
    rewrite Hcs, Forall_app, Forall_cons in Hall. destruct Hall as (_ & [_ Hcshape] & _).
    destruct (IH c (mkFrame node (Z.of_nat (length ss1)) :: st)) as (st' & Hd & Hok' & Hrest);
      try done.
    { simpl. lia. }
    { simpl. split_and!; try done; first [by exists (S h) | lia]. }
    exists st'. split_and!; try done.
    rewrite Hrest, stack_rest_cons. unfold frame_rest at 1. cbn [frame_node key_idx].
    rewrite Hleaf, Nat2Z.id, Hss, Hcs, drop_app_length.
    replace (drop (S (length ss1)) (cs1 ++ c :: cs2)) with cs2
      by (rewrite cons_middle, app_assoc, drop_app_length';
          [done | rewrite length_app; simpl; lia]).
    rewrite !List.filter_app.
    rewrite (filter_none _ (zl ino cs1 ss1)), (filter_all _ (zr ino ss2 cs2)).
    + simpl. by rewrite <- app_assoc.
    + apply (zr_closed (fun x => above (Some key) imin x.1 = true)); try done.
      intros x y. apply above_up.
    + apply (zl_closed (fun x => above (Some key) imin x.1 = false)); try done.
      intros x y. apply above_down.
Qed.

End range_seek.

Section range_step.
Context {H : Host} {Htot : cmp_total}.
#[local] Abbreviation ino := collect_items_fast.
#[local] Abbreviation fwd_ok t := (stack_ok t 0 n_keys).

(** The two tests of [btreerangeiter_next] on the comparison with
    [max_key]. *)
Lemma max_key_test (hi : option PyObject) (imax : bool) (k : PyObject) :
  let c := match hi with Some m => compare_keys k m | None => -1 end in
  (c =? -2) = false /\
  (if imax then c >? 0 else c >=? 0) = negb (below hi imax k).
Proof.
  destruct hi as [m |]; simpl.
  - destruct (cmp_range k m) as [-> | [-> | ->]]; by destruct imax.
  - by destruct imax.
Qed.

(** Moving a frame past its pending slot [s], descending into the child to
    the right of [s]. *)
Lemma advance_spec t node (i : nat) rest s :
  fwd_ok t (mkFrame node (Z.of_nat i) :: rest) ->
  slots node !! i = Some s ->
  let frame' := mkFrame node (Z.of_nat i + 1) in
  exists st',
    (if is_leaf node then Some (frame' :: rest)
     else match child_at node (key_idx frame') with
          | Some c => iter_descend_left c (frame' :: rest)
          | None => Some (frame' :: rest)
          end) = Some st' /\
    fwd_ok t st' /\
    stack_rest (mkFrame node (Z.of_nat i) :: rest) = s :: stack_rest st'.
Proof.
  intros ((h & Hshape & Hroom) & Hidx & Hrest) Hs. cbn [frame_node key_idx] in *.
  pose proof (lookup_lt_Some _ _ _ Hs) as Hlt.
  cbv zeta. cbn [key_idx].
  replace (Z.of_nat i + 1) with (Z.of_nat (S i)) by lia.
  rewrite stack_rest_cons. unfold frame_rest at 1. cbn [frame_node key_idx].
  rewrite Nat2Z.id, (drop_S _ _ _ Hs).
  destruct h as [| h].
  - pose proof Hshape as (_ & _ & Hleaf & _)%shape_leaf. rewrite Hleaf.
    eexists. split; [reflexivity |]. split.
    + simpl. split_and!; try done; first [by exists 0%nat | unfold n_keys in *; lia].
    + rewrite stack_rest_cons. unfold frame_rest. cbn [frame_node key_idx].
      by rewrite Hleaf, Nat2Z.id.
  - pose proof Hshape as (_ & _ & Hleaf & Hlen & Hall)%shape_internal.
    rewrite Hleaf, child_at_lookup.
    destruct (lookup_lt_is_Some_2 (children node) (S i)) as [c Hc]; [lia |].
    rewrite Hc, (drop_S _ _ _ Hc).
    rewrite Forall_lookup in Hall. destruct (Hall _ _ Hc) as [_ Hcshape].
    destruct (iter_descend_left_spec t h c (mkFrame node (Z.of_nat (S i)) :: rest))
      as (st' & Hd & Hok' & Hrest'); try done.
    { simpl. lia. }
    { simpl. split_and!; try done; first [by exists (S h) | unfold n_keys in *; lia]. }
    exists st'. split_and!; try done.
    rewrite Hrest', stack_rest_cons. unfold frame_rest at 1. cbn [frame_node key_idx].
    rewrite Hleaf, Nat2Z.id. simpl. by rewrite <- app_assoc.
Qed.

(** One step of the range walk: the first pending slot comes out if it is
    within the upper bound, and otherwise the walk stops where it stands. *)
Lemma btreerangeiter_next_loop_spec t hi imax st :
  fwd_ok t st ->
  exists res,
    btreerangeiter_next_loop hi imax st = Some res /\
    match stack_rest st with
    | [] => res = (Return None, [])
    | s :: out =>
        exists st', fwd_ok t st' /\
          if below hi imax s.1
          then res = (Return (Some s.1), st') /\ stack_rest st' = out
          else res = (Return None, st') /\ stack_rest st' = s :: out
    end.
Proof.
  induction st as [| f rest IH]; intros Hok.
  - eexists. split; [reflexivity |]. done.
  - destruct f as [node idx].
    cbn [btreerangeiter_next_loop frame_node key_idx].
    destruct (Z.ltb_spec idx (n_keys node)) as [Hlt | Hge].
    + assert (idx = Z.of_nat (Z.to_nat idx)) as Hi by (simpl in Hok; lia).
      set (i := Z.to_nat idx) in *. rewrite Hi in Hok |- *. rewrite slot_at_lookup.
      destruct (lookup_lt_is_Some_2 (slots node) i) as [s Hs];
        [unfold n_keys in Hlt; lia |].
      rewrite Hs. cbn [mbind option_bind].
      destruct (max_key_test hi imax s.1) as [-> ->].
      destruct (advance_spec t node i rest s Hok Hs) as (st' & Hadv & Hok' & Hpending).
      cbv zeta in Hadv. cbn [key_idx] in Hadv. rewrite Hpending.
      destruct (below hi imax s.1); cbn [negb].
      * rewrite Hadv. cbn [mbind option_bind].
        eexists. split; [reflexivity |]. by exists st'.
      * eexists. split; [reflexivity |].
        eexists. split; [exact Hok |]. done.
    + destruct Hok as (_ & Hidx & Hrest). cbn [frame_node key_idx] in Hidx.
      destruct (IH Hrest) as (res & Hres & Hout).
      exists res. split; [done |].
      rewrite stack_rest_cons. unfold frame_rest at 1. cbn [frame_node key_idx].
      assert (Z.to_nat idx = length (slots node)) as -> by (unfold n_keys in *; lia).
      rewrite drop_all. by destruct (is_leaf node).
Qed.

End range_step.

Section range_top.
Context {H : Host} {Htot : cmp_total}.
#[local] Abbreviation ino := collect_items_fast.
#[local] Abbreviation fwd_ok t := (stack_ok t 0 n_keys).

Lemma filter_filter {A : Type} (f g : A -> bool) l :
  List.filter g (List.filter f l) = List.filter (fun x => f x && g x) l.
Proof.
  induction l as [| x l IH]; simpl; [done |].
  destruct (f x); simpl; by rewrite IH.
Qed.

Lemma range_yields_started t out :
  forall st btree lo hi imin imax,
    sorted out -> fwd_ok t st -> stack_rest st = out ->
    range_yields (mkRangeIter btree lo hi imin imax st true)
                 (List.filter (fun x => below hi imax x.1) out).*1.
Proof.
  induction out as [| s out IH]; intros st btree lo hi imin imax Hsorted Hok Hout;
    destruct (btreerangeiter_next_loop_spec t hi imax st Hok) as (res & Hres & Hpost);
    rewrite Hout in Hpost.
  - subst res. eapply range_yields_done. unfold btreerangeiter_next. simpl.
    rewrite Hres. reflexivity.
  - destruct Hpost as (st' & Hok' & Hpost).
    apply sorted_cons in Hsorted as [Habove Hsorted].
    simpl. destruct (below hi imax s.1) eqn:Hb; destruct Hpost as [-> Hout'].
    + eapply range_yields_step.
      * unfold btreerangeiter_next. simpl. rewrite Hres. reflexivity.
      * by apply IH.
    + rewrite filter_none.
      * eapply range_yields_done. unfold btreerangeiter_next. simpl.
        rewrite Hres. reflexivity.
      * eapply Forall_impl; [exact Habove |]. intros x Hx. simpl in Hx.
        destruct (below hi imax x.1) eqn:Hbx; [| done].
        by rewrite (below_down hi imax s.1 x.1 Hx Hbx) in Hb.
Qed.

Lemma range_yields_next it1 it2 ks :
  btreerangeiter_next it1 = btreerangeiter_next it2 ->
  range_yields it1 ks -> range_yields it2 ks.
Proof.
  intros Heq Hy. destruct Hy as [it it' Hn | it k it' ks Hn Hy]; rewrite Heq in Hn.
  - by eapply range_yields_done.
  - by eapply range_yields_step.
Qed.

Lemma range_yields_unique it ks1 ks2 :
  range_yields it ks1 -> range_yields it ks2 -> ks1 = ks2.
Proof.
  intros Hy1. revert ks2. induction Hy1 as [it it1 Hn1 | it k1 it1 ks1 Hn1 Hy1 IH];
    intros ks2 Hy2; destruct Hy2 as [it it2 Hn2 | it k2 it2 ks2 Hn2 Hy2];
    try congruence.
  assert (k1 = k2 /\ it1 = it2) as [-> ->] by (split; congruence).
  f_equal. by apply IH.
Qed.

(** A fresh range iterator yields the keys within its bounds, in order. *)
Lemma range_iter_spec btree lo hi imin imax :
  wf_tree btree -> size btree <= PY_SSIZE_T_MAX ->
  range_yields (mkRangeIter btree lo hi imin imax [] false)
               (List.filter (in_range lo hi imin imax) (items btree).*1).
Proof.
  intros Hwf Hmax. pose proof (wf_tree_sorted btree Hwf) as Hsorted.
  destruct Hwf as (r & h & Hroot & Ht & Hshape & Hord & Hleaf & Hsize).
  unfold items in *. rewrite Hroot in *.
  assert (exists st0,
    (if n_keys r >? 0 then range_iter_descend_to_start lo imin r [] else Some []) = Some st0 /\
    fwd_ok (tree_order btree) st0 /\
    stack_rest st0 = List.filter (fun x => above lo imin x.1) (ino r))
    as (st0 & Hseek & Hok & Hrest).
  { destruct (Z.gtb_spec (n_keys r) 0) as [Hn | Hn].
    - destruct (range_seek_spec (tree_order btree) lo imin h r []) as (st0 & Hd & Hok & Hrest);
        try done.
      { apply (root_room (tree_order btree) h r); try done; lia. }
      exists st0. split_and!; try done. by rewrite Hrest, app_nil_r.
    - exists []. split_and!; try done.
      by rewrite (empty_root_items (tree_order btree) h r) by (done || lia). }
  apply (range_yields_next (mkRangeIter btree lo hi imin imax st0 true)).
  { unfold btreerangeiter_next. simpl. by rewrite Hroot, Hseek. }
  unfold in_range. rewrite <- filter_fst.
  rewrite <- (filter_filter (fun x => above lo imin x.1) (fun x => below hi imax x.1)).
  apply (range_yields_started (tree_order btree)); try done.
  by apply sorted_filter.
Qed.

(** Bounds that exclude every key. *)
Lemma in_range_crossed lo hi imin imax k :
  klt hi lo -> in_range (Some lo) (Some hi) imin imax k = false.
Proof.
  intros Hcross. unfold in_range.
  destruct (above (Some lo) imin k) eqn:Ha; [| done]. simpl.
  assert (klt hi k) as Hk.
  { destruct (cmp_cases k lo) as [Hc | [Hc | Hc]].
    - by rewrite above_lt in Ha.
    - eapply klt_keq_r; [apply keq_sym; exact Hc | done].
    - exact (cmp_trans _ _ _ Hcross Hc). }
  apply cmp_gt_iff in Hk. unfold below. rewrite Hk. by destruct imax.
Qed.

Lemma in_range_point lo hi imin imax k :
  keq lo hi -> imin && imax = false -> in_range (Some lo) (Some hi) imin imax k = false.
Proof.
  intros Heq Hex. unfold in_range, above, below.
  destruct (cmp_cases k lo) as [Hc | [Hc | Hc]].
  - pose proof (klt_keq_r k lo hi Heq Hc) as Hc'. unfold klt in Hc, Hc'.
    rewrite Hc, Hc'. by destruct imin, imax.
  - pose proof (keq_trans k lo hi Hc Heq) as Hc'. unfold keq in Hc, Hc'.
    rewrite Hc, Hc'. by destruct imin, imax.
  - pose proof (klt_keq_l lo hi k Heq Hc) as Hc'. apply cmp_gt_iff in Hc, Hc'.
    rewrite Hc, Hc'. by destruct imin, imax.
Qed.

End range_top.

(** ** peekitem and popitem *)

Section first_last.
Context {H : Host} {Htot : cmp_total}.
#[local] Abbreviation ino := collect_items_fast.

Lemma wf_tree_nonempty btree :
  wf_tree btree -> items btree <> [] ->
  size btree <> 0 /\
  exists r h, root btree = Some r /\ shape (tree_order btree) h r /\
              2 <= tree_order btree /\ 1 <= n_keys r.
Proof.
  intros Hwf Hne. pose proof (wf_tree_size btree Hwf) as Hsize.
  destruct Hwf as (r & h & Hroot & Ht & Hshape & Hord & Hleaf & _).
  unfold items in *. rewrite Hroot in *. split.
  - destruct (ino r); [done | simpl in Hsize; lia].
  - exists r, h. split_and!; try done.
    pose proof (n_keys_nonneg r).
    destruct (decide (n_keys r = 0)) as [Hz | Hnz]; [| lia].
    exfalso. apply Hne. apply (empty_root_items (tree_order btree) h r); [done | done | lia].
Qed.

Lemma ends_first btree s l :
  wf_tree btree -> items btree = s :: l ->
  exists r, root btree = Some r /\ leftmost_slot r = Some s /\
            PyBTree_GetMin btree = Some (Some s.1).
Proof.
  intros Hwf Hl.
  destruct (wf_tree_nonempty btree Hwf) as (_ & r & h & Hroot & Hshape & Ht & Hn);
    [by rewrite Hl |].
  destruct (leftmost_slot_spec _ h r Ht Hshape Hn) as (s' & Y & Hs & Hino).
  unfold items in Hl. rewrite Hroot, Hino in Hl. injection Hl as -> ->.
  exists r. split_and!; try done.
  unfold PyBTree_GetMin, get_min_from_node. rewrite Hroot, Hs.
  by destruct (Z.eqb_spec (n_keys r) 0); [lia |].
Qed.

Lemma ends_last btree l s :
  wf_tree btree -> items btree = l ++ [s] ->
  exists r, root btree = Some r /\ rightmost_slot r = Some s /\
            PyBTree_GetMax btree = Some (Some s.1).
Proof.
  intros Hwf Hl.
  destruct (wf_tree_nonempty btree Hwf) as (_ & r & h & Hroot & Hshape & Ht & Hn);
    [rewrite Hl; by destruct l |].
  destruct (rightmost_slot_spec _ h r Ht Hshape Hn) as (X & s' & Hs & Hino).
  unfold items in Hl. rewrite Hroot, Hino in Hl. apply app_inj_tail in Hl as [-> ->].
  exists r. split_and!; try done.
  unfold PyBTree_GetMax, get_max_from_node. rewrite Hroot, Hs.
  by destruct (Z.eqb_spec (n_keys r) 0); [lia |].
Qed.

(** Removing a key known to be stored, as [popitem] does. *)
Lemma pop_key btree s l' :
  wf_tree btree ->
  list_lookup s.1 (items btree) = Some s.2 ->
  list_delete s.1 (items btree) = l' ->
  exists btree',
    match PyBTree_Search btree s.1 with
    | Raise e => Some (Raise e, btree)
    | Return None => Some (Raise RuntimeError, btree)
    | Return (Some value) =>
        '(r, btree') ← PyBTree_Delete btree s.1;
        match r with
        | Raise e => Some (Raise e, btree')
        | Return _ => Some (Return (s.1, value), btree')
        end
    end = Some (Return s, btree') /\
    wf_tree btree' /\ items btree' = l' /\ size btree' = size btree - 1.
Proof.
  intros Hwf Hlook Hdel.
  destruct (PyBTree_Search_spec btree s.1 (wf_tree_searchable btree Hwf)) as [-> _].
  rewrite Hlook.
  destruct (PyBTree_Delete_spec btree s.1 Hwf) as (r & btree' & -> & _ & Hitems & _ & Hcase).
  assert (list_mem s.1 (items btree) = true) as Hmem.
  { unfold list_mem. rewrite Hlook. by apply bool_decide_eq_true_2. }
  rewrite Hmem in Hcase. destruct Hcase as (-> & Hsize & Hwf').
  exists btree'. simpl. split_and!; try done; [by destruct s | congruence].
Qed.

End first_last.

(** ** Bulk insertion: update and copy *)

Section bulk.
Context {H : Host} {Htot : cmp_total}.

Lemma insert_items_spec l :
  forall btree, wf_tree btree ->
    exists btree',
      insert_items btree l = Some (Return 0, btree') /\
      wf_tree btree' /\ tree_order btree' = tree_order btree /\
      items btree' = foldl (fun acc s => list_insert s.1 s.2 acc) (items btree) l.
Proof.
  induction l as [| [key value] l IH]; intros btree Hwf; simpl.
  - by exists btree.
  - destruct (PyBTree_Insert_spec btree key value Hwf) as (b1 & -> & Hwf1 & Ho1 & Hi1 & _).
    simpl. destruct (IH b1 Hwf1) as (b2 & -> & Hwf2 & Ho2 & Hi2).
    exists b2. split_and!; try done; congruence.
Qed.

Lemma PyBTree_New_wf order btree : PyBTree_New order = Some btree -> wf_tree btree.
Proof.
  unfold PyBTree_New. set (t := if order <? BTREE_MIN_ORDER then _ else _).
  assert (2 <= t) as Ht.
  { unfold t, BTREE_MIN_ORDER, BTREE_DEFAULT_ORDER.
    destruct (Z.ltb_spec order 2); lia. }
  destruct (negb (is_int order)); [done |].
  destruct (negb (is_int (2 * t))); [done |]. intros [= <-].
  exists (btreenode_new t true), 0%nat. simpl.
  split_and!; try done; try lia; try apply sorted_nil. unfold n_keys. simpl. lia.
Qed.

(** An order that [btreenode_new] can size is accepted as it is. *)
Lemma PyBTree_New_fits order :
  2 <= order -> 2 * order <= INT_MAX ->
  PyBTree_New order = Some (mkBTree (Some (btreenode_new order true)) 0 order).
Proof.
  intros Hmin Hmax. unfold PyBTree_New, is_int, INT_MIN, INT_MAX, BTREE_MIN_ORDER in *.
  destruct (Z.ltb_spec order 2); [lia |].
  repeat match goal with
         | |- context [?a <=? ?b] => destruct (Z.leb_spec a b); [| lia]
         end.
  done.
Qed.

Lemma PyBTree_Clear_wf btree : 2 <= tree_order btree -> wf_tree (PyBTree_Clear btree).
Proof.
  intros Ht. exists (btreenode_new (tree_order btree) true), 0%nat. simpl.
  split_and!; try done; try lia; try apply sorted_nil. unfold n_keys. simpl. lia.
Qed.

Lemma PyBTree_Items_spec btree :
  wf_tree btree -> PyBTree_Items btree = Some (items btree).
Proof.
  intros Hwf. pose proof (wf_tree_size btree Hwf) as Hsize.
  unfold PyBTree_Items, collect_into.
  destruct Hwf as (r & h & Hroot & _). unfold items in *. rewrite Hroot in *.
  destruct (Z.gtb_spec (size btree) 0) as [Hpos | Hzero].
  - by rewrite Hsize, Z.eqb_refl.
  - by destruct (collect_items_fast r); [| simpl in Hsize; lia].
Qed.

Lemma btree_copy_wf btree :
  wf_tree btree -> 2 * tree_order btree <= INT_MAX ->
  exists btree', btree_copy btree = Some (Return btree') /\ wf_tree btree'.
Proof.
  intros Hwf Hfits. unfold btree_copy.
  assert (2 <= tree_order btree) as Hmin by (by destruct Hwf as (r & h & _ & Ht & _)).
  pose proof (PyBTree_New_fits _ Hmin Hfits) as Hnew. rewrite Hnew.
  cbn [mbind option_bind]. rewrite (PyBTree_Items_spec btree Hwf). simpl.
  destruct (insert_items_spec (items btree) _ (PyBTree_New_wf _ _ Hnew)) as (b & -> & Hwf' & _).
  by exists b.
Qed.

Lemma btree_update_wf self other :
  wf_tree self -> wf_tree other ->
  exists self', btree_update_from_btree self other = Some (Return 0, self') /\ wf_tree self'.
Proof.
  intros Hwf Hwf'. unfold btree_update_from_btree.
  rewrite (PyBTree_Items_spec other Hwf'). simpl.
  destruct (insert_items_spec (items other) self Hwf) as (b & -> & Hwfb & _).
  by exists b.
Qed.

End bulk.

(** ** The integer host *)

#[local] Instance ZHost_total : @cmp_total ZHost.
Proof.
  assert (forall a b : Z, @compare_keys ZHost a b =
            if bool_decide (a = b) then 0 else if a <? b then -1 else 1) as Hcmp.
  { intros a b. unfold compare_keys. simpl. case_bool_decide as Hab; [done |].
    destruct (Z.ltb_spec a b); [done |]. simpl.
    destruct (Z.eqb_spec a b); [done | done]. }
  split; unfold klt, keq.
  - intros a b. rewrite Hcmp. case_bool_decide; [auto |]. destruct (a <? b); auto.
  - intros a b. rewrite !Hcmp.
    repeat case_bool_decide; destruct (Z.ltb_spec a b), (Z.ltb_spec b a);
      split; intros; simpl in *; lia.
  - intros a b c. rewrite !Hcmp.
    repeat case_bool_decide;
      destruct (Z.ltb_spec a b), (Z.ltb_spec b c), (Z.ltb_spec a c);
      intros; simpl in *; lia.
  - intros a b c. rewrite !Hcmp.
    case_bool_decide; [by subst | destruct (a <? b); lia].
Qed.

(** The tree of order 2 that holds 1 .. 7, each key with ten times itself
    as its value. *)
Definition ex_leaf (ks : list Z) : @PyBTreeNode ZHost :=
  mkNode true (map (fun k : Z => (k, 10 * k)) ks) [] 2.

Definition ex_root : @PyBTreeNode ZHost :=
  mkNode false [(2, 20); (4, 40)] [ex_leaf [1]; ex_leaf [3]; ex_leaf [5; 6; 7]] 2.

Definition ex_tree : @PyBTreeObject ZHost := mkBTree (Some ex_root) 7 2.

Lemma ex_tree_built :
  (new_btree ← PyBTree_New (H := ZHost) 2;
   insert_items new_btree (map (fun k : Z => (k, 10 * k)) [1; 2; 3; 4; 5; 6; 7]))
  = Some (Return 0, ex_tree).
Proof. reflexivity. Qed.

Lemma ex_tree_wf : wf_tree ex_tree.
Proof.
  pose proof ex_tree_built as Hbuilt.
  destruct (PyBTree_New (H := ZHost) 2) as [new_btree |] eqn:Hnew; [| done].
  destruct (insert_items_spec (H := ZHost) (map (fun k : Z => (k, 10 * k)) [1; 2; 3; 4; 5; 6; 7])
              new_btree (PyBTree_New_wf _ _ Hnew)) as (b & Hb & Hwf & _).
  cbn [mbind option_bind] in Hbuilt. rewrite Hbuilt in Hb. by injection Hb as <-.
Qed.

(** ** Insertion, deletion, iteration, ranges, the two ends, splitting *)

Section tree_properties.
Context {H : Host} {Htot : cmp_total}.
#[local] Abbreviation ino := collect_items_fast.

Lemma contains_mem btree key :
  wf_tree btree -> (PyBTree_Contains btree key =? 1) = list_mem key (items btree).
Proof.
  intros Hwf.
  destruct (PyBTree_Search_spec btree key (wf_tree_searchable btree Hwf)) as [_ ->].
  by destruct (list_mem key (items btree)).
Qed.

(** C2.  Inserting [(key, value)] into a well-formed tree succeeds.  When
    [key] is present, in a leaf or in an internal node, the pair that holds
    it gets [value] and [size] stays; when it is absent the pair
    [(key, value)] is added and [size] grows by one.  In both cases looking
    [key] up afterwards gives [value], and no other key is affected. *)
Theorem insert_replaces_or_adds btree key value :
  wf_tree btree ->
  exists btree',
    PyBTree_Insert btree key value = Some (Return 0, btree') /\
    wf_tree btree' /\
    PyBTree_Search btree' key = Return (Some value) /\
    (forall k, ~ keq k key -> PyBTree_Search btree' k = PyBTree_Search btree k) /\
    if PyBTree_Contains btree key =? 1
    then size btree' = size btree /\
         exists l1 s l2, items btree = l1 ++ s :: l2 /\ keq key s.1 /\
                         items btree' = l1 ++ (s.1, value) :: l2
    else size btree' = size btree + 1 /\
         exists l1 l2, items btree = l1 ++ l2 /\
                       items btree' = l1 ++ (key, value) :: l2.
Proof.
  intros Hwf.
  destruct (PyBTree_Insert_spec btree key value Hwf) as (b & Hins & Hwf' & _ & Hitems & Hsize).
  exists b. split; [done |]. split; [done |].
  pose proof (PyBTree_Search_spec b) as Hsearch.
  pose proof (wf_tree_searchable b Hwf') as Hb.
  pose proof (PyBTree_Search_spec btree) as Hsearch0.
  pose proof (wf_tree_searchable btree Hwf) as Hb0.
  split_and!.
  - destruct (Hsearch key Hb) as [-> _]. by rewrite Hitems, list_lookup_insert_eq.
  - intros k Hne. destruct (Hsearch k Hb) as [-> _]. destruct (Hsearch0 k Hb0) as [-> _].
    by rewrite Hitems, list_lookup_insert_ne.
  - rewrite (contains_mem btree key Hwf), Hsize, Hitems.
    pose proof (wf_tree_sorted btree Hwf) as Hsorted.
    destruct (list_mem key (items btree)) eqn:Hmem; split; try done.
    + by apply list_insert_present.
    + by apply list_insert_absent.
Qed.

(** Deletion on a well-formed tree.  Deleting a [key] that the tree holds
    succeeds, removes exactly the pair of [key], lowers [size] by one and
    keeps the invariants.  When [key] is absent the call fails with
    [KeyError (key)], and the tree holds the same pairs, answers every
    lookup as before and has the same [size]; its nodes can differ. *)
Theorem delete_removes_or_fails btree key :
  wf_tree btree ->
  exists r btree',
    PyBTree_Delete btree key = Some (r, btree') /\
    if PyBTree_Contains btree key =? 1
    then r = Return 0 /\ size btree' = size btree - 1 /\
         (exists l1 s l2, items btree = l1 ++ s :: l2 /\ keq key s.1 /\
                          items btree' = l1 ++ l2) /\
         PyBTree_Search btree' key = Return None /\
         (forall k, ~ keq k key -> PyBTree_Search btree' k = PyBTree_Search btree k)
    else r = Raise (KeyError (Some key)) /\ size btree' = size btree /\
         items btree' = items btree /\
         (forall k, PyBTree_Search btree' k = PyBTree_Search btree k).
Proof.
  intros Hwf.
  destruct (PyBTree_Delete_spec btree key Hwf) as (r & b & Hdel & _ & Hitems & Hb & Hcase).
  exists r, b. split; [done |].
  rewrite (contains_mem btree key Hwf).
  pose proof (wf_tree_sorted btree Hwf) as Hsorted.
  destruct (list_mem key (items btree)) eqn:Hmem.
  - destruct Hcase as (-> & Hsize & Hwf'). split_and!; try done.
    + rewrite Hitems. by apply list_delete_present.
    + destruct (PyBTree_Search_spec b key Hb) as [-> _].
      by rewrite Hitems, list_lookup_delete_eq.
    + intros k Hne. destruct (PyBTree_Search_spec b k Hb) as [-> _].
      destruct (PyBTree_Search_spec btree k (wf_tree_searchable btree Hwf)) as [-> _].
      by rewrite Hitems, list_lookup_delete_ne.
  - destruct Hcase as (-> & Hsize).
    assert (items b = items btree) as Hsame
      by (rewrite Hitems; by apply list_delete_missing).
    split_and!; try done.
    intros k. destruct (PyBTree_Search_spec b k Hb) as [-> _].
    destruct (PyBTree_Search_spec btree k (wf_tree_searchable btree Hwf)) as [-> _].
    by rewrite Hsame.
Qed.

Lemma StronglySorted_snoc {A : Type} (R : A -> A -> Prop) l x :
  StronglySorted R l -> Forall (fun y => R y x) l -> StronglySorted R (l ++ [x]).
Proof.
  induction 1 as [| y l Hs IH Hy]; intros Hall; simpl.
  - repeat constructor.
  - apply Forall_cons in Hall as [Hyx Hall]. constructor; [by apply IH |].
    apply Forall_app. split; [done | by constructor].
Qed.

Lemma StronglySorted_reverse {A : Type} (R : A -> A -> Prop) l :
  StronglySorted R l -> StronglySorted (flip R) (reverse l).
Proof.
  induction 1 as [| x l Hs IH Hall]; [constructor |].
  rewrite reverse_cons. apply StronglySorted_snoc; [done |].
  by apply Forall_reverse.
Qed.

(** Iteration over a well-formed tree: the forward iterator yields the
    keys of the tree in strictly increasing order, the reverse iterator
    yields the same keys in strictly decreasing order, and each yields
    [size] keys before it reports the end. *)
Theorem iteration_order btree :
  wf_tree btree -> size btree <= PY_SSIZE_T_MAX ->
  exists it rit ks,
    btree_iter btree = Some it /\ btree_reversed btree = Some rit /\
    iter_yields btreeiter_next it ks /\
    iter_yields btreereviter_next rit (reverse ks) /\
    ks = (items btree).*1 /\
    StronglySorted klt ks /\ StronglySorted (flip klt) (reverse ks) /\
    Z.of_nat (length ks) = size btree /\ Z.of_nat (length (reverse ks)) = size btree.
Proof.
  intros Hwf Hmax.
  destruct (btree_iter_spec btree Hwf Hmax) as (it & Hit & Hfwd).
  destruct (btree_reversed_spec btree Hwf Hmax) as (rit & Hrit & Hbwd).
  pose proof (wf_tree_sorted btree Hwf) as Hsorted.
  pose proof (wf_tree_size btree Hwf) as Hsize.
  exists it, rit, (items btree).*1. split_and!; try done.
  - by apply StronglySorted_reverse.
  - by rewrite length_fmap.
  - by rewrite length_reverse, length_fmap.
Qed.

(** What the caller asks for with the [inclusive] argument of [irange]:
    leaving it out, or passing [None], asks for an inclusive lower and an
    exclusive upper bound; a pair asks for the truth values of its two
    entries, [a] and [b] being what [PyObject_IsTrue] answers for them. *)
Inductive asks_for : inclusive_arg -> bool -> bool -> Prop :=
| asks_default : asks_for InclusiveDefault true false
| asks_pair a b :
    0 <= a -> 0 <= b -> asks_for (InclusivePair a b) (negb (a =? 0)) (negb (b =? 0)).

(** A root that holds no key.  The iterators take such a tree for empty;
    it is what [clear] leaves and also what a failed delete can leave. *)
Definition root_without_keys (btree : PyBTreeObject) : Prop :=
  forall r, root btree = Some r -> n_keys r = 0.

(** C5.  On a well-formed tree, and on a tree whose root holds no key,
    [irange (lo, hi, inclusive)] does not fail and yields the keys of the
    forward iteration that satisfy the bounds the caller asked for, in the
    same order; the bounds default to [lo] inclusive and [hi] exclusive.
    When [hi < lo], or when [lo] and [hi] are equal and not both inclusive,
    it yields nothing and reports the end without an error. *)
Theorem irange_filters_iteration btree lo hi inclusive (imin imax : bool) :
  (wf_tree btree /\ size btree <= PY_SSIZE_T_MAX) \/ root_without_keys btree ->
  asks_for inclusive imin imax ->
  exists rit it ks,
    btree_irange btree lo hi inclusive = Return rit /\
    btree_iter btree = Some it /\ iter_yields btreeiter_next it ks /\
    range_yields rit (List.filter (in_range lo hi imin imax) ks) /\
    (forall l h, lo = Some l -> hi = Some h ->
       klt h l \/ (keq l h /\ imin && imax = false) ->
       range_yields rit []).
Proof.
  intros Htree Hasks.
  assert (btree_irange btree lo hi inclusive
          = Return (mkRangeIter btree lo hi imin imax [] false)) as Hrange.
  { destruct Hasks as [| a b Ha Hb]; [done |]. unfold btree_irange.
    by destruct (Z.ltb_spec a 0); destruct (Z.ltb_spec b 0); try lia. }
  assert (exists it ks,
            btree_iter btree = Some it /\ iter_yields btreeiter_next it ks /\
            range_yields (mkRangeIter btree lo hi imin imax [] false)
                         (List.filter (in_range lo hi imin imax) ks))
    as (it & ks & Hit & Hfwd & Hyields).
  { destruct Htree as [[Hwf Hmax] | Hroot].
    - destruct (btree_iter_spec btree Hwf Hmax) as (it & Hit & Hfwd).
      exists it, (items btree).*1. split_and!; try done. by apply range_iter_spec.
    - assert ((match root btree with
               | Some r => if n_keys r >? 0 then iter_descend_left r [] else Some []
               | None => Some []
               end) = Some [] /\
              (match root btree with
               | Some r =>
                   if n_keys r >? 0
                   then range_iter_descend_to_start lo imin r []
                   else Some []
               | None => Some []
               end) = Some []) as [Hfwd Hseek].
      { unfold root_without_keys in Hroot.
        destruct (root btree) as [r |]; [| done]. by rewrite (Hroot r eq_refl). }
      exists (mkIter btree (size btree) []), []. split_and!.
      + unfold btree_iter. by rewrite Hfwd.
      + by eapply iter_yields_done.
      + eapply range_yields_done. unfold btreerangeiter_next.
        cbn [started rit_btree rit_stack min_key inclusive_min]. rewrite Hseek. reflexivity. }
  exists (mkRangeIter btree lo hi imin imax [] false), it, ks.
  split_and!; try done.
  intros l h -> -> Hempty.
  rewrite filter_none in Hyields; [done |].
  apply Forall_forall. intros k _.
  destruct Hempty as [Hcross | [Heq Hex]].
  - by apply in_range_crossed.
  - by apply in_range_point.
Qed.

(** The two ends of a well-formed tree.  With an index that is a
    [Py_ssize_t], [peekitem] and [popitem] serve index [0] (the first pair)
    and index [-1] or [size - 1] (the last pair, also the default) and fail
    with [IndexError] for any other index; on an empty tree [peekitem] fails
    with [IndexError] and [popitem] with [KeyError].  On success both return
    the pair at that end, and [popitem] also removes it.  An index that is
    not a [Py_ssize_t] is refused with [OverflowError]. *)
Theorem peekitem_popitem_ends btree arg :
  wf_tree btree ->
  let index := match arg with Some i => i | None => -1 end in
  if negb (is_ssize_t index) then
    btree_peekitem btree arg = Some (Raise OverflowError) /\
    btree_popitem btree arg = Some (Raise OverflowError, btree)
  else
  match items btree with
  | [] =>
      btree_peekitem btree arg = Some (Raise IndexError_empty) /\
      btree_popitem btree arg = Some (Raise (KeyError None), btree)
  | first :: _ =>
      if index =? 0 then
        btree_peekitem btree arg = Some (Return first) /\
        exists btree',
          btree_popitem btree arg = Some (Return first, btree') /\
          items btree' = tail (items btree) /\
          size btree' = size btree - 1 /\ wf_tree btree'
      else if (index =? -1) || (index =? size btree - 1) then
        let last := List.last (items btree) first in
        btree_peekitem btree arg = Some (Return last) /\
        exists btree',
          btree_popitem btree arg = Some (Return last, btree') /\
          items btree' = List.removelast (items btree) /\
          size btree' = size btree - 1 /\ wf_tree btree'
      else
        btree_peekitem btree arg = Some (Raise IndexError_unsupported) /\
        btree_popitem btree arg = Some (Raise IndexError_unsupported, btree)
  end.
Proof.
  intros Hwf index. unfold btree_peekitem, btree_popitem. fold index.
  destruct (negb (is_ssize_t index)); [done |].
  pose proof (wf_tree_size btree Hwf) as Hsize.
  pose proof (wf_tree_sorted btree Hwf) as Hsorted.
  destruct (items btree) as [| first l] eqn:Hitems.
  { simpl in Hsize. by rewrite Hsize. }
  destruct (wf_tree_nonempty btree Hwf) as [Hnz _]; [by rewrite Hitems |].
  destruct (Z.eqb_spec (size btree) 0) as [| _]; [done |].
  destruct (index =? 0).
  - destruct (ends_first btree first l Hwf Hitems) as (r & -> & Hs & ->).
    cbn [mbind option_bind]. rewrite Hs. split; [done |].
    destruct (pop_key btree first l Hwf) as (b & Hpop & Hwf' & Hitems' & Hsize').
    { rewrite Hitems. apply list_lookup_head, keq_refl. }
    { rewrite Hitems. apply list_delete_head, keq_refl. }
    exists b. by rewrite Hpop.
  - destruct ((index =? -1) || (index =? size btree - 1)); [| done].
    assert (exists l' s, first :: l = l' ++ [s]) as (l' & s & Hsnoc).
    { destruct (exists_last (l := first :: l)) as (l' & s & ->); [done | by exists l', s]. }
    cbv zeta. rewrite Hsnoc, List.last_last, List.removelast_last.
    rewrite Hsnoc in Hitems, Hsorted.
    destruct (ends_last btree l' s Hwf Hitems) as (r & -> & Hs & ->).
    cbn [mbind option_bind]. rewrite Hs. split; [done |].
    destruct (pop_key btree s l' Hwf) as (b & Hpop & Hwf' & Hitems' & Hsize').
    { rewrite Hitems, list_lookup_app_l.
      - apply list_lookup_head, keq_refl.
      - apply sorted_snoc in Hsorted as [_ Hbelow]. exact Hbelow. }
    { rewrite Hitems. apply list_delete_last; [done | apply keq_refl]. }
    exists b. by rewrite Hpop.
Qed.

(** C9.  Let [parent] be an internal node that is not full and whose
    [children[i]] is full ([2t-1] keys).  Then [split_child (parent, i)]
    leaves the child, at [children[i]], and the new sibling, at
    [children[i+1]], with [t-1] keys each; the parent gets one more key,
    the former median of the child, at slot [i]; and the pairs reachable
    from the parent are the same as before, in the same order, so that none
    is lost or duplicated. *)
Theorem split_child_balanced t h parent (i : nat) c :
  2 <= t -> shape t (S h) parent -> n_keys parent < 2 * t - 1 ->
  children parent !! i = Some c -> n_keys c = 2 * t - 1 ->
  exists parent' cl cr m,
    split_child parent i = Some parent' /\
    children parent' !! i = Some cl /\ children parent' !! S i = Some cr /\
    n_keys cl = t - 1 /\ n_keys cr = t - 1 /\
    n_keys parent' = n_keys parent + 1 /\
    slots c !! Z.to_nat (t - 1) = Some m /\ slots parent' !! i = Some m /\
    ino c = ino cl ++ m :: ino cr /\
    ino parent' = ino parent /\
    Permutation (ino parent') (ino parent) /\
    shape t (S h) parent'.
Proof.
  intros Ht Hshape Hroom Hc Hfull.
  pose proof Hshape as (Horder & _ & Hleaf & Hlen & Hall)%shape_internal.
  destruct (children_focus _ _ i c Hlen Hc) as (cs1 & cs2 & ss1 & ss2 & Hcs & Hss & Hcs1 & Hss1 & Hcs2).
  assert (shape t h c) as Hcshape.
  { rewrite Forall_lookup in Hall. by destruct (Hall _ _ Hc). }
  destruct (split_child_spec t h parent i c cs1 cs2 ss1 ss2)
    as (cl & m & cr & Hsplit & Hm & Hcl & Hcr & Hnl & Hnr & Hino); try done.
  rewrite Hcs, Forall_app, Forall_cons in Hall. destruct Hall as (Hall1 & _ & Hall2).
  assert (ino (mkNode (is_leaf parent) (ss1 ++ m :: ss2) (cs1 ++ cl :: cr :: cs2)
                      (order parent)) = ino parent) as Hsame.
  { rewrite !collect_items_fast_eq. cbn [is_leaf slots children]. rewrite Hleaf, Hcs, Hss.
    rewrite (zipio_focus ino cs1 c cs2 ss1 ss2) by lia.
    rewrite (cons_middle cl), app_assoc.
    rewrite (zipio_app ino (cs1 ++ [cl]) (cr :: cs2) ss1 m ss2)
      by (rewrite length_app; simpl; lia).
    assert (zipio ino (cs1 ++ [cl]) ss1 = zl ino cs1 ss1 ++ ino cl) as ->.
    { rewrite <- (app_nil_r ss1) at 1.
      rewrite (zipio_focus ino cs1 cl [] ss1 []) by (done || lia).
      simpl. by rewrite app_nil_r. }
    rewrite zipio_cons_zr by done. rewrite Hino.
    by rewrite <- !app_assoc. }
  eexists _, cl, cr, m. split; [exact Hsplit |]. cbn [children slots].
  split_and!; try done.
  - by rewrite lookup_at_app.
  - rewrite (cons_middle cl), app_assoc. rewrite lookup_at_app; [done |].
    rewrite length_app. simpl. lia.
  - unfold n_keys in *. cbn [slots]. rewrite Hss, !length_app. simpl. lia.
  - by rewrite lookup_at_app.
  - by rewrite Hsame.
  - apply shape_internal. cbn [is_leaf slots children order].
    split_and!; try done.
    + unfold n_keys in *. cbn [slots]. rewrite Hss, length_app in Hroom.
      rewrite length_app. simpl. lia.
    + rewrite !length_app. simpl. lia.
    + apply Forall_app. split; [done |].
      repeat (constructor; [split; [lia | done] |]). done.
Qed.

End tree_properties.


(** ** Failing comparisons *)

Section comparison_errors.
Context {H : Host}.

(** Whether a call that [compare_keys a b] makes to the host fails: the
    rich comparisons of the integer path and of the general path, and the
    string comparison.  Equal handles and non-NaN floats are compared
    without calling the host. *)
Definition host_failure (a b : PyObject) : bool :=
  let lt := PyObject_RichCompareBool a b Py_LT in
  let eq := PyObject_RichCompareBool a b Py_EQ in
  if bool_decide (a = b) then false
  else if PyLong_CheckExact a && PyLong_CheckExact b then
    (lt <? 0) || ((lt =? 0) && (eq <? 0))
  else if PyFloat_CheckExact a && PyFloat_CheckExact b &&
          negb (Py_IS_NAN (PyFloat_AS_DOUBLE a)) && negb (Py_IS_NAN (PyFloat_AS_DOUBLE b))
  then false
  else if PyUnicode_CheckExact a && PyUnicode_CheckExact b then
    ((PyUnicode_Compare a b).1 <? 0) && (PyUnicode_Compare a b).2
  else (eq <? 0) || ((eq =? 0) && (lt <? 0)).

(** The keys that the binary search of a node compares [key] with, in
    order, up to the first that matches or whose comparison fails. *)
Fixpoint probes_loop (rounds : nat) (ks : list PyObject) (key : PyObject)
    (low high : Z) : list PyObject :=
  match rounds with
  | O => []
  | S rounds' =>
      if low <=? high then
        let mid := low + Z.quot (high - low) 2 in
        match ks !! Z.to_nat mid with
        | None => []
        | Some k =>
            let c := compare_keys key k in
            k :: (if (c =? -2) || (c =? 0) then []
                  else if c <? 0 then probes_loop rounds' ks key low (mid - 1)
                  else probes_loop rounds' ks key (mid + 1) high)
        end
      else []
  end.

Definition probes (node : PyBTreeNode) (key : PyObject) : list PyObject :=
  probes_loop (S (length (slots node))) (keys node) key 0 (n_keys node - 1).

(** [reaches key node d]: the descent of a lookup of [key] that starts at
    [node] gets to [d]. *)
Inductive reaches (key : PyObject) : PyBTreeNode -> PyBTreeNode -> Prop :=
| reaches_here node : reaches key node node
| reaches_down node i c d :
    node_search_key node key = (i, false) -> 0 <= i -> is_leaf node = false ->
    children node !! Z.to_nat i = Some c -> reaches key c d ->
    reaches key node d.

Lemma compare_keys_error a b :
  PyLong_CheckExact a && PyLong_CheckExact b = false ->
  compare_keys a b = -2 <-> host_failure a b = true.
Proof.
  intros Hint. unfold compare_keys, host_failure. rewrite Hint.
  case_bool_decide; [done |].
  destruct (PyFloat_CheckExact a && PyFloat_CheckExact b) eqn:Hfloat; simpl.
  - destruct (negb (Py_IS_NAN (PyFloat_AS_DOUBLE a)) &&
              negb (Py_IS_NAN (PyFloat_AS_DOUBLE b))) eqn:Hnan; simpl.
    + destruct (double_lt _ _); [done |]. by destruct (double_lt _ _).
    + destruct (PyUnicode_CheckExact a && PyUnicode_CheckExact b).
      * destruct (PyUnicode_Compare a b) as [c err]. simpl.
        destruct (Z.ltb_spec c 0); [by destruct err |].
        simpl. by destruct (c >? 0).
      * destruct (Z.ltb_spec (PyObject_RichCompareBool a b Py_EQ) 0); [done |].
        destruct (Z.eqb_spec (PyObject_RichCompareBool a b Py_EQ) 0); simpl; [| done].
        destruct (Z.ltb_spec (PyObject_RichCompareBool a b Py_LT) 0); [done |].
        by destruct (PyObject_RichCompareBool a b Py_LT =? 0).
  - destruct (PyUnicode_CheckExact a && PyUnicode_CheckExact b).
    + destruct (PyUnicode_Compare a b) as [c err]. simpl.
      destruct (Z.ltb_spec c 0); [by destruct err |].
      simpl. by destruct (c >? 0).
    + destruct (Z.ltb_spec (PyObject_RichCompareBool a b Py_EQ) 0); [done |].
      destruct (Z.eqb_spec (PyObject_RichCompareBool a b Py_EQ) 0); simpl; [| done].
      destruct (Z.ltb_spec (PyObject_RichCompareBool a b Py_LT) 0); [done |].
      by destruct (PyObject_RichCompareBool a b Py_LT =? 0).
Qed.

Lemma compare_keys_int a b :
  PyLong_CheckExact a && PyLong_CheckExact b = true ->
  compare_keys a b <> -2 /\ (host_failure a b = true -> compare_keys a b = 0).
Proof.
  intros Hint. unfold compare_keys, host_failure. rewrite Hint.
  case_bool_decide; [done |].
  destruct (Z.ltb_spec (PyObject_RichCompareBool a b Py_LT) 0); [done |].
  destruct (Z.eqb_spec (PyObject_RichCompareBool a b Py_LT) 0); simpl; [| done].
  destruct (Z.ltb_spec (PyObject_RichCompareBool a b Py_EQ) 0); [done |].
  by destruct (PyObject_RichCompareBool a b Py_EQ =? 0).
Qed.

Lemma node_search_key_loop_error key k rounds ks :
  forall low high,
    k ∈ probes_loop rounds ks key low high -> compare_keys key k = -2 ->
    node_search_key_loop rounds ks key low high = (-1, false).
Proof.
  induction rounds as [| rounds IH]; intros low high Hk Hcmp;
    cbn [probes_loop node_search_key_loop] in *.
  - by apply elem_of_nil in Hk.
  - destruct (low <=? high); [| by apply elem_of_nil in Hk].
    destruct (ks !! Z.to_nat (low + Z.quot (high - low) 2)) as [k0 |];
      [| by apply elem_of_nil in Hk].
    cbv zeta in *. apply elem_of_cons in Hk as [-> | Hk]; [by rewrite Hcmp |].
    destruct (Z.eqb_spec (compare_keys key k0) (-2)) as [| _]; [done |].
    destruct (Z.eqb_spec (compare_keys key k0) 0) as [| _];
      [by apply elem_of_nil in Hk |].
    simpl in Hk. destruct (compare_keys key k0 <? 0); by apply IH.
Qed.

Lemma node_search_key_error node key k :
  k ∈ probes node key -> compare_keys key k = -2 ->
  node_search_key node key = (-1, false).
Proof. apply node_search_key_loop_error. Qed.

(** An error of the search at a node that a lookup reaches is the result
    of the lookup. *)
Lemma reaches_error key node d :
  reaches key node d -> node_search_key d key = (-1, false) ->
  node_search node key = Raise ComparisonError /\ node_contains node key = -1.
Proof.
  intros Hreach Herr. induction Hreach as [node | node i c d Hsk Hi Hleaf Hc Hreach IH].
  - by rewrite node_search_eq, node_contains_eq, Herr.
  - rewrite node_search_eq, node_contains_eq, Hsk, Hleaf, Hc.
    destruct (Z.ltb_spec i 0); [lia |]. by apply IH.
Qed.

(** What the string path and the general path do.  Let the lookup of [key]
    started at [top] reach the node [node], let [k] be a key that the search of [node]
    compares [key] with, [key] and [k] not both exact ints, and let the host
    comparison of the two fail.  Then [compare_keys] returns its error code
    and [node_search_key] returns [-1]; lookup, containment test, insertion
    and deletion at [node] stop with the error; the lookup and the
    containment test started at [top] return it; and the API functions
    called on a tree with root [node] pass it on.  For two exact ints the
    error code is never returned. *)
Theorem comparison_failure_propagates top node key k :
  reaches key top node ->
  k ∈ probes node key ->
  PyLong_CheckExact key && PyLong_CheckExact k = false ->
  host_failure key k = true ->
  compare_keys key k = -2 /\
  node_search_key node key = (-1, false) /\
  node_search node key = Raise ComparisonError /\
  node_contains node key = -1 /\
  (forall fuel value,
     insert_non_full (S fuel) node key value = Some (Raise ComparisonError, node)) /\
  (forall fuel, delete_from_node (S fuel) node key = Some (Raise ComparisonError, node)) /\
  node_search top key = Raise ComparisonError /\
  node_contains top key = -1 /\
  (forall btree value, root btree = Some node ->
     PyBTree_Search btree key = Raise ComparisonError /\
     PyBTree_Contains btree key = -1 /\
     (n_keys node <> 2 * tree_order btree - 1 ->
      PyBTree_Insert btree key value =
        Some (Raise ComparisonError, mkBTree (Some node) (size btree) (tree_order btree))) /\
     (size btree <> 0 ->
      PyBTree_Delete btree key =
        Some (Raise ComparisonError, mkBTree (Some node) (size btree) (tree_order btree)))) /\
  (forall a b, PyLong_CheckExact a && PyLong_CheckExact b = true -> compare_keys a b <> -2).
Proof.
  intros Hreach Hk Hint Hfail.
  assert (compare_keys key k = -2) as Hcmp by (by apply compare_keys_error).
  pose proof (node_search_key_error node key k Hk Hcmp) as Hsk.
  destruct (reaches_error key node node (reaches_here key node) Hsk) as [Hsearch Hcontains].
  destruct (reaches_error key top node Hreach Hsk) as [Hsearch' Hcontains'].
  assert (forall fuel value,
            insert_non_full (S fuel) node key value = Some (Raise ComparisonError, node))
    as Hins.
  { intros fuel value. cbn [insert_non_full]. by rewrite Hsk. }
  assert (forall fuel, delete_from_node (S fuel) node key = Some (Raise ComparisonError, node))
    as Hdel.
  { intros fuel. cbn [delete_from_node]. by rewrite Hsk. }
  split_and!; try done.
  - intros btree value Hroot. unfold PyBTree_Search, PyBTree_Contains, PyBTree_Insert,
      PyBTree_Delete. rewrite Hroot. cbn [mbind option_bind]. split_and!; try done.
    + intros Hroom. destruct (Z.eqb_spec (n_keys node) (2 * tree_order btree - 1)); [done |].
      cbn [mbind option_bind]. by rewrite Hins.
    + intros Hsize. destruct (Z.eqb_spec (size btree) 0); [done |].
      by rewrite Hdel.
  - intros a b Hab. by apply compare_keys_int.
Qed.

End comparison_errors.

(** A host in which all objects are exact ints and every rich comparison
    fails. *)
Definition FailingIntHost : Host := {|
  PyObject := Z;
  PyLong_CheckExact := fun _ => true;
  PyFloat_CheckExact := fun _ => false;
  PyUnicode_CheckExact := fun _ => false;
  PyObject_RichCompareBool := fun _ _ _ => -1;
  double := unit;
  PyFloat_AS_DOUBLE := fun _ => tt;
  Py_IS_NAN := fun _ => false;
  double_lt := fun _ _ => false;
  PyUnicode_Compare := fun _ _ => (0, false)
|}.

(** A host with two kinds of objects: the non-negative numbers are exact
    ints, compared as numbers; the negative ones are objects of another type,
    whose rich comparison with anything fails. *)
Definition MixedHost : Host := {|
  PyObject := Z;
  PyLong_CheckExact := fun a => 0 <=? a;
  PyFloat_CheckExact := fun _ => false;
  PyUnicode_CheckExact := fun _ => false;
  PyObject_RichCompareBool := fun a b op =>
    if (a <? 0) || (b <? 0) then -1
    else match op with Py_LT => if a <? b then 1 else 0 | Py_EQ => if a =? b then 1 else 0 end;
  double := unit;
  PyFloat_AS_DOUBLE := fun _ => tt;
  Py_IS_NAN := fun _ => false;
  double_lt := fun _ _ => false;
  PyUnicode_Compare := fun _ _ => (0, false)
|}.

(** C6 fails on the code.  The host comparison of the exact ints [1] and
    [2] fails; [compare_keys], whose comment promises [-2] on error and
    whose other paths return it, answers "equal"; and the lookup of [2] in a
    tree that holds only [1] returns the value stored for [1], with no error
    reported. *)
Lemma int_comparison_failure_is_equal :
  @PyObject_RichCompareBool FailingIntHost 1 2 Py_LT = -1 /\
  @host_failure FailingIntHost 1 2 = true /\
  @compare_keys FailingIntHost 1 2 = 0 /\
  @PyBTree_Search FailingIntHost
     (@mkBTree FailingIntHost (Some (@mkNode FailingIntHost true [(1, 10)] [] 2)) 1 2) 2
  = @Return FailingIntHost _ (Some 10).
Proof. repeat split. Qed.

(** The same failure in the mutators: inserting [2] overwrites the value
    stored for [1], and deleting [2] removes [1]. *)
Lemma int_comparison_failure_overwrites :
  @PyBTree_Insert FailingIntHost
     (@mkBTree FailingIntHost (Some (@mkNode FailingIntHost true [(1, 10)] [] 2)) 1 2) 2 20
  = Some (@Return FailingIntHost _ 0,
          @mkBTree FailingIntHost (Some (@mkNode FailingIntHost true [(1, 20)] [] 2)) 1 2) /\
  @PyBTree_Delete FailingIntHost
     (@mkBTree FailingIntHost (Some (@mkNode FailingIntHost true [(1, 10)] [] 2)) 1 2) 2
  = Some (@Return FailingIntHost _ 0,
          @mkBTree FailingIntHost (Some (@mkNode FailingIntHost true [] [] 2)) 0 2).
Proof. split; reflexivity. Qed.

(** A tree of two levels whose left leaf holds the non-int key [-5]: the
    lookup of [2] passes the root and fails in that leaf. *)
Definition mixed_leaf : @PyBTreeNode MixedHost := @mkNode MixedHost true [(-5, 0)] [] 2.

Definition mixed_root : @PyBTreeNode MixedHost :=
  @mkNode MixedHost false [(4, 40)]
    [mixed_leaf; @mkNode MixedHost true [(6, 60)] [] 2] 2.

Lemma comparison_failure_propagates_witness :
  @reaches MixedHost 2 mixed_root mixed_leaf /\
  -5 ∈ @probes MixedHost mixed_leaf 2 /\
  @node_search MixedHost mixed_root 2 = @Raise MixedHost _ (@ComparisonError MixedHost).
Proof.
  assert (@reaches MixedHost 2 mixed_root mixed_leaf) as Hreach.
  { apply (@reaches_down MixedHost 2 mixed_root 0 mixed_leaf mixed_leaf);
      [reflexivity | lia | reflexivity | reflexivity | apply reaches_here]. }
  assert (-5 ∈ @probes MixedHost mixed_leaf 2) as Hprobe by (vm_compute; left).
  split; [exact Hreach |]. split; [exact Hprobe |].
  destruct (@comparison_failure_propagates MixedHost mixed_root mixed_leaf 2 (-5)
              Hreach Hprobe eq_refl eq_refl)
    as (_ & _ & _ & _ & _ & _ & Hsearch & _).
  exact Hsearch.
Defined.

(** ** Construction *)

Section construction.
Context {H : Host}.

(** The tree that holds nothing: a single empty leaf as root. *)
Definition empty_tree (order : Z) : PyBTreeObject :=
  mkBTree (Some (mkNode true [] [] order)) 0 order.

(** C7, as the code has it.  [BTreeDict ()] has the default order 8.  An
    order that is not an [int] is refused by [BTreeDict] with
    [OverflowError].  With an [int] below 2, [BTreeDict (order)] fails with
    [ValueError], while the C constructor [PyBTree_New (order)] uses the
    default order 8 instead.  With an order of at least 2 whose double is
    an [int], both give the empty tree of that order: size 0 and a single
    empty leaf as root.  For the other [int] orders, from [2 ^ 30] on,
    [btreenode_new] overflows and nothing is defined. *)
Theorem construction (order : Z) :
  BTreeDict None = Some (Return (empty_tree 8)) /\
  (order < INT_MIN \/ INT_MAX < order ->
     BTreeDict (Some order) = Some (Raise OverflowError)) /\
  (INT_MIN <= order < 2 ->
     BTreeDict (Some order) = Some (Raise ValueError) /\
     PyBTree_New order = Some (empty_tree 8)) /\
  (2 <= order -> 2 * order <= INT_MAX ->
     BTreeDict (Some order) = Some (Return (empty_tree order)) /\
     PyBTree_New order = Some (empty_tree order)) /\
  (INT_MAX < 2 * order -> order <= INT_MAX ->
     BTreeDict (Some order) = None /\ PyBTree_New order = None) /\
  size (empty_tree order) = 0 /\ items (empty_tree order) = [] /\
  exists r, root (empty_tree order) = Some r /\
            is_leaf r = true /\ n_keys r = 0 /\ children r = [].
Proof.
  unfold BTreeDict, btree_init, PyBTree_New, is_int, BTREE_MIN_ORDER, BTREE_DEFAULT_ORDER,
    INT_MIN, INT_MAX.
  split_and!; try done.
  - intros Hout.
    assert ((- 2 ^ 31 <=? order) && (order <=? 2 ^ 31 - 1) = false) as ->; [| done].
    apply andb_false_iff. rewrite Z.leb_gt, Z.leb_gt. lia.
  - intros Hlow.
    assert ((- 2 ^ 31 <=? order) && (order <=? 2 ^ 31 - 1) = true) as ->
      by (apply andb_true_iff; rewrite !Z.leb_le; lia).
    cbn [negb]. assert ((order <? 2) = true) as -> by (apply Z.ltb_lt; lia). done.
  - intros Hmin Hfits.
    assert ((- 2 ^ 31 <=? order) && (order <=? 2 ^ 31 - 1) = true) as ->
      by (apply andb_true_iff; rewrite !Z.leb_le; lia).
    cbn [negb]. assert ((order <? 2) = false) as -> by (apply Z.ltb_ge; lia).
    assert ((- 2 ^ 31 <=? 2 * order) && (2 * order <=? 2 ^ 31 - 1) = true) as ->
      by (apply andb_true_iff; rewrite !Z.leb_le; lia).
    done.
  - intros Hover Hint.
    assert ((- 2 ^ 31 <=? order) && (order <=? 2 ^ 31 - 1) = true) as ->
      by (apply andb_true_iff; rewrite !Z.leb_le; lia).
    cbn [negb]. assert ((order <? 2) = false) as -> by (apply Z.ltb_ge; lia).
    assert ((- 2 ^ 31 <=? 2 * order) && (2 * order <=? 2 ^ 31 - 1) = false) as ->; [| done].
    apply andb_false_iff. rewrite !Z.leb_gt. lia.
  - by eexists.
Qed.

End construction.

(** C7, as stated, fails: the order 1 given to [PyBTree_New] is below 2,
    and the call does not fail but builds a tree of order 8. *)
Lemma PyBTree_New_below_minimum :
  @PyBTree_New ZHost 1 = Some (@empty_tree ZHost 8) /\
  @tree_order ZHost (@empty_tree ZHost 8) = 8.
Proof. split; reflexivity. Qed.

(** ** A delete that fails after rebalancing *)

(** C1 fails on the code.  In the tree of order 2 built by inserting 1, 2,
    3, 4 and deleting 4, which satisfies the invariants, deleting the absent
    key 5 merges the two children of the root on the way down, fails with
    [KeyError], and leaves a root with no key that is not a leaf, in a tree
    of size 3. *)
Theorem failed_delete_leaves_empty_root :
  exists t0 t4 t3 t3' r,
    PyBTree_New (H := ZHost) 2 = Some t0 /\
    insert_items t0 [(1, 10); (2, 20); (3, 30); (4, 40)] = Some (Return 0, t4) /\
    wf_tree t4 /\
    PyBTree_Delete t4 4 = Some (Return 0, t3) /\
    wf_tree t3 /\
    PyBTree_Delete t3 5 = Some (Raise (KeyError (Some 5)), t3') /\
    root t3' = Some r /\ n_keys r = 0 /\ is_leaf r = false /\ size t3' = 3 /\
    ~ wf_tree t3'.
Proof.
  destruct (PyBTree_New (H := ZHost) 2) as [t0 |] eqn:Ht0; [| done].
  destruct (insert_items_spec (H := ZHost) [(1, 10); (2, 20); (3, 30); (4, 40)]
              t0 (PyBTree_New_wf _ _ Ht0)) as (t4 & Ht4 & Hwf4 & _).
  destruct (PyBTree_Delete_spec t4 4 Hwf4) as (r3 & t3 & Ht3 & _ & _ & _ & Hcase).
  injection Ht0 as <-.
  exists (mkBTree (Some (mkNode true [] [] 2)) 0 2), t4, t3.
  assert (t4 = mkBTree (Some (mkNode false [(2, 20)]
                                [mkNode true [(1, 10)] [] 2;
                                 mkNode true [(3, 30); (4, 40)] [] 2] 2)) 4 2) as Heq4.
  { vm_compute in Ht4. by injection Ht4. }
  subst t4.
  assert (r3 = Return 0 /\
          t3 = mkBTree (Some (mkNode false [(2, 20)]
                                [mkNode true [(1, 10)] [] 2;
                                 mkNode true [(3, 30)] [] 2] 2)) 3 2) as [-> Heq3].
  { vm_compute in Ht3. by injection Ht3. }
  subst t3. vm_compute in Hcase. destruct Hcase as (_ & _ & Hwf3).
  eexists _, _. split_and!; try done; try reflexivity.
  intros (r & h & Hroot & _ & _ & _ & Hleaf & _).
  injection Hroot as <-. by specialize (Hleaf eq_refl).
Qed.

(** What the tree left by that failed delete looks like from outside: it
    reports three pairs and finds each of them, but its iterators and its
    minimum see the empty root and report an empty tree. *)
Definition ex_broken : @PyBTreeObject ZHost :=
  mkBTree (Some (mkNode false [] [mkNode true [(1, 10); (2, 20); (3, 30)] [] 2] 2)) 3 2.

Lemma failed_delete_hides_keys :
  PyBTree_Delete
    (mkBTree (Some (mkNode false [(2, 20)]
                      [mkNode true [(1, 10)] [] 2; mkNode true [(3, 30)] [] 2] 2)) 3 2) 5
  = Some (Raise (KeyError (Some 5)), ex_broken) /\
  PyBTree_Size ex_broken = 3 /\
  PyBTree_Search ex_broken 2 = Return (Some 20) /\
  PyBTree_Items ex_broken = Some [(1, 10); (2, 20); (3, 30)] /\
  btree_iter ex_broken = Some (mkIter ex_broken 3 []) /\
  btreeiter_next (mkIter ex_broken 3 []) = Some (None, mkIter ex_broken 3 []) /\
  PyBTree_GetMin ex_broken = Some None.
Proof. repeat split. Qed.

(** The same two trees seen through the calls that build them. *)
Definition ex_three : @PyBTreeObject ZHost :=
  mkBTree (Some (mkNode false [(2, 20)]
                   [mkNode true [(1, 10)] [] 2; mkNode true [(3, 30)] [] 2] 2)) 3 2.

Lemma ex_three_built :
  (t0 ← PyBTree_New (H := ZHost) 2;
   '(_, t4) ← insert_items t0 [(1, 10); (2, 20); (3, 30); (4, 40)];
   PyBTree_Delete t4 4) = Some (Return 0, ex_three).
Proof. reflexivity. Qed.

Lemma ex_three_wf : wf_tree ex_three.
Proof.
  destruct (PyBTree_New (H := ZHost) 2) as [t0 |] eqn:Ht0; [| done].
  destruct (insert_items_spec (H := ZHost) [(1, 10); (2, 20); (3, 30); (4, 40)]
              t0 (PyBTree_New_wf _ _ Ht0)) as (t4 & Ht4 & Hwf4 & _).
  destruct (PyBTree_Delete_spec t4 4 Hwf4) as (r3 & t3 & Ht3 & _ & _ & _ & Hcase).
  injection Ht0 as <-.
  assert (t4 = mkBTree (Some (mkNode false [(2, 20)]
                                [mkNode true [(1, 10)] [] 2;
                                 mkNode true [(3, 30); (4, 40)] [] 2] 2)) 4 2) as Heq4.
  { vm_compute in Ht4. by injection Ht4. }
  subst t4.
  assert (r3 = Return 0 /\ t3 = ex_three) as [-> ->].
  { vm_compute in Ht3. by injection Ht3. }
  vm_compute in Hcase. by destruct Hcase as (_ & _ & Hwf3).
Qed.

(** C3 fails on the code.  The tree [ex_three], built by inserting 1, 2,
    3, 4 into a new tree of order 2 and deleting 4, satisfies the invariants
    and does not hold 5.  Deleting 5 fails with [KeyError], but the tree is
    not the one it was: it holds the same pairs and has the same size, yet
    its root has lost its key, and [min ()] and [max ()], which answered 1
    and 3, now raise [ValueError]. *)
Theorem failed_delete_changes_tree :
  wf_tree ex_three /\
  PyBTree_Contains ex_three 5 = 0 /\
  PyBTree_Delete ex_three 5 = Some (Raise (KeyError (Some 5)), ex_broken) /\
  ex_broken <> ex_three /\
  items ex_broken = items ex_three /\ size ex_broken = size ex_three /\
  btree_min ex_three = Some (Return 1) /\ btree_max ex_three = Some (Return 3) /\
  btree_min ex_broken = Some (Raise ValueError) /\
  btree_max ex_broken = Some (Raise ValueError).
Proof.
  split; [exact ex_three_wf |]. split_and!; try reflexivity. discriminate.
Qed.

(** C4 fails on the code.  After the failed delete the tree has size 3 and
    [keys ()] lists 1, 2, 3, but the forward and the reverse iterator, which
    yielded those three keys before, report the end at their first step:
    neither yields [size] keys. *)
Theorem failed_delete_empties_iteration :
  PyBTree_Delete ex_three 5 = Some (Raise (KeyError (Some 5)), ex_broken) /\
  (exists it rit,
     btree_iter ex_three = Some it /\ iter_yields btreeiter_next it [1; 2; 3] /\
     btree_reversed ex_three = Some rit /\ iter_yields btreereviter_next rit [3; 2; 1]) /\
  size ex_broken = 3 /\ PyBTree_Keys ex_broken = Some [1; 2; 3] /\
  (exists it rit,
     btree_iter ex_broken = Some it /\ iter_yields btreeiter_next it [] /\
     btree_reversed ex_broken = Some rit /\ iter_yields btreereviter_next rit []).
Proof.
  split; [reflexivity |]. split.
  { destruct (btree_iter_spec ex_three ex_three_wf) as (it & Hit & Hfwd); [by vm_compute |].
    destruct (btree_reversed_spec ex_three ex_three_wf) as (rit & Hrit & Hbwd);
      [by vm_compute |].
    by exists it, rit. }
  split; [reflexivity |]. split; [reflexivity |].
  exists (mkIter ex_broken 3 []), (mkIter ex_broken 3 []).
  split_and!; try reflexivity.
  - by apply (iter_yields_done _ _ (mkIter ex_broken 3 [])).
  - by apply (iter_yields_done _ _ (mkIter ex_broken 3 [])).
Qed.

(** C8 fails on the code.  Before the failed delete [popitem (0)] returns
    the first pair.  After it the tree is not empty (size 3) and
    [peekitem] still finds its two ends, but [popitem] at
    index 0, at the default index -1 and at index [size - 1] returns NULL
    with no exception set ([SystemError]) and removes nothing: neither a
    pair nor one of the errors that the claim allows. *)
Theorem failed_delete_breaks_popitem :
  PyBTree_Delete ex_three 5 = Some (Raise (KeyError (Some 5)), ex_broken) /\
  (exists btree', btree_popitem ex_three (Some 0) = Some (Return (1, 10), btree')) /\
  size ex_broken = 3 /\
  btree_peekitem ex_broken (Some 0) = Some (Return (1, 10)) /\
  btree_peekitem ex_broken None = Some (Return (3, 30)) /\
  btree_popitem ex_broken (Some 0) = Some (Raise SystemError, ex_broken) /\
  btree_popitem ex_broken None = Some (Raise SystemError, ex_broken) /\
  btree_popitem ex_broken (Some 2) = Some (Raise SystemError, ex_broken).
Proof. split_and!; try reflexivity. by eexists. Qed.

(** ** The theorems at a tree of order 2 *)

Lemma ex_root_shape : shape (H := ZHost) 2 1 ex_root.
Proof.
  apply shape_internal. split_and!; try done.
  repeat (apply Forall_cons; split;
          [split; [by vm_compute | apply shape_leaf; split_and!; by vm_compute] |]).
  constructor.
Qed.

Lemma ex_tree_size : size ex_tree <= PY_SSIZE_T_MAX.
Proof. by vm_compute. Qed.

Lemma insert_replaces_or_adds_witness :
  wf_tree ex_tree /\
  exists btree',
    PyBTree_Insert ex_tree 4 0 = Some (Return 0, btree') /\
    PyBTree_Search btree' 4 = Return (Some 0) /\
    size btree' = 7.
Proof.
  split; [exact ex_tree_wf |].
  destruct (insert_replaces_or_adds ex_tree 4 0 ex_tree_wf)
    as (b & Hins & _ & Hsearch & _ & Hsize & _).
  exists b. split_and!; [exact Hins | exact Hsearch | exact Hsize].
Defined.

Lemma delete_removes_or_fails_witness :
  wf_tree ex_tree /\
  exists r btree',
    PyBTree_Delete ex_tree 9 = Some (r, btree') /\
    r = Raise (KeyError (Some 9)) /\ size btree' = 7 /\ items btree' = items ex_tree.
Proof.
  split; [exact ex_tree_wf |].
  destruct (delete_removes_or_fails ex_tree 9 ex_tree_wf)
    as (r & b & Hdel & Hr & Hsize & Hitems & _).
  exists r, b. split_and!; [exact Hdel | exact Hr | exact Hsize | exact Hitems].
Defined.

Lemma iteration_order_witness :
  wf_tree ex_tree /\ size ex_tree <= PY_SSIZE_T_MAX /\
  exists it rit,
    btree_iter ex_tree = Some it /\ btree_reversed ex_tree = Some rit /\
    iter_yields btreeiter_next it [1; 2; 3; 4; 5; 6; 7] /\
    iter_yields btreereviter_next rit [7; 6; 5; 4; 3; 2; 1].
Proof.
  split; [exact ex_tree_wf |]. split; [exact ex_tree_size |].
  destruct (iteration_order ex_tree ex_tree_wf ex_tree_size)
    as (it & rit & ks & Hit & Hrit & Hfwd & Hbwd & -> & _).
  exists it, rit. split_and!; [exact Hit | exact Hrit | exact Hfwd | exact Hbwd].
Defined.

Lemma irange_filters_iteration_witness :
  wf_tree ex_tree /\ size ex_tree <= PY_SSIZE_T_MAX /\
  asks_for (InclusivePair 0 1) false true /\
  exists rit,
    btree_irange ex_tree (Some 3) (Some 6) (InclusivePair 0 1) = Return rit /\
    range_yields rit [4; 5; 6].
Proof.
  split; [exact ex_tree_wf |]. split; [exact ex_tree_size |].
  assert (asks_for (InclusivePair 0 1) false true) as Hasks
    by (apply (asks_pair 0 1); lia).
  split; [exact Hasks |].
  destruct (irange_filters_iteration ex_tree (Some 3) (Some 6) (InclusivePair 0 1) false true
              (or_introl (conj ex_tree_wf ex_tree_size)) Hasks)
    as (rit & it & ks & Hrange & Hit & Hfwd & Hyields & _).
  destruct (btree_iter_spec ex_tree ex_tree_wf ex_tree_size) as (it' & Hit' & Hfwd').
  rewrite Hit in Hit'. injection Hit' as <-.
  rewrite (iter_yields_unique _ _ _ _ Hfwd Hfwd') in Hyields.
  exists rit. split; [exact Hrange | exact Hyields].
Defined.

Lemma peekitem_popitem_ends_witness :
  wf_tree ex_tree /\
  btree_peekitem ex_tree None = Some (Return (7, 70)) /\
  btree_peekitem ex_tree (Some 0) = Some (Return (1, 10)) /\
  btree_peekitem ex_tree (Some 3) = Some (Raise IndexError_unsupported).
Proof.
  split; [exact ex_tree_wf |].
  pose proof (peekitem_popitem_ends ex_tree None ex_tree_wf) as [Hlast _].
  pose proof (peekitem_popitem_ends ex_tree (Some 0) ex_tree_wf) as [Hfirst _].
  pose proof (peekitem_popitem_ends ex_tree (Some 3) ex_tree_wf) as [Hother _].
  split_and!; [exact Hlast | exact Hfirst | exact Hother].
Defined.

Lemma split_child_balanced_witness :
  shape (H := ZHost) 2 1 ex_root /\ n_keys ex_root < 2 * 2 - 1 /\
  children ex_root !! 2%nat = Some (ex_leaf [5; 6; 7]) /\
  exists parent',
    split_child ex_root 2 = Some parent' /\
    n_keys parent' = 3 /\ slots parent' !! 2%nat = Some (6, 60) /\
    collect_items_fast parent' = collect_items_fast ex_root.
Proof.
  split; [exact ex_root_shape |]. split; [by vm_compute |]. split; [reflexivity |].
  destruct (split_child_balanced 2 0 ex_root 2 (ex_leaf [5; 6; 7]))
    as (parent' & cl & cr & m & Hsplit & _ & _ & _ & _ & Hn & Hm & Hslot & _ & Hsame & _);
    [lia | exact ex_root_shape | by vm_compute | reflexivity | reflexivity |].
  exists parent'. injection Hm as <-.
  split_and!; [exact Hsplit | exact Hn | exact Hslot | exact Hsame].
Defined.

(** * The mapping protocol and the dictionary methods

    The functions below are the entry points of the type that the parts
    above did not need: the mapping and sequence slots, [get], [pop],
    [setdefault], [update], the comparison slot and the length hints of the
    iterators.  They are embedded as before, from the calls they make to the
    functions already modelled. *)

Section methods.
Context {H : Host}.

(** The object [None] of the host. *)
Variable Py_None : PyObject.

(** [sq_length] / [mp_length]: [len (self)]. *)
Definition btree_length (self : PyBTreeObject) : Z := size self.

(** [sq_contains]: [key in self]. *)
Definition btree_contains (self : PyBTreeObject) (key : PyObject) : Z :=
  PyBTree_Contains self key.

(** [mp_subscript]: [self[key]]. *)
Definition btree_subscript (self : PyBTreeObject) (key : PyObject) : ret PyObject :=
  match PyBTree_Search self key with
  | Return (Some value) => Return value
  | Return None => Raise (KeyError (Some key))
  | Raise e => Raise e
  end.

(** [mp_ass_subscript]: [self[key] = value], or [del self[key]] when
    [value] is NULL ([None] here). *)
Definition btree_ass_subscript (self : PyBTreeObject) (key : PyObject)
    (value : option PyObject) : option (ret Z * PyBTreeObject) :=
  match value with
  | None => PyBTree_Delete self key
  | Some value => PyBTree_Insert self key value
  end.

(** [insert (key, value)]; the result is [None] of the host. *)
Definition btree_insert (self : PyBTreeObject) (key value : PyObject)
    : option (ret PyObject * PyBTreeObject) :=
  '(r, self') ← PyBTree_Insert self key value;
  Some (match r with Raise e => Raise e | Return _ => Return Py_None end, self').

(** [get (key, default=None)]. *)
Definition btree_get (self : PyBTreeObject) (key : PyObject) (arg : option PyObject)
    : ret PyObject :=
  let default_value := match arg with Some d => d | None => Py_None end in
  match PyBTree_Search self key with
  | Return (Some value) => Return value
  | Return None => Return default_value
  | Raise e => Raise e
  end.

(** [pop (key[, default])]: without the second argument [default_value]
    stays NULL. *)
Definition btree_pop (self : PyBTreeObject) (key : PyObject) (arg : option PyObject)
    : option (ret PyObject * PyBTreeObject) :=
  match PyBTree_Search self key with
  | Raise e => Some (Raise e, self)
  | Return None =>
      match arg with
      | Some default_value => Some (Return default_value, self)
      | None => Some (Raise (KeyError (Some key)), self)
      end
  | Return (Some value) =>
      '(r, self') ← PyBTree_Delete self key;
      match r with
      | Raise e => Some (Raise e, self')
      | Return _ => Some (Return value, self')
      end
  end.

(** [clear ()]. *)
Definition btree_clear_method (self : PyBTreeObject) : ret PyObject * PyBTreeObject :=
  (Return Py_None, PyBTree_Clear self).

(** [setdefault (key, default=None)]. *)
Definition btree_setdefault (self : PyBTreeObject) (key : PyObject) (arg : option PyObject)
    : option (ret PyObject * PyBTreeObject) :=
  let default_value := match arg with Some d => d | None => Py_None end in
  match PyBTree_Search self key with
  | Return (Some value) => Some (Return value, self)
  | Raise e => Some (Raise e, self)
  | Return None =>
      '(r, self') ← PyBTree_Insert self key default_value;
      match r with
      | Raise e => Some (Raise e, self')
      | Return _ => Some (Return default_value, self')
      end
  end.

(** The positional argument of [update]: absent; another [BTreeDict]; a
    [dict], given by its pairs in the order of [PyDict_Next]; an object with
    a [keys] attribute, given by what [PyMapping_Keys] returns and by its
    [__getitem__]; or any other object, taken as an iterable of sequences. *)
Inductive update_arg :=
| UpdateNone
| UpdateBTree (other : PyBTreeObject)
| UpdateDict (pairs : list slot)
| UpdateMapping (mapping_keys : ret (list PyObject)) (getitem : PyObject -> ret PyObject)
| UpdateSeq2 (seq2 : list (list PyObject)).

(** The loop of the mapping branch: [PyObject_GetItem] for each key, then the
    insertion. *)
Fixpoint update_from_mapping (self : PyBTreeObject) (getitem : PyObject -> ret PyObject)
    (ks : list PyObject) : option (ret Z * PyBTreeObject) :=
  match ks with
  | [] => Some (Return 0, self)
  | key :: ks' =>
      match getitem key with
      | Raise e => Some (Raise e, self)
      | Return value =>
          '(r, self') ← PyBTree_Insert self key value;
          match r with
          | Raise e => Some (Raise e, self')
          | Return _ => update_from_mapping self' getitem ks'
          end
      end
  end.

(** [btree_update_common]: the positional argument, then the keyword
    arguments [kwds] in the order of [PyDict_Next]. *)
Definition btree_update_common (self : PyBTreeObject) (arg : update_arg) (kwds : list slot)
    : option (ret Z * PyBTreeObject) :=
  '(r, self') ←
    match arg with
    | UpdateNone => Some (Return 0, self)
    | UpdateBTree other => btree_update_from_btree self other
    | UpdateDict pairs => insert_items self pairs
    | UpdateMapping (Raise e) _ => Some (Raise e, self)
    | UpdateMapping (Return ks) getitem => update_from_mapping self getitem ks
    | UpdateSeq2 seq2 => btree_merge_from_seq2 self seq2
    end;
  match r with
  | Raise e => Some (Raise e, self')
  | Return _ => insert_items self' kwds
  end.

Definition btree_update (self : PyBTreeObject) (arg : update_arg) (kwds : list slot)
    : option (ret PyObject * PyBTreeObject) :=
  '(r, self') ← btree_update_common self arg kwds;
  Some (match r with Raise e => Raise e | Return _ => Return Py_None end, self').

(** The six operators of [tp_richcompare]. *)
Inductive richcmp_op := Op_LT | Op_LE | Op_EQ | Op_NE | Op_GT | Op_GE.

(** [PyObject_RichCompareBool (a_items, b_items, Py_EQ)] on two lists of
    pairs: [-1] on error, [0] or [1] otherwise. *)
Variable PyList_Equal : list slot -> list slot -> Z.

(** [tp_richcompare]; [other] is [None] when it is not a [BTreeDict].
    [Return None] is [NotImplemented]. *)
Definition btree_richcompare (self : PyBTreeObject) (other : option PyBTreeObject)
    (op : richcmp_op) : option (ret (option bool)) :=
  let answer (equal : bool) : option (ret (option bool)) :=
    match op with
    | Op_EQ => Some (Return (Some equal))
    | _ => Some (Return (Some (negb equal)))
    end in
  match op with
  | Op_EQ | Op_NE =>
      match other with
      | None => answer false
      | Some other =>
          if negb (size self =? size other) then answer false
          else if size self =? 0 then answer true
          else
            a_items ← PyBTree_Items self;
            b_items ← PyBTree_Items other;
            let result := PyList_Equal a_items b_items in
            if result <? 0 then Some (Raise HostError)
            else answer (negb (result =? 0))
      end
  | _ => Some (Return None)
  end.

(** [__length_hint__] of the reverse iterator. *)
Definition btreereviter_len (it : PyBTreeIterObject) : Z :=
  if remaining it >? 0 then remaining it else 0.

End methods.

(** ** More on sorted association lists *)

Section assoc_more.
Context {H : Host} {Htot : cmp_total}.

Lemma list_lookup_keq key key' l :
  keq key key' -> list_lookup key l = list_lookup key' l.
Proof.
  intros Heq. induction l as [| s l IH]; simpl; [done |].
  by rewrite (cmp_eq_compat key key' s.1 Heq), IH.
Qed.

Lemma list_lookup_Some_elem key v l :
  list_lookup key l = Some v -> exists k, (k, v) ∈ l /\ keq key k.
Proof.
  induction l as [| [k0 v0] l IH]; simpl; [done |].
  destruct (Z.eqb_spec (compare_keys key k0) 0) as [Heq | Hne].
  - intros [= <-]. exists k0. split; [left | done].
  - intros (k & Hin & Hk)%IH. exists k. split; [by right | done].
Qed.

Lemma list_lookup_elem key k v l :
  sorted l -> (k, v) ∈ l -> keq key k -> list_lookup key l = Some v.
Proof.
  intros Hs Hin Heq. rewrite (list_lookup_keq key k l Heq). clear Heq.
  induction l as [| s l IH]; [by apply elem_of_nil in Hin |].
  apply sorted_cons in Hs as [Habove Hs].
  apply elem_of_cons in Hin as [<- | Hin].
  - apply list_lookup_head, keq_refl.
  - rewrite list_lookup_cons_below; [by apply IH |].
    rewrite Forall_forall in Habove. exact (Habove _ Hin).
Qed.

Lemma list_lookup_None_elem key l :
  list_lookup key l = None -> forall s, s ∈ l -> ~ keq key s.1.
Proof.
  induction l as [| s0 l IH]; simpl; intros Hnone s Hin; [by apply elem_of_nil in Hin |].
  destruct (Z.eqb_spec (compare_keys key s0.1) 0) as [Heq | Hne]; [done |].
  apply elem_of_cons in Hin as [-> | Hin]; [done | by apply IH].
Qed.

(** Inserting pairs one after the other: the last pair of a key wins. *)
Lemma foldl_insert_lookup key (pairs : list slot) :
  forall l,
    list_lookup key (foldl (fun acc s => list_insert s.1 s.2 acc) l pairs) =
    match list_lookup key (reverse pairs) with
    | Some v => Some v
    | None => list_lookup key l
    end.
Proof.
  induction pairs as [| [k v] pairs IH] using rev_ind; intros l; [done |].
  rewrite foldl_app, reverse_snoc. simpl.
  destruct (Z.eqb_spec (compare_keys key k) 0) as [Heq | Hne].
  - rewrite (list_lookup_keq key k _ Heq). apply list_lookup_insert_eq.
  - rewrite list_lookup_insert_ne by done. apply IH.
Qed.

Lemma foldl_insert_sorted (pairs : list slot) :
  forall l, sorted l -> sorted (foldl (fun acc s => list_insert s.1 s.2 acc) l pairs).
Proof.
  induction pairs as [| [k v] pairs IH]; intros l Hl; simpl; [done |].
  apply IH. by apply list_insert_sorted.
Qed.

(** Inserting the pairs of a sorted list in order, after smaller ones,
    rebuilds that list. *)
Lemma foldl_insert_ascending (pairs : list slot) :
  forall l, sorted (l ++ pairs) ->
    foldl (fun acc s => list_insert s.1 s.2 acc) l pairs = l ++ pairs.
Proof.
  induction pairs as [| [k v] pairs IH]; intros l Hs; simpl.
  - by rewrite app_nil_r.
  - rewrite (cons_middle (k, v) l pairs), app_assoc in Hs |- *.
    assert (list_insert k v l = l ++ [(k, v)]) as ->; [| by apply IH].
    apply sorted_app in Hs as [(_ & Hbelow)%sorted_snoc _].
    rewrite <- (app_nil_r l) at 1. rewrite list_insert_app_l by done. done.
Qed.

(** Deleting a key just inserted, which was not there before, gives the
    list back. *)
Lemma list_delete_insert_fresh key value l :
  sorted l -> list_mem key l = false -> list_delete key (list_insert key value l) = l.
Proof.
  intros Hs Hmem.
  destruct (list_insert_absent key value l Hs Hmem) as (l1 & l2 & Hl & Hins).
  pose proof (list_insert_sorted key value l Hs) as Hs'. rewrite Hins in Hs'.
  rewrite Hins, Hl.
  apply sorted_app in Hs' as (_ & [Habove _]%sorted_cons & Hcross).
  rewrite list_delete_app_l.
  - by rewrite list_delete_head by apply keq_refl.
  - eapply Forall_impl; [exact Hcross |]. intros x Hx. by apply Forall_inv in Hx.
Qed.

(** Inserting a key that was just deleted: the same as inserting it at
    once, up to the key object kept. *)
Lemma list_lookup_insert_delete key key' value l :
  list_lookup key' (list_insert key value (list_delete key l)) =
  list_lookup key' (list_insert key value l).
Proof.
  destruct (Z.eqb_spec (compare_keys key' key) 0) as [Heq | Hne].
  - by rewrite !(list_lookup_keq key' key _ Heq), !list_lookup_insert_eq.
  - by rewrite !list_lookup_insert_ne, list_lookup_delete_ne.
Qed.

End assoc_more.

(** ** Lookups through the mapping protocol *)

Section lookup_methods.
Context {H : Host} {Htot : cmp_total}.
Variable Py_None : PyObject.

Lemma wf_tree_lookup btree key :
  wf_tree btree ->
  PyBTree_Search btree key = Return (list_lookup key (items btree)) /\
  PyBTree_Contains btree key = (if list_mem key (items btree) then 1 else 0).
Proof. intros Hwf. apply PyBTree_Search_spec. by apply wf_tree_searchable. Qed.

Lemma list_mem_true_lookup key l v : list_lookup key l = Some v -> list_mem key l = true.
Proof. intros Hl. apply list_mem_lookup. by rewrite Hl. Qed.

Lemma list_mem_false_lookup key l : list_lookup key l = None -> list_mem key l = false.
Proof.
  intros Hl. destruct (list_mem key l) eqn:Hm; [| done].
  apply list_mem_lookup in Hm as [v Hv]. congruence.
Qed.

(** X1.  On a well-formed tree, [self[key]] returns the value of the pair
    whose key compares equal to [key], and [key in self] is 1; when no
    stored key compares equal, [self[key]] raises [KeyError (key)] and
    [key in self] is 0. *)
Theorem subscript_hit_or_KeyError btree key :
  wf_tree btree ->
  (forall k v, (k, v) ∈ items btree -> keq key k ->
     btree_subscript btree key = Return v /\ btree_contains btree key = 1) /\
  ((forall s, s ∈ items btree -> ~ keq key s.1) ->
     btree_subscript btree key = Raise (KeyError (Some key)) /\
     btree_contains btree key = 0).
Proof.
  intros Hwf. destruct (wf_tree_lookup btree key Hwf) as [Hsearch Hcontains].
  pose proof (wf_tree_sorted btree Hwf) as Hsorted.
  unfold btree_subscript, btree_contains. rewrite Hsearch, Hcontains. split.
  - intros k v Hin Heq.
    pose proof (list_lookup_elem key k v _ Hsorted Hin Heq) as Hl.
    by rewrite Hl, (list_mem_true_lookup _ _ _ Hl).
  - intros Hmiss. destruct (list_lookup key (items btree)) as [v |] eqn:Hl.
    + apply list_lookup_Some_elem in Hl as (k & Hin & Heq).
      by destruct (Hmiss _ Hin).
    + by rewrite (list_mem_false_lookup _ _ Hl).
Qed.

(** X2.  On a well-formed tree whose comparator is a total order and does
    not fail ([cmp_total]), [get (key, default)] does not raise: it returns
    what [self[key]] returns when that succeeds, and otherwise the default
    given, or [None] when none was given.  After [self[key] = v] it returns
    [v], and after [del self[key]], whether that succeeded or not, it
    returns the default.  (A comparison that fails makes [PyBTree_Search]
    fail, and [get] passes that error on; such comparators are outside
    [cmp_total].) *)
Theorem get_value_or_default btree key arg v :
  wf_tree btree ->
  let default_value := match arg with Some d => d | None => Py_None end in
  btree_get Py_None btree key arg =
    match btree_subscript btree key with
    | Return value => Return value
    | Raise _ => Return default_value
    end /\
  (exists stored,
     btree_ass_subscript btree key (Some v) = Some (Return 0, stored) /\
     btree_get Py_None stored key arg = Return v) /\
  (exists r deleted,
     btree_ass_subscript btree key None = Some (r, deleted) /\
     btree_get Py_None deleted key arg = Return default_value).
Proof.
  intros Hwf default_value. destruct (wf_tree_lookup btree key Hwf) as [Hsearch _].
  pose proof (wf_tree_sorted btree Hwf) as Hsorted.
  split_and!.
  - unfold btree_get, btree_subscript. rewrite Hsearch.
    by destruct (list_lookup key (items btree)).
  - destruct (PyBTree_Insert_spec btree key v Hwf) as (b & Hins & Hwf' & _ & Hitems & _).
    exists b. split; [done |].
    destruct (wf_tree_lookup b key Hwf') as [Hsearch' _].
    unfold btree_get. by rewrite Hsearch', Hitems, list_lookup_insert_eq.
  - destruct (PyBTree_Delete_spec btree key Hwf) as (r & b & Hdel & _ & Hitems & Hb & _).
    exists r, b. split; [done |].
    destruct (PyBTree_Search_spec b key Hb) as [Hsearch' _].
    unfold btree_get. by rewrite Hsearch', Hitems, list_lookup_delete_eq.
Qed.

End lookup_methods.

(** ** pop, setdefault and the assignment slot *)

Section mutating_methods.
Context {H : Host} {Htot : cmp_total}.
Variable Py_None : PyObject.

(** X3.  On a well-formed tree, [pop (key[, default])] of a stored key
    returns its value and removes exactly its pair, keeping the
    invariants; [pop] of a key that is not stored does not touch the tree
    at all, and returns the default, or raises [KeyError (key)] when no
    default was given. *)
Theorem pop_removes_or_defaults btree key arg :
  wf_tree btree ->
  exists r btree',
    btree_pop btree key arg = Some (r, btree') /\
    match btree_subscript btree key with
    | Return value =>
        r = Return value /\ wf_tree btree' /\ size btree' = size btree - 1 /\
        (exists l1 s l2, items btree = l1 ++ s :: l2 /\ keq key s.1 /\
                         items btree' = l1 ++ l2) /\
        btree_subscript btree' key = Raise (KeyError (Some key))
    | Raise _ =>
        btree' = btree /\
        r = match arg with
            | Some default_value => Return default_value
            | None => Raise (KeyError (Some key))
            end
    end.
Proof.
  intros Hwf. destruct (wf_tree_lookup btree key Hwf) as [Hsearch _].
  pose proof (wf_tree_sorted btree Hwf) as Hsorted.
  unfold btree_pop, btree_subscript. rewrite Hsearch.
  destruct (list_lookup key (items btree)) as [v |] eqn:Hl.
  - destruct (PyBTree_Delete_spec btree key Hwf) as (r & b & -> & _ & Hitems & Hb & Hcase).
    rewrite (list_mem_true_lookup _ _ _ Hl) in Hcase. destruct Hcase as (-> & Hsize & Hwf').
    eexists _, b. split; [reflexivity |]. split_and!; try done.
    + rewrite Hitems. apply list_delete_present. by eapply list_mem_true_lookup.
    + destruct (wf_tree_lookup b key Hwf') as [-> _].
      by rewrite Hitems, list_lookup_delete_eq.
  - exists (match arg with Some d => Return d | None => Raise (KeyError (Some key)) end), btree.
    split; [by destruct arg | done].
Qed.

(** X4.  On a well-formed tree, [setdefault (key, default)] returns the
    value stored for [key] and leaves the tree as it is when [key] is
    stored; otherwise it stores the default ([None] when none is given)
    under [key] and returns it.  In both cases [self[key]] afterwards is the
    value returned, and the invariants hold. *)
Theorem setdefault_returns_stored btree key arg :
  wf_tree btree ->
  exists value btree',
    btree_setdefault Py_None btree key arg = Some (Return value, btree') /\
    wf_tree btree' /\
    btree_subscript btree' key = Return value /\
    match btree_subscript btree key with
    | Return old => value = old /\ btree' = btree
    | Raise _ =>
        value = match arg with Some d => d | None => Py_None end /\
        size btree' = size btree + 1 /\
        forall k, ~ keq k key -> PyBTree_Search btree' k = PyBTree_Search btree k
    end.
Proof.
  intros Hwf. destruct (wf_tree_lookup btree key Hwf) as [Hsearch _].
  pose proof (wf_tree_sorted btree Hwf) as Hsorted.
  unfold btree_setdefault, btree_subscript. rewrite Hsearch.
  destruct (list_lookup key (items btree)) as [v |] eqn:Hl.
  - exists v, btree. by rewrite Hsearch.
  - set (d := match arg with Some d => d | None => Py_None end).
    destruct (PyBTree_Insert_spec btree key d Hwf) as (b & -> & Hwf' & _ & Hitems & Hsize).
    rewrite (list_mem_false_lookup _ _ Hl) in Hsize.
    exists d, b. split; [done |]. split; [done |].
    destruct (wf_tree_lookup b key Hwf') as [Hs' _].
    split_and!; try done.
    + by rewrite Hs', Hitems, list_lookup_insert_eq.
    + intros k Hne. destruct (wf_tree_lookup b k Hwf') as [-> _].
      destruct (wf_tree_lookup btree k Hwf) as [-> _].
      by rewrite Hitems, list_lookup_insert_ne.
Qed.

(** X5.  On a well-formed tree that does not hold [key], [self[key] =
    value] followed by [del self[key]] succeeds and gives back a
    well-formed tree with the pairs and the size it had before. *)
Theorem store_then_delete_restores btree key value :
  wf_tree btree ->
  btree_contains btree key = 0 ->
  exists stored restored,
    btree_ass_subscript btree key (Some value) = Some (Return 0, stored) /\
    btree_ass_subscript stored key None = Some (Return 0, restored) /\
    wf_tree restored /\
    items restored = items btree /\
    btree_length restored = btree_length btree.
Proof.
  intros Hwf Hcontains. destruct (wf_tree_lookup btree key Hwf) as [_ Hc].
  unfold btree_contains in Hcontains. rewrite Hc in Hcontains.
  destruct (list_mem key (items btree)) eqn:Hmem; [done |].
  pose proof (wf_tree_sorted btree Hwf) as Hsorted.
  destruct (PyBTree_Insert_spec btree key value Hwf) as (b1 & Hins & Hwf1 & _ & Hitems1 & Hsize1).
  rewrite Hmem in Hsize1.
  destruct (PyBTree_Delete_spec b1 key Hwf1) as (r & b2 & Hdel & _ & Hitems2 & _ & Hcase).
  assert (list_mem key (items b1) = true) as Hmem1.
  { apply (list_mem_true_lookup _ _ value). rewrite Hitems1. apply list_lookup_insert_eq. }
  rewrite Hmem1 in Hcase. destruct Hcase as (-> & Hsize2 & Hwf2).
  exists b1, b2. unfold btree_ass_subscript, btree_length. split_and!; try done.
  - rewrite Hitems2, Hitems1. by apply list_delete_insert_fresh.
  - lia.
Qed.

End mutating_methods.

(** ** update and copy *)

Section update_methods.
Context {H : Host} {Htot : cmp_total}.

(** The pairs that the positional argument of [update] supplies, in the
    order in which they are inserted, when every step on the side of the
    host succeeds and every element of a sequence has length 2. *)
Definition update_pairs (arg : update_arg) : option (list slot) :=
  match arg with
  | UpdateNone => Some []
  | UpdateBTree other => Some (items other)
  | UpdateDict pairs => Some pairs
  | UpdateMapping (Return ks) getitem =>
      mapM (fun key => match getitem key with
                       | Return value => Some (key, value)
                       | Raise _ => None
                       end) ks
  | UpdateMapping (Raise _) _ => None
  | UpdateSeq2 seq2 =>
      mapM (fun element => match element with
                           | [key; value] => Some (key, value)
                           | _ => None
                           end) seq2
  end.

Lemma insert_items_app pairs1 pairs2 self :
  insert_items self (pairs1 ++ pairs2) =
  '(r, self') ← insert_items self pairs1;
  match r with
  | Raise e => Some (Raise e, self')
  | Return _ => insert_items self' pairs2
  end.
Proof.
  revert self. induction pairs1 as [| [k v] pairs1 IH]; intros self; simpl; [done |].
  destruct (PyBTree_Insert self k v) as [[r b] |]; simpl; [| done].
  destruct r; [apply IH | done].
Qed.

Lemma insert_items_Return pairs :
  forall self z self', insert_items self pairs = Some (Return z, self') -> z = 0.
Proof.
  induction pairs as [| [k v] pairs IH]; intros self z self'; simpl.
  - by intros [= <- _].
  - destruct (PyBTree_Insert self k v) as [[r b] |]; simpl; [| done].
    destruct r; [apply IH | done].
Qed.

Lemma update_from_mapping_pairs getitem ks :
  forall pairs self,
    mapM (fun key => match getitem key with
                     | Return value => Some (key, value)
                     | Raise _ => None
                     end) ks = Some pairs ->
    update_from_mapping self getitem ks = insert_items self pairs.
Proof.
  induction ks as [| k ks IH]; intros pairs self Hm; simpl in *.
  - by injection Hm as <-.
  - destruct (getitem k) as [v | e]; simpl in Hm; [| done].
    destruct (mapM _ ks) as [pairs' |]; simpl in Hm; [| done].
    injection Hm as <-. simpl.
    destruct (PyBTree_Insert self k v) as [[r b] |]; simpl; [| done].
    destruct r; [by apply IH | done].
Qed.

Lemma btree_merge_from_seq2_pairs seq2 :
  forall pairs rest self,
    mapM (fun element => match element with
                         | [key; value] => Some (key, value)
                         | _ => None
                         end) seq2 = Some pairs ->
    btree_merge_from_seq2 self (seq2 ++ rest) =
    '(r, self') ← insert_items self pairs;
    match r with
    | Raise e => Some (Raise e, self')
    | Return _ => btree_merge_from_seq2 self' rest
    end.
Proof.
  induction seq2 as [| element seq2 IH]; intros pairs rest self Hm; simpl in *.
  - injection Hm as <-. simpl. done.
  - destruct element as [| k [| v [| ? ?]]]; simpl in Hm; try done.
    destruct (mapM _ seq2) as [pairs' |]; simpl in Hm; [| done].
    injection Hm as <-. simpl.
    destruct (PyBTree_Insert self k v) as [[r b] |]; simpl; [| done].
    destruct r; [by apply IH | done].
Qed.

Lemma insert_items_lookup pairs self :
  wf_tree self ->
  exists self',
    insert_items self pairs = Some (Return 0, self') /\
    wf_tree self' /\ tree_order self' = tree_order self /\
    forall key,
      PyBTree_Search self' key =
      match list_lookup key (reverse pairs) with
      | Some value => Return (Some value)
      | None => PyBTree_Search self key
      end.
Proof.
  intros Hwf.
  destruct (insert_items_spec pairs self Hwf) as (b & Hins & Hwf' & Horder & Hitems).
  exists b. split_and!; try done. intros key.
  destruct (wf_tree_lookup b key Hwf') as [-> _].
  destruct (wf_tree_lookup self key Hwf) as [-> _].
  rewrite Hitems, foldl_insert_lookup. by destruct (list_lookup key (reverse pairs)).
Qed.

(** X6.  [update (arg, **kwds)] on a well-formed tree, when the argument
    supplies its pairs without failure, succeeds and keeps the invariants;
    afterwards every key has the value of the last pair, among those of the
    argument followed by the keyword arguments, whose key compares equal to
    it, and the value it had before when there is none. *)
Theorem update_last_pair_wins self arg kwds pairs :
  wf_tree self ->
  (forall other, arg = UpdateBTree other -> wf_tree other) ->
  update_pairs arg = Some pairs ->
  exists self',
    btree_update_common self arg kwds = Some (Return 0, self') /\
    wf_tree self' /\
    forall key,
      PyBTree_Search self' key =
      match list_lookup key (reverse (pairs ++ kwds)) with
      | Some value => Return (Some value)
      | None => PyBTree_Search self key
      end.
Proof.
  intros Hwf Hother Hpairs.
  assert (match arg with
          | UpdateNone => Some (Return 0, self)
          | UpdateBTree other => btree_update_from_btree self other
          | UpdateDict pairs => insert_items self pairs
          | UpdateMapping (Raise e) _ => Some (Raise e, self)
          | UpdateMapping (Return ks) getitem => update_from_mapping self getitem ks
          | UpdateSeq2 seq2 => btree_merge_from_seq2 self seq2
          end = insert_items self pairs) as Hfirst.
  { destruct arg as [| other | ps | [ks | e] getitem | seq2]; simpl in Hpairs.
    - by injection Hpairs as <-.
    - injection Hpairs as <-. unfold btree_update_from_btree.
      by rewrite (PyBTree_Items_spec other (Hother other eq_refl)).
    - by injection Hpairs as <-.
    - by apply update_from_mapping_pairs.
    - done.
    - rewrite <- (app_nil_r seq2).
      rewrite (btree_merge_from_seq2_pairs seq2 pairs [] self Hpairs). simpl.
      destruct (insert_items self pairs) as [[[z | e] b] |] eqn:Hins; simpl; try done.
      by rewrite (insert_items_Return pairs self z b Hins). }
  destruct (insert_items_lookup (pairs ++ kwds) self Hwf) as (b & Hins & Hwf' & _ & Hlook).
  exists b. split; [| done].
  unfold btree_update_common. rewrite Hfirst.
  rewrite insert_items_app in Hins.
  destruct (insert_items self pairs) as [[[z | e] b1] |]; simpl in *; done.
Qed.

(** X7.  [update] from a sequence is not atomic: when the elements up to
    some position have length 2 and the next one has not, the call fails
    with [ValueError], the pairs before that position stay stored, and
    neither the rest of the sequence nor the keyword arguments are
    applied. *)
Theorem update_stops_at_bad_element self seq2 pairs bad rest kwds :
  wf_tree self ->
  update_pairs (UpdateSeq2 seq2) = Some pairs ->
  length bad <> 2%nat ->
  exists self',
    btree_update_common self (UpdateSeq2 (seq2 ++ bad :: rest)) kwds
      = Some (Raise ValueError, self') /\
    insert_items self pairs = Some (Return 0, self') /\
    wf_tree self' /\
    forall key,
      PyBTree_Search self' key =
      match list_lookup key (reverse pairs) with
      | Some value => Return (Some value)
      | None => PyBTree_Search self key
      end.
Proof.
  intros Hwf Hpairs Hbad.
  destruct (insert_items_lookup pairs self Hwf) as (b & Hins & Hwf' & _ & Hlook).
  exists b. split_and!; try done.
  unfold btree_update_common. simpl in Hpairs.
  rewrite (btree_merge_from_seq2_pairs seq2 pairs (bad :: rest) self Hpairs), Hins.
  simpl. destruct bad as [| k [| v [| ? ?]]]; simpl in *; done.
Qed.

(** X8.  [copy ()] of a well-formed tree, of an order that
    [btreenode_new] can size ([2 * order] is an [int], as for every tree
    that was built), succeeds and gives a well-formed tree of the same order
    that holds the same pairs in the same order and has the same size. *)
Theorem copy_same_pairs btree :
  wf_tree btree -> 2 * tree_order btree <= INT_MAX ->
  exists new_btree,
    btree_copy btree = Some (Return new_btree) /\
    wf_tree new_btree /\
    tree_order new_btree = tree_order btree /\
    PyBTree_Items new_btree = PyBTree_Items btree /\
    items new_btree = items btree /\
    size new_btree = size btree.
Proof.
  intros Hwf Hfits. pose proof (wf_tree_sorted btree Hwf) as Hsorted.
  assert (2 <= tree_order btree) as Hmin by (by destruct Hwf as (_ & _ & _ & Ht & _)).
  pose proof (PyBTree_New_fits _ Hmin Hfits) as Hnew.
  unfold btree_copy. rewrite Hnew. cbn [mbind option_bind].
  rewrite (PyBTree_Items_spec btree Hwf). simpl.
  destruct (insert_items_spec (items btree) _ (PyBTree_New_wf _ _ Hnew))
    as (b & -> & Hwf' & Horder & Hitems).
  assert (items b = items btree) as Hsame.
  { rewrite Hitems. unfold items at 1. simpl. by apply foldl_insert_ascending. }
  exists b. split_and!; try done.
  - by rewrite (PyBTree_Items_spec b Hwf'), Hsame.
  - by rewrite (wf_tree_size b Hwf'), (wf_tree_size btree Hwf), Hsame.
Qed.

End update_methods.

(** ** Sorted views, extremes and comparison of trees *)

Section views.
Context {H : Host} {Htot : cmp_total}.

Lemma collect_into_wf {A : Type} (collect : PyBTreeNode -> list A) (f : slot -> A) btree :
  (forall node, collect node = f <$> collect_items_fast node) ->
  wf_tree btree -> collect_into collect btree = Some (f <$> items btree).
Proof.
  intros Hcollect Hwf. pose proof (wf_tree_size btree Hwf) as Hsize.
  unfold collect_into. destruct Hwf as (r & h & Hroot & _).
  unfold items in *. rewrite Hroot in *. rewrite Hcollect, length_fmap.
  destruct (Z.gtb_spec (size btree) 0) as [Hpos | Hzero].
  - by rewrite Hsize, Z.eqb_refl.
  - by destruct (collect_items_fast r); [| simpl in Hsize; lia].
Qed.

(** X9.  On a well-formed tree, [keys ()], [values ()] and [items ()]
    succeed and have [len (self)] entries each; the keys are strictly
    increasing; the items are the keys paired with the values, position by
    position; and looking up the key at a position gives the value at that
    position. *)
Theorem keys_values_items_aligned btree :
  wf_tree btree ->
  exists ks vs,
    PyBTree_Keys btree = Some ks /\ PyBTree_Values btree = Some vs /\
    PyBTree_Items btree = Some (zip ks vs) /\
    Z.of_nat (length ks) = btree_length btree /\
    Z.of_nat (length vs) = btree_length btree /\
    StronglySorted klt ks /\
    forall (i : nat) k v, ks !! i = Some k -> vs !! i = Some v ->
      PyBTree_Search btree k = Return (Some v).
Proof.
  intros Hwf. pose proof (wf_tree_sorted btree Hwf) as Hsorted.
  pose proof (wf_tree_size btree Hwf) as Hsize.
  exists (items btree).*1, (items btree).*2. unfold btree_length.
  split_and!.
  - apply (collect_into_wf collect_keys_fast fst); [apply collect_keys_fast_items | done].
  - apply (collect_into_wf collect_values_fast snd); [apply collect_values_fast_items | done].
  - rewrite zip_fst_snd. by apply PyBTree_Items_spec.
  - by rewrite length_fmap.
  - by rewrite length_fmap.
  - exact Hsorted.
  - intros i k v Hk Hv. rewrite list_lookup_fmap in Hk, Hv.
    destruct (items btree !! i) as [[k' v'] |] eqn:Hi; simpl in Hk, Hv; [| done].
    injection Hk as <-. injection Hv as <-.
    destruct (wf_tree_lookup btree k' Hwf) as [-> _]. f_equal.
    apply (list_lookup_elem k' k' v' _ Hsorted); [| apply keq_refl].
    by eapply list_elem_of_lookup_2.
Qed.

(** X10.  On a well-formed tree, [min ()] is the first and [max ()] the
    last entry of [keys ()], so that every other key is above the minimum
    and below the maximum; on an empty tree both raise [ValueError]. *)
Theorem min_max_are_extremes btree :
  wf_tree btree ->
  exists ks,
    PyBTree_Keys btree = Some ks /\
    btree_min btree = Some (match head ks with
                            | Some k => Return k
                            | None => Raise ValueError
                            end) /\
    btree_max btree = Some (match last ks with
                            | Some k => Return k
                            | None => Raise ValueError
                            end) /\
    (forall kmin k (i : nat), head ks = Some kmin -> ks !! S i = Some k -> klt kmin k) /\
    (forall kmax k (i : nat), last ks = Some kmax -> ks !! i = Some k ->
       (S i < length ks)%nat -> klt k kmax).
Proof.
  intros Hwf. pose proof (wf_tree_sorted btree Hwf) as Hsorted.
  exists (items btree).*1. split.
  { apply (collect_into_wf collect_keys_fast fst); [apply collect_keys_fast_items | done]. }
  unfold btree_min, btree_max. split_and!.
  - destruct (items btree) as [| s l] eqn:Hitems.
    + pose proof (wf_tree_size btree Hwf) as Hsize. rewrite Hitems in Hsize.
      destruct Hwf as (r & h & Hroot & Ht & Hshape & _ & Hleaf & _).
      unfold items in Hitems. rewrite Hroot in Hitems.
      unfold PyBTree_GetMin, get_min_from_node. rewrite Hroot.
      destruct (Z.eqb_spec (n_keys r) 0) as [| Hn]; [done |].
      pose proof (n_keys_nonneg r).
      destruct (leftmost_slot_spec _ h r Ht Hshape ltac:(lia)) as (s & Y & _ & Hino).
      congruence.
    + destruct (ends_first btree s l Hwf Hitems) as (r & _ & _ & ->). done.
  - destruct (items btree) as [| s0 l0] eqn:Hitems using rev_ind.
    + pose proof (wf_tree_size btree Hwf) as Hsize. rewrite Hitems in Hsize.
      destruct Hwf as (r & h & Hroot & Ht & Hshape & _ & Hleaf & _).
      unfold items in Hitems. rewrite Hroot in Hitems.
      unfold PyBTree_GetMax, get_max_from_node. rewrite Hroot.
      destruct (Z.eqb_spec (n_keys r) 0) as [| Hn]; [done |].
      pose proof (n_keys_nonneg r).
      destruct (rightmost_slot_spec _ h r Ht Hshape ltac:(lia)) as (X & s & _ & Hino).
      rewrite Hino in Hitems. by destruct X.
    + clear IHl0. destruct (ends_last btree l0 s0 Hwf Hitems) as (r & _ & _ & ->).
      rewrite fmap_app. simpl. by rewrite last_snoc.
  - intros kmin k i Hhead Hk. unfold sorted in Hsorted.
    destruct ((items btree).*1) as [| k0 ks]; [done |].
    injection Hhead as ->. simpl in Hk.
    apply StronglySorted_inv in Hsorted as [_ Hall].
    rewrite Forall_forall in Hall. apply Hall. by eapply list_elem_of_lookup_2.
  - intros kmax k i Hlast Hk Hi. unfold sorted in Hsorted.
    destruct ((items btree).*1) as [| k0 ks] using rev_ind; [done |]. clear IHks.
    rewrite last_snoc in Hlast. injection Hlast as ->.
    rewrite length_app in Hi. simpl in Hi.
    rewrite lookup_app_l in Hk by lia.
    assert (Forall (fun x => klt x kmax) ks) as Hall.
    { clear Hk Hi. induction ks as [| x ks IH]; [constructor |].
      simpl in Hsorted. apply StronglySorted_inv in Hsorted as [Hs Hx].
      constructor; [| by apply IH].
      rewrite Forall_app, Forall_singleton in Hx. tauto. }
    rewrite Forall_forall in Hall. apply Hall. by eapply list_elem_of_lookup_2.
Qed.

End views.

Section compare_trees.
Context {H : Host} {Htot : cmp_total}.
Variable PyList_Equal : list slot -> list slot -> Z.

(** X11.  [==] and [!=] on well-formed trees look at the pairs only, not at
    the order parameter or the shape of the trees: two trees that hold the
    same pairs are equal, provided the host finds a list of pairs equal to
    itself, and two trees of different sizes are unequal without any
    comparison by the host.  [!=] always answers the opposite of [==]. *)
Theorem richcompare_by_content a b :
  wf_tree a -> wf_tree b ->
  (items a = items b -> PyList_Equal (items a) (items a) = 1 ->
     btree_richcompare PyList_Equal a (Some b) Op_EQ = Some (Return (Some true)) /\
     btree_richcompare PyList_Equal a (Some b) Op_NE = Some (Return (Some false))) /\
  (length (items a) <> length (items b) ->
     btree_richcompare PyList_Equal a (Some b) Op_EQ = Some (Return (Some false)) /\
     btree_richcompare PyList_Equal a (Some b) Op_NE = Some (Return (Some true))) /\
  (forall equal,
     btree_richcompare PyList_Equal a (Some b) Op_EQ = Some (Return (Some equal)) ->
     btree_richcompare PyList_Equal a (Some b) Op_NE = Some (Return (Some (negb equal)))).
Proof.
  intros Hwfa Hwfb.
  pose proof (wf_tree_size a Hwfa) as Hsa. pose proof (wf_tree_size b Hwfb) as Hsb.
  unfold btree_richcompare.
  rewrite (PyBTree_Items_spec a Hwfa), (PyBTree_Items_spec b Hwfb). cbn [mbind option_bind].
  split_and!.
  - intros Hsame Hrefl. rewrite <- Hsame, Hrefl.
    assert (size a = size b) as <- by (rewrite Hsa, Hsb, Hsame; done).
    rewrite Z.eqb_refl. simpl. by destruct (size a =? 0).
  - intros Hlen. destruct (Z.eqb_spec (size a) (size b)) as [Heq | Hne]; [lia | done].
  - intros equal. destruct (size a =? size b); simpl; [| by intros [= <-]].
    destruct (size a =? 0); [by intros [= <-] |].
    destruct (PyList_Equal (items a) (items b) <? 0); [done |]. by intros [= <-].
Qed.

End compare_trees.

(** ** Iterators: length hints and the end of iteration *)

Section iterator_protocol.
Context {H : Host}.

(** [n] calls of [next], or fewer when the end is reported earlier: the
    keys returned and the iterator left. *)
Fixpoint iter_take
    (next : PyBTreeIterObject -> option (option PyObject * PyBTreeIterObject))
    (n : nat) (it : PyBTreeIterObject) : option (list PyObject * PyBTreeIterObject) :=
  match n with
  | O => Some ([], it)
  | S n' =>
      match next it with
      | None => None
      | Some (None, it') => Some ([], it')
      | Some (Some k, it') =>
          '(ks, it'') ← iter_take next n' it'; Some (k :: ks, it'')
      end
  end.

Lemma btreeiter_next_loop_end remaining st :
  forall remaining' st',
    btreeiter_next_loop remaining st = Some (None, remaining', st') ->
    remaining' = remaining /\ st' = [].
Proof.
  induction st as [| f rest IH]; intros remaining' st'; simpl.
  - by intros [= <- <-].
  - destruct (key_idx f <? n_keys (frame_node f)); [| apply IH].
    destruct (slot_at _ _); [| done]. simpl.
    by destruct (if is_leaf (frame_node f) then _ else _).
Qed.

Lemma btreereviter_next_loop_end remaining st :
  forall remaining' st',
    btreereviter_next_loop remaining st = Some (None, remaining', st') ->
    remaining' = remaining /\ st' = [].
Proof.
  induction st as [| f rest IH]; intros remaining' st'; simpl.
  - by intros [= <- <-].
  - destruct (0 <=? key_idx f); [| apply IH].
    destruct (slot_at _ _); [| done]. simpl.
    by destruct (if is_leaf (frame_node f) then _ else _).
Qed.

Lemma btreerangeiter_next_loop_end hi imax st :
  forall st',
    btreerangeiter_next_loop hi imax st = Some (Return None, st') ->
    btreerangeiter_next_loop hi imax st' = Some (Return None, st').
Proof.
  induction st as [| f rest IH]; intros st'; simpl.
  - by intros [= <-].
  - destruct (key_idx f <? n_keys (frame_node f)) eqn:Hidx; [| apply IH].
    destruct (slot_at _ _) as [s |] eqn:Hs; [| done]. simpl.
    set (c := match hi with Some m => compare_keys s.1 m | None => -1 end).
    destruct (c =? -2) eqn:Herr; [done |].
    destruct (if imax then c >? 0 else c >=? 0) eqn:Hpast.
    + intros [= <-]. simpl. rewrite Hidx, Hs. simpl. fold c. by rewrite Herr, Hpast.
    + by destruct (if is_leaf (frame_node f) then _ else _).
Qed.

(** X12.  The end of iteration is final: once [next] of the forward, the
    reverse or the range iterator has reported the end, the iterator does
    not change any more and every later call reports the end again. *)
Theorem iteration_end_is_final it it' rit rit' :
  (btreeiter_next it = Some (None, it') -> btreeiter_next it' = Some (None, it')) /\
  (btreereviter_next it = Some (None, it') -> btreereviter_next it' = Some (None, it')) /\
  (btreerangeiter_next rit = Some (Return None, rit') ->
   btreerangeiter_next rit' = Some (Return None, rit')).
Proof.
  split_and!.
  - unfold btreeiter_next.
    destruct (btreeiter_next_loop _ _) as [[[r rem'] st'] |] eqn:Hloop; [| done].
    simpl. intros [= -> <-]. simpl.
    by destruct (btreeiter_next_loop_end _ _ _ _ Hloop) as [-> ->].
  - unfold btreereviter_next.
    destruct (btreereviter_next_loop _ _) as [[[r rem'] st'] |] eqn:Hloop; [| done].
    simpl. intros [= -> <-]. simpl.
    by destruct (btreereviter_next_loop_end _ _ _ _ Hloop) as [-> ->].
  - unfold btreerangeiter_next.
    destruct (if started rit then _ else _) as [st0 |]; [| done]. simpl.
    destruct (btreerangeiter_next_loop _ _ st0) as [[r st'] |] eqn:Hloop; [| done].
    simpl. intros [= -> <-]. simpl.
    by rewrite (btreerangeiter_next_loop_end _ _ _ _ Hloop).
Qed.

End iterator_protocol.

Section length_hints.
Context {H : Host}.
#[local] Abbreviation fwd_ok t := (stack_ok t 0 n_keys).
#[local] Abbreviation bwd_ok t := (stack_ok t (-1) (fun node => n_keys node - 1)).

Lemma btree_iter_stack btree :
  wf_tree btree -> size btree <= PY_SSIZE_T_MAX ->
  exists st,
    btree_iter btree = Some (mkIter btree (size btree) st) /\
    fwd_ok (tree_order btree) st /\ stack_rest st = items btree.
Proof.
  intros (r & h & Hroot & Ht & Hshape & Hord & Hleaf & Hsize) Hmax.
  unfold btree_iter, items. rewrite Hroot.
  destruct (Z.gtb_spec (n_keys r) 0) as [Hn | Hn].
  - destruct (iter_descend_left_spec (tree_order btree) h r []) as (st & -> & Hok & Hrest);
      try done.
    { apply (root_room (tree_order btree) h r); try done; lia. }
    exists st. split_and!; try done. by rewrite Hrest, app_nil_r.
  - exists []. split_and!; try done.
    by rewrite (empty_root_items (tree_order btree) h r) by (done || lia).
Qed.

Lemma btree_reversed_stack btree :
  wf_tree btree -> size btree <= PY_SSIZE_T_MAX ->
  exists st,
    btree_reversed btree = Some (mkIter btree (size btree) st) /\
    bwd_ok (tree_order btree) st /\ stack_rrest st = reverse (items btree).
Proof.
  intros (r & h & Hroot & Ht & Hshape & Hord & Hleaf & Hsize) Hmax.
  unfold btree_reversed, items. rewrite Hroot.
  destruct (Z.gtb_spec (n_keys r) 0) as [Hn | Hn].
  - destruct (iter_descend_right_spec (tree_order btree) h r []) as (st & -> & Hok & Hrest);
      try done.
    { apply (root_room (tree_order btree) h r); try done; lia. }
    exists st. split_and!; try done. by rewrite Hrest, app_nil_r.
  - exists []. split_and!; try done.
    by rewrite (empty_root_items (tree_order btree) h r) by (done || lia).
Qed.

Lemma iter_take_forward t n :
  forall out st rem btree,
    fwd_ok t st -> stack_rest st = out ->
    exists it',
      iter_take btreeiter_next n (mkIter btree rem st) = Some ((take n out).*1, it') /\
      remaining it' = rem - Z.of_nat (length (take n out)).
Proof.
  induction n as [| n IH]; intros out st rem btree Hok Hout.
  - eexists. split; [reflexivity |]. simpl. lia.
  - destruct (btreeiter_next_loop_spec t rem st Hok) as (res & Hres & Hpost).
    rewrite Hout in Hpost. cbn [iter_take]. unfold btreeiter_next at 1.
    cbn [remaining stack it_btree]. rewrite Hres.
    destruct out as [| s out].
    + subst res. eexists. split; [reflexivity |]. simpl. lia.
    + destruct Hpost as (st' & -> & Hok' & Hout').
      destruct (IH out st' (rem - 1) btree Hok' Hout') as (it' & Htake & Hrem).
      simpl. rewrite Htake. eexists. split; [reflexivity |]. rewrite Hrem. simpl. lia.
Qed.

Lemma iter_take_backward t n :
  forall out st rem btree,
    bwd_ok t st -> stack_rrest st = out ->
    exists it',
      iter_take btreereviter_next n (mkIter btree rem st) = Some ((take n out).*1, it') /\
      remaining it' = rem - Z.of_nat (length (take n out)).
Proof.
  induction n as [| n IH]; intros out st rem btree Hok Hout.
  - eexists. split; [reflexivity |]. simpl. lia.
  - destruct (btreereviter_next_loop_spec t rem st Hok) as (res & Hres & Hpost).
    rewrite Hout in Hpost. cbn [iter_take]. unfold btreereviter_next at 1.
    cbn [remaining stack it_btree]. rewrite Hres.
    destruct out as [| s out].
    + subst res. eexists. split; [reflexivity |]. simpl. lia.
    + destruct Hpost as (st' & -> & Hok' & Hout').
      destruct (IH out st' (rem - 1) btree Hok' Hout') as (it' & Htake & Hrem).
      simpl. rewrite Htake. eexists. split; [reflexivity |]. rewrite Hrem. simpl. lia.
Qed.

(** X13.  On a well-formed tree, [n] calls of [next] on a fresh forward
    iterator return the first [n] entries of [keys ()] (all of them when
    there are fewer), and [__length_hint__] is then the number of keys not
    yet returned; likewise for the reverse iterator and the reversed list
    of keys. *)
Theorem length_hint_counts_down btree (n : nat) :
  wf_tree btree -> size btree <= PY_SSIZE_T_MAX ->
  exists ks it rit it' rit',
    PyBTree_Keys btree = Some ks /\
    btree_iter btree = Some it /\ btree_reversed btree = Some rit /\
    btreeiter_len it = Z.of_nat (length ks) /\ btreereviter_len rit = Z.of_nat (length ks) /\
    iter_take btreeiter_next n it = Some (take n ks, it') /\
    btreeiter_len it' = Z.of_nat (length ks - n) /\
    iter_take btreereviter_next n rit = Some (take n (reverse ks), rit') /\
    btreereviter_len rit' = Z.of_nat (length ks - n).
Proof.
  intros Hwf Hmax. pose proof (wf_tree_size btree Hwf) as Hsize.
  destruct (btree_iter_stack btree Hwf Hmax) as (st & Hit & Hok & Hrest).
  destruct (btree_reversed_stack btree Hwf Hmax) as (rst & Hrit & Hrok & Hrrest).
  destruct (iter_take_forward (tree_order btree) n _ st (size btree) btree Hok Hrest)
    as (it' & Htake & Hrem).
  destruct (iter_take_backward (tree_order btree) n _ rst (size btree) btree Hrok Hrrest)
    as (rit' & Hrtake & Hrrem).
  rewrite length_take in Hrem. rewrite length_take, length_reverse in Hrrem.
  exists (items btree).*1, (mkIter btree (size btree) st), (mkIter btree (size btree) rst),
    it', rit'.
  rewrite length_fmap, <- fmap_reverse, <- !fmap_take.
  unfold btreeiter_len, btreereviter_len. cbn [remaining].
  split_and!; try done.
  - apply (collect_into_wf collect_keys_fast fst); [apply collect_keys_fast_items | done].
  - rewrite Hsize. by destruct (Z.gtb_spec (Z.of_nat (length (items btree))) 0); [| lia].
  - rewrite Hsize. by destruct (Z.gtb_spec (Z.of_nat (length (items btree))) 0); [| lia].
  - rewrite Hrem, Hsize.
    destruct (Z.gtb_spec (Z.of_nat (length (items btree)) -
                          Z.of_nat (n `min` length (items btree))) 0); lia.
  - rewrite Hrrem, Hsize.
    destruct (Z.gtb_spec (Z.of_nat (length (items btree)) -
                          Z.of_nat (n `min` length (items btree))) 0); lia.
Qed.

End length_hints.

(** ** Draining a tree with [popitem] *)

Section drain.
Context {H : Host} {Htot : cmp_total}.

(** [n] calls of [popitem], stopping at the first one that raises. *)
Fixpoint popitem_all (n : nat) (arg : option Z) (btree : PyBTreeObject)
    : option (list slot * PyBTreeObject) :=
  match n with
  | O => Some ([], btree)
  | S n' =>
      '(r, btree') ← btree_popitem btree arg;
      match r with
      | Raise _ => Some ([], btree')
      | Return s => '(l, btree'') ← popitem_all n' arg btree'; Some (s :: l, btree'')
      end
  end.

Lemma popitem_empty btree arg :
  wf_tree btree -> items btree = [] ->
  is_ssize_t (match arg with Some i => i | None => -1 end) = true ->
  btree_popitem btree arg = Some (Raise (KeyError None), btree).
Proof.
  intros Hwf Hitems Hrange. pose proof (wf_tree_size btree Hwf) as Hsize.
  rewrite Hitems in Hsize. unfold btree_popitem. by rewrite Hrange, Hsize.
Qed.

Lemma popitem_first btree s l :
  wf_tree btree -> items btree = s :: l ->
  exists btree',
    btree_popitem btree (Some 0) = Some (Return s, btree') /\
    wf_tree btree' /\ items btree' = l.
Proof.
  intros Hwf Hitems. unfold btree_popitem.
  cbv zeta. cbv iota. change (is_ssize_t 0) with true. cbn [negb].
  destruct (wf_tree_nonempty btree Hwf) as [Hnz _]; [by rewrite Hitems |].
  destruct (Z.eqb_spec (size btree) 0) as [| _]; [done |].
  destruct (ends_first btree s l Hwf Hitems) as (r & _ & _ & Hmin).
  cbn [Z.eqb]. rewrite Hmin. cbn [mbind option_bind].
  destruct (pop_key btree s l Hwf) as (b & Hpop & Hwf' & Hitems' & _).
  { rewrite Hitems. apply list_lookup_head, keq_refl. }
  { rewrite Hitems. apply list_delete_head, keq_refl. }
  exists b. by rewrite Hpop.
Qed.

Lemma popitem_last btree l s :
  wf_tree btree -> items btree = l ++ [s] ->
  exists btree',
    btree_popitem btree None = Some (Return s, btree') /\
    wf_tree btree' /\ items btree' = l.
Proof.
  intros Hwf Hitems. unfold btree_popitem.
  cbv zeta. cbv iota. change (is_ssize_t (-1)) with true. cbn [negb].
  pose proof (wf_tree_sorted btree Hwf) as Hsorted. rewrite Hitems in Hsorted.
  destruct (wf_tree_nonempty btree Hwf) as [Hnz _]; [rewrite Hitems; by destruct l |].
  destruct (Z.eqb_spec (size btree) 0) as [| _]; [done |].
  destruct (ends_last btree l s Hwf Hitems) as (r & _ & _ & Hmax).
  cbv zeta. change (-1 =? 0) with false. change (-1 =? -1) with true.
  cbn [orb]. rewrite Hmax. cbn [mbind option_bind].
  destruct (pop_key btree s l Hwf) as (b & Hpop & Hwf' & Hitems' & _).
  { rewrite Hitems, list_lookup_app_l.
    - apply list_lookup_head, keq_refl.
    - apply sorted_snoc in Hsorted as [_ Hbelow]. exact Hbelow. }
  { rewrite Hitems. apply list_delete_last; [done | apply keq_refl]. }
  exists b. by rewrite Hpop.
Qed.

(** X14.  On a well-formed tree, [n] calls of [popitem (0)] return the
    first [n] pairs in ascending order of key and leave the other pairs in
    a well-formed tree; [n] calls of [popitem ()] return the last [n] pairs
    in descending order.  Once the tree is empty the next call raises
    [KeyError] and leaves it as it is. *)
Theorem popitem_drains_in_order btree (n : nat) :
  wf_tree btree ->
  (exists btree',
     popitem_all n (Some 0) btree = Some (take n (items btree), btree') /\
     wf_tree btree' /\ items btree' = drop n (items btree) /\
     ((length (items btree) <= n)%nat ->
      btree_popitem btree' (Some 0) = Some (Raise (KeyError None), btree'))) /\
  (exists btree',
     popitem_all n None btree = Some (take n (reverse (items btree)), btree') /\
     wf_tree btree' /\ items btree' = take (length (items btree) - n) (items btree) /\
     ((length (items btree) <= n)%nat ->
      btree_popitem btree' None = Some (Raise (KeyError None), btree'))).
Proof.
  revert btree. induction n as [| n IH]; intros btree Hwf.
  - split; exists btree; cbn [popitem_all].
    + rewrite take_0, drop_0. split_and!; try done.
      intros Hlen. apply popitem_empty; [done | | done].
      destruct (items btree); [done | simpl in Hlen; lia].
    + rewrite take_0, Nat.sub_0_r, firstn_all. split_and!; try done.
      intros Hlen. apply popitem_empty; [done | | done].
      destruct (items btree); [done | simpl in Hlen; lia].
  - split.
    + destruct (items btree) as [| s l] eqn:Hitems.
      * exists btree. cbn [popitem_all]. rewrite popitem_empty by done.
        split_and!; try done.
      * destruct (popitem_first btree s l Hwf Hitems) as (b & Hpop & Hwf' & Hitems').
        destruct (IH b Hwf') as [(b' & Hall & Hwf'' & Hrest & Hend) _].
        exists b'. cbn [popitem_all]. rewrite Hpop. cbn [mbind option_bind].
        rewrite Hall, Hitems'. cbn [mbind option_bind take drop].
        rewrite Hitems' in Hrest, Hend. split_and!; try done.
        intros Hlen. apply Hend. simpl in Hlen. lia.
    + destruct (items btree) as [| s0 l0] eqn:Hitems.
      * exists btree. cbn [popitem_all]. rewrite popitem_empty by done.
        split_and!; try done.
      * destruct (exists_last (l := s0 :: l0)) as (l & s & Hsnoc); [done |].
        rewrite Hsnoc in *. clear s0 l0 Hsnoc.
        destruct (popitem_last btree l s Hwf Hitems) as (b & Hpop & Hwf' & Hitems').
        destruct (IH b Hwf') as [_ (b' & Hall & Hwf'' & Hrest & Hend)].
        exists b'. cbn [popitem_all]. rewrite Hpop. cbn [mbind option_bind].
        rewrite Hall, Hitems', reverse_snoc. cbn [mbind option_bind take].
        rewrite Hitems' in Hrest, Hend. rewrite length_app. cbn [length].
        replace (length l + 1 - S n)%nat with (length l - n)%nat by lia.
        rewrite take_app_le by lia. split_and!; try done.
        intros Hlen. apply Hend. lia.
Qed.

End drain.

(** ** Splitting, merging and borrowing as inverse moves *)

Section inverse_moves.
Context {H : Host}.
#[local] Abbreviation ino := collect_items_fast.


(** X16.  [borrow_from_next] is the inverse of [borrow_from_prev]: in a
    node of a well-shaped tree whose [children[j]] has a key to give,
    moving a key from [children[j]] through the separator into
    [children[j+1]] keeps the in-order sequence of pairs, and moving one
    back from [children[j+1]] into [children[j]] gives the node back,
    field by field. *)
Theorem borrow_next_undoes_borrow_prev t h node (j : nat) sib c :
  2 <= t -> shape t (S h) node ->
  children node !! j = Some sib -> children node !! S j = Some c ->
  1 <= n_keys sib -> n_keys c < 2 * t - 1 ->
  exists node',
    borrow_from_prev node (S j) = Some node' /\
    ino node' = ino node /\
    borrow_from_next node' j = Some node.
Proof.
  intros Ht Hshape Hsib Hc Hnsib Hnc.
  pose proof Hshape as (Horder & _ & Hleaf & Hlen & Hall)%shape_internal.
  destruct (children_focus _ _ j sib Hlen Hsib)
    as (cs1 & cs2' & ss1 & ss2' & Hcs & Hss & Hcs1 & Hss1 & Hcs2).
  assert (exists cs2, cs2' = c :: cs2) as (cs2 & ->).
  { rewrite Hcs in Hc. rewrite (cons_middle sib), app_assoc in Hc.
    rewrite lookup_app_r in Hc by (rewrite length_app; simpl; lia).
    rewrite length_app in Hc. simpl in Hc.
    replace (S j - (length cs1 + 1))%nat with 0%nat in Hc by lia.
    destruct cs2' as [| c' cs2]; [done |]. injection Hc as ->. by exists cs2. }
  destruct ss2' as [| sep ss2]; [done |].
  assert (shape t h sib /\ shape t h c) as [Hsshape Hcshape].
  { rewrite Hcs, Forall_app, !Forall_cons in Hall. tauto. }
  destruct (borrow_from_prev_spec t h node (S j) c sib sep cs1 cs2 ss1 ss2)
    as (c' & sib' & up & X & Hprev & Hc' & Hsib' & _ & _ & HinoS & HinoC);
    try done; try (simpl; lia).
  assert (length cs2 = length ss2) as Hlen2 by (simpl in Hcs2; lia).
  eexists. split; [exact Hprev |]. split.
  { rewrite !collect_items_fast_eq. cbn [is_leaf slots children]. rewrite Hleaf, Hcs, Hss.
    rewrite (cons_middle sib cs1), (cons_middle sib' cs1), !app_assoc.
    rewrite !(zipio_app ino (cs1 ++ [_]) (_ :: cs2) ss1 _ ss2)
      by (rewrite length_app; simpl; lia).
    assert (forall x, zipio ino (cs1 ++ [x]) ss1 = zl ino cs1 ss1 ++ ino x) as Hz.
    { intros x. rewrite <- (app_nil_r ss1) at 1.
      rewrite (zipio_focus ino cs1 x [] ss1 []) by (done || lia).
      simpl. by rewrite app_nil_r. }
    rewrite !Hz, !zipio_cons_zr by done.
    rewrite HinoS, HinoC. by rewrite <- !app_assoc. }
  clear HinoS HinoC Hc' Hsib' X.
  destruct node as [pleaf pss pcs po]. cbn [is_leaf slots children order] in *.
  subst pss pcs.
  revert Hprev. unfold borrow_from_prev. cbn [is_leaf slots children order].
  rewrite (cons_middle sib cs1 (c :: cs2)), app_assoc.
  rewrite (lookup_at_app (S j) c (cs1 ++ [sib]) cs2) by (rewrite length_app; simpl; lia).
  rewrite <- app_assoc. cbn [app mbind option_bind].
  replace (S j - 1)%nat with j by lia.
  rewrite (lookup_at_app j sib cs1 (c :: cs2)) by done. cbn [mbind option_bind].
  rewrite (lookup_at_app j sep ss1 ss2) by done. cbn [mbind option_bind].
  destruct sib as [sleaf sss scs so]. destruct c as [cleaf css ccs co].
  unfold n_keys in Hnsib. cbn [is_leaf slots children order] in *.
  destruct sss as [| up' sss _] using rev_ind; [simpl in Hnsib; lia |].
  rewrite decide_False by (by destruct sss).
  rewrite length_app. cbn [length].
  replace (length sss + 1 - 1)%nat with (length sss) by lia.
  rewrite (lookup_at_app (length sss) up' sss []) by done. cbn [mbind option_bind].
  rewrite take_app_length.
  assert (forall (x y : PyBTreeNode) a b,
    <[j := b]> (<[S j := a]> (cs1 ++ x :: y :: cs2)) = cs1 ++ b :: a :: cs2) as Hset.
  { intros x y a b. rewrite (cons_middle x cs1 (y :: cs2)), app_assoc.
    rewrite (set_at_app (S j) y _ (cs1 ++ [x]) cs2) by (rewrite length_app; simpl; lia).
    rewrite <- app_assoc. cbn [app].
    by rewrite (set_at_app j x _ cs1 _). }
  assert (forall (x y : PyBTreeNode) a b,
    <[S j := b]> (<[j := a]> (cs1 ++ x :: y :: cs2)) = cs1 ++ a :: b :: cs2) as Hset'.
  { intros x y a b. rewrite (set_at_app j x _ cs1 (y :: cs2)) by done.
    rewrite (cons_middle a cs1 (y :: cs2)), app_assoc.
    rewrite (set_at_app (S j) y _ (cs1 ++ [a]) cs2) by (rewrite length_app; simpl; lia).
    by rewrite <- app_assoc. }
  rewrite (set_at_app j sep up' ss1 ss2) by done.
  destruct h as [| h].
  - apply shape_leaf in Hcshape as (_ & _ & Hlc & Hcc).
    apply shape_leaf in Hsshape as (_ & _ & Hls & Hcsib).
    cbn [is_leaf slots children] in *. subst cleaf sleaf ccs scs.
    cbn [mbind option_bind]. rewrite Hset. intros [= Hup Hkids].
    apply app_inv_head in Hup, Hkids. injection Hup as <-. injection Hkids as <- <-.
    unfold borrow_from_next. cbn [is_leaf slots children order].
    rewrite (lookup_at_app j _ cs1) by done. cbn [mbind option_bind].
    rewrite (cons_middle _ cs1), app_assoc.
    rewrite (lookup_at_app (S j) _ (cs1 ++ [_]) cs2) by (rewrite length_app; simpl; lia).
    rewrite <- app_assoc. cbn [app mbind option_bind].
    rewrite (lookup_at_app j up' ss1 ss2) by done.
    cbn [mbind option_bind is_leaf slots children order].
    rewrite Hset'. simpl. by rewrite (set_at_app j up' sep ss1 ss2) by done.
  - apply shape_internal in Hcshape as (_ & _ & Hlc & Hlenc & _).
    apply shape_internal in Hsshape as (_ & _ & Hls & Hlens & _).
    cbn [is_leaf slots children] in *. subst cleaf sleaf.
    rewrite length_app in Hlens. simpl in Hlens.
    destruct scs as [| moved scs _] using rev_ind; [simpl in Hlens; lia |].
    rewrite length_app in Hlens. simpl in Hlens.
    rewrite (lookup_at_app (length sss + 1) moved scs []) by lia.
    cbn [mbind option_bind].
    rewrite take_app_length' by lia. rewrite Hset. intros [= Hup Hkids].
    apply app_inv_head in Hup, Hkids. injection Hup as <-. injection Hkids as <- <-.
    unfold borrow_from_next. cbn [is_leaf slots children order].
    rewrite (lookup_at_app j _ cs1) by done. cbn [mbind option_bind].
    rewrite (cons_middle _ cs1), app_assoc.
    rewrite (lookup_at_app (S j) _ (cs1 ++ [_]) cs2) by (rewrite length_app; simpl; lia).
    rewrite <- app_assoc. cbn [app mbind option_bind].
    rewrite (lookup_at_app j up' ss1 ss2) by done.
    cbn [mbind option_bind is_leaf slots children order].
    simpl. rewrite Hset'. by rewrite (set_at_app j up' sep ss1 ss2) by done.
Qed.

End inverse_moves.

(** ** The binary search of a node *)

Section binary_search.
Context {H : Host} {Htot : cmp_total}.

(** X17.  On a node whose keys increase strictly, [node_search_key] never
    reports an error and returns a position [i <= n_keys] with every key
    before [i] below [key].  With [found] set, [keys[i]] equals [key] and
    every later key is above it; otherwise every key from [i] on is above
    [key], so that no key of the node equals it and [i] is where [key]
    belongs. *)
Theorem node_search_key_position node key :
  sorted (slots node) ->
  exists (i : nat) (found : bool),
    node_search_key node key = (Z.of_nat i, found) /\
    (i <= length (keys node))%nat /\
    Forall (fun k => klt k key) (take i (keys node)) /\
    if found then
      exists k, keys node !! i = Some k /\ keq key k /\
                Forall (fun k' => klt key k') (drop (S i) (keys node))
    else
      Forall (fun k' => klt key k') (drop i (keys node)) /\
      forall k, k ∈ keys node -> ~ keq key k.
Proof.
  intros Hs. pose proof (node_search_key_slots node key Hs) as Hres.
  destruct (node_search_key node key) as [z found].
  destruct Hres as (l1 & l2 & Hz & H1 & H2 & Hcase). simpl in Hz, Hcase. subst z.
  assert (Forall (fun k => klt k key) l1.*1) as H1' by (by apply Forall_fmap).
  assert (Forall (fun k => klt key k) l2.*1) as H2' by (by apply Forall_fmap).
  exists (length l1), found. split; [done |]. unfold keys.
  destruct found.
  - destruct Hcase as (s & -> & Heq).
    rewrite fmap_app, fmap_cons, length_app, length_fmap.
    rewrite take_app_length' by (by rewrite length_fmap).
    split_and!; [simpl; lia | done |].
    exists s.1. split_and!; [| done |].
    + apply lookup_at_app. by rewrite length_fmap.
    + rewrite (cons_middle s.1), app_assoc.
      rewrite drop_app_length'; [done |]. rewrite length_app, length_fmap. simpl. lia.
  - rewrite Hcase, fmap_app, length_app, length_fmap.
    rewrite take_app_length' by (by rewrite length_fmap).
    rewrite drop_app_length' by (by rewrite length_fmap).
    split_and!; [lia | done | done |].
    intros k [Hk | Hk]%elem_of_app Heq.
    + rewrite Forall_forall in H1'. exact (klt_not_keq' _ _ (H1' k Hk) Heq).
    + rewrite Forall_forall in H2'. exact (klt_not_keq _ _ (H2' k Hk) Heq).
Qed.

End binary_search.

(** ** clear *)

Section clear_method.
Context {H : Host} {Htot : cmp_total}.
Variable Py_None : PyObject.

(** X18.  [clear ()] returns [None] and turns a tree in any state, also
    one whose root is missing or underfull, into a well-formed empty tree of
    the same order: its length is 0, every lookup raises [KeyError], and a
    pair inserted next is the only one it holds. *)
Theorem clear_then_refill self key value :
  2 <= tree_order self ->
  exists cleared filled,
    btree_clear_method Py_None self = (Return Py_None, cleared) /\
    wf_tree cleared /\ tree_order cleared = tree_order self /\
    btree_length cleared = 0 /\ items cleared = [] /\
    (forall k, btree_subscript cleared k = Raise (KeyError (Some k)) /\
               btree_contains cleared k = 0) /\
    btree_insert Py_None cleared key value = Some (Return Py_None, filled) /\
    wf_tree filled /\ items filled = [(key, value)] /\ btree_length filled = 1.
Proof.
  intros Ht. pose proof (PyBTree_Clear_wf self Ht) as Hwf.
  destruct (PyBTree_Insert_spec (PyBTree_Clear self) key value Hwf)
    as (filled & Hins & Hwf' & _ & Hitems & Hsize).
  exists (PyBTree_Clear self), filled. unfold btree_insert. rewrite Hins.
  split_and!; try done.
Qed.

End clear_method.

(** ** Predecessor and successor of a key of an internal node *)

Section neighbours.
Context {H : Host}.
#[local] Abbreviation ino := collect_items_fast.

(** X19.  In an internal node of a well-shaped tree, [get_predecessor] and
    [get_successor] at slot [idx] return the pairs that stand immediately
    before and immediately after the pair of that slot in the in-order walk
    of the node. *)
Theorem predecessor_successor_adjacent t h node (idx : nat) s :
  2 <= t -> shape t (S h) node -> slots node !! idx = Some s ->
  exists p q before after,
    get_predecessor node idx = Some p /\
    get_successor node idx = Some q /\
    ino node = before ++ p :: s :: q :: after.
Proof.
  intros Ht Hshape Hs.
  pose proof Hshape as (Horder & _ & Hleaf & Hlen & Hall)%shape_internal.
  destruct (list_elem_of_split_length _ _ _ Hs) as (ss1 & ss2 & Hss & Hidx).
  rewrite Hss, length_app in Hlen. simpl in Hlen.
  destruct (split_at_length (children node) idx) as (cs1 & cs' & Hcs & Hcs1); [lia |].
  rewrite Hcs, length_app in Hlen.
  destruct cs' as [| cl [| cr cs2]]; try (simpl in Hlen; lia). simpl in Hlen.
  rewrite Hcs, Forall_app, !Forall_cons in Hall.
  destruct Hall as (_ & [Hnl Hl] & [Hnr Hr] & _).
  destruct (rightmost_slot_spec t h cl Ht Hl ltac:(lia)) as (X & p & Hp & HX).
  destruct (leftmost_slot_spec t h cr Ht Hr ltac:(lia)) as (q & Y & Hq & HY).
  exists p, q, (zl ino cs1 ss1 ++ X), (Y ++ zr ino ss2 cs2).
  unfold get_predecessor, get_successor. rewrite Hcs.
  rewrite (lookup_at_app idx cl cs1) by done.
  rewrite (cons_middle cl cs1), app_assoc.
  rewrite (lookup_at_app (S idx) cr (cs1 ++ [cl]) cs2) by (rewrite length_app; simpl; lia).
  split_and!; try done.
  rewrite collect_items_fast_eq, Hleaf, Hcs, Hss.
  rewrite (cons_middle cl cs1), app_assoc.
  rewrite (zipio_app ino (cs1 ++ [cl]) (cr :: cs2) ss1 s ss2)
    by (rewrite length_app; simpl; lia).
  rewrite <- (app_nil_r ss1) at 1.
  rewrite (zipio_focus ino cs1 cl [] ss1 []) by (done || lia).
  rewrite zipio_cons_zr by lia. rewrite HX, HY. simpl.
  by rewrite app_nil_r, <- !app_assoc.
Qed.

End neighbours.

(** ** Preparing a child for a deletion *)

Section fill.
Context {H : Host}.
#[local] Abbreviation ino := collect_items_fast.

(** X20.  Let [children[idx]] of an internal node of a well-shaped tree
    hold the minimum of [t-1] keys, the node itself holding at least one.
    Then [fill_child] leaves a node with the same in-order walk and at most
    one key fewer, in which the child that took in the pairs of
    [children[idx]], at position [idx] or [idx-1], holds at least [t]
    keys. *)
Theorem fill_child_prepares t h node (idx : nat) c :
  2 <= t -> shape t (S h) node -> 1 <= n_keys node ->
  children node !! idx = Some c -> n_keys c = t - 1 ->
  exists node' (j : nat) c' X Y,
    fill_child node idx = Some node' /\
    ino node' = ino node /\
    n_keys node - 1 <= n_keys node' <= n_keys node /\
    children node' !! j = Some c' /\ (j = idx \/ S j = idx) /\
    shape t h c' /\ t <= n_keys c' /\
    ino c' = X ++ ino c ++ Y.
Proof.
  intros Ht Hshape Hn Hc Hnc.
  pose proof Hshape as (Horder & _ & Hleaf & Hlen & Hall)%shape_internal.
  destruct (children_focus _ _ idx c Hlen Hc)
    as (cs1 & cs2 & l1 & l2 & Hcs & Hss & Hcs1 & Hl1 & Hcs2).
  rewrite Hcs, Forall_app, Forall_cons in Hall. destruct Hall as (Hv1 & [_ Hcshape] & Hv2).
  destruct (fill_child_focus t h node cs1 c cs2 l1 l2)
    as (csA & c' & csB & ssA & ssB & X & Y & Hfill & HlA & HlB & HssA & _ & _ &
        Hc' & Hnc' & Hkeys & Hzl & Hzr & Hino); try done; try lia.
  rewrite Hl1 in Hfill.
  exists (mkNode false (ssA ++ ssB) (csA ++ c' :: csB) t), (length ssA), c', X, Y.
  split_and!; try done.
  - rewrite !collect_items_fast_eq. cbn [is_leaf slots children]. rewrite Hleaf, Hcs, Hss.
    rewrite !zipio_focus by (done || lia).
    rewrite Hino, Hzl, Hzr. by rewrite <- !app_assoc.
  - unfold n_keys at 2. cbn [slots]. lia.
  - unfold n_keys at 1. cbn [slots]. lia.
  - cbn [children]. by apply lookup_at_app.
  - rewrite HssA. destruct (_ && _) eqn:Hcond; [right | left; lia].
    apply andb_true_iff in Hcond as [Hlast Hless].
    apply Z.ltb_lt in Hless. lia.
Qed.

End fill.

(** ** The methods at a tree of order 2

    [ex_tree] holds the keys 1 to 7 with values ten times as large; the
    host's [None] is [-1]. *)

Lemma subscript_hit_or_KeyError_witness :
  wf_tree ex_tree /\
  btree_subscript ex_tree 5 = Return 50 /\ btree_contains ex_tree 5 = 1.
Proof.
  split; [exact ex_tree_wf |].
  destruct (subscript_hit_or_KeyError ex_tree 5 ex_tree_wf) as [Hhit _].
  apply (Hhit 5 50); [| reflexivity].
  apply (list_elem_of_lookup_2 _ 4%nat). reflexivity.
Defined.

Lemma get_value_or_default_witness :
  wf_tree ex_tree /\
  btree_get (H := ZHost) (-1) ex_tree 9 None = Return (-1) /\
  exists stored,
    btree_ass_subscript ex_tree 9 (Some 90) = Some (Return 0, stored) /\
    btree_get (H := ZHost) (-1) stored 9 None = Return 90.
Proof.
  split; [exact ex_tree_wf |].
  pose proof (get_value_or_default (H := ZHost) (-1) ex_tree 9 None 90 ex_tree_wf) as Hget.
  cbv zeta in Hget. destruct Hget as (Hmiss & Hstored & _).
  split; [exact Hmiss | exact Hstored].
Defined.

Lemma pop_removes_or_defaults_witness :
  wf_tree ex_tree /\
  exists btree',
    btree_pop ex_tree 5 None = Some (Return 50, btree') /\
    size btree' = 6 /\
    btree_subscript btree' 5 = Raise (KeyError (Some 5)).
Proof.
  split; [exact ex_tree_wf |].
  destruct (pop_removes_or_defaults ex_tree 5 None ex_tree_wf) as (r & b & Hpop & Hcase).
  assert (btree_subscript ex_tree 5 = Return 50) as Hs by reflexivity.
  rewrite Hs in Hcase. destruct Hcase as (-> & _ & Hsize & _ & Hgone).
  exists b. split_and!; [exact Hpop | exact Hsize | exact Hgone].
Defined.

Lemma setdefault_returns_stored_witness :
  wf_tree ex_tree /\
  exists btree',
    btree_setdefault (H := ZHost) (-1) ex_tree 9 (Some 90) = Some (Return 90, btree') /\
    btree_subscript btree' 9 = Return 90 /\ size btree' = 8.
Proof.
  split; [exact ex_tree_wf |].
  destruct (setdefault_returns_stored (H := ZHost) (-1) ex_tree 9 (Some 90) ex_tree_wf)
    as (value & b & Hset & _ & Hsub & Hcase).
  assert (btree_subscript ex_tree 9 = Raise (KeyError (Some 9))) as Hs by reflexivity.
  rewrite Hs in Hcase. destruct Hcase as (-> & Hsize & _).
  exists b. split_and!; [exact Hset | exact Hsub | exact Hsize].
Defined.

Lemma store_then_delete_restores_witness :
  wf_tree ex_tree /\ btree_contains ex_tree 9 = 0 /\
  exists stored restored,
    btree_ass_subscript ex_tree 9 (Some 90) = Some (Return 0, stored) /\
    btree_ass_subscript stored 9 None = Some (Return 0, restored) /\
    items restored = items ex_tree.
Proof.
  split; [exact ex_tree_wf |]. split; [reflexivity |].
  destruct (store_then_delete_restores ex_tree 9 90 ex_tree_wf eq_refl)
    as (stored & restored & Hset & Hdel & _ & Hitems & _).
  exists stored, restored. split_and!; [exact Hset | exact Hdel | exact Hitems].
Defined.

Lemma update_last_pair_wins_witness :
  wf_tree ex_tree /\
  update_pairs (H := ZHost) (UpdateDict (H := ZHost) [(9, 90); (1, 11)]) = Some [(9, 90); (1, 11)] /\
  exists self',
    btree_update_common ex_tree (UpdateDict (H := ZHost) [(9, 90); (1, 11)]) [(9, 99)]
      = Some (Return 0, self') /\
    PyBTree_Search self' 9 = Return (Some 99) /\
    PyBTree_Search self' 1 = Return (Some 11) /\
    PyBTree_Search self' 2 = Return (Some 20).
Proof.
  split; [exact ex_tree_wf |]. split; [reflexivity |].
  destruct (update_last_pair_wins ex_tree (UpdateDict (H := ZHost) [(9, 90); (1, 11)]) [(9, 99)]
              [(9, 90); (1, 11)] ex_tree_wf)
    as (self' & Hupdate & _ & Hsearch); [intros other [=] | reflexivity |].
  exists self'.
  split_and!; [exact Hupdate | exact (Hsearch 9) | exact (Hsearch 1) | exact (Hsearch 2)].
Defined.

Lemma update_stops_at_bad_element_witness :
  wf_tree ex_tree /\
  update_pairs (H := ZHost) (UpdateSeq2 (H := ZHost) [[8; 80]]) = Some [(8, 80)] /\
  length [9] <> 2%nat /\
  exists self',
    btree_update_common ex_tree (UpdateSeq2 (H := ZHost) [[8; 80]; [9]; [10; 100]]) [(11, 110)]
      = Some (Raise ValueError, self') /\
    PyBTree_Search self' 8 = Return (Some 80) /\
    PyBTree_Search self' 10 = Return None /\
    PyBTree_Search self' 11 = Return None.
Proof.
  split; [exact ex_tree_wf |]. split; [reflexivity |]. split; [simpl; lia |].
  destruct (update_stops_at_bad_element ex_tree [[8; 80]] [(8, 80)] [9] [[10; 100]]
              [(11, 110)] ex_tree_wf eq_refl)
    as (self' & Hupdate & _ & _ & Hsearch); [simpl; lia |].
  exists self'.
  split_and!; [exact Hupdate | exact (Hsearch 8) | exact (Hsearch 10) | exact (Hsearch 11)].
Defined.

Lemma copy_same_pairs_witness :
  wf_tree ex_tree /\ 2 * tree_order ex_tree <= INT_MAX /\
  exists new_btree,
    btree_copy ex_tree = Some (Return new_btree) /\
    items new_btree = items ex_tree /\ size new_btree = 7.
Proof.
  split; [exact ex_tree_wf |]. split; [by vm_compute |].
  destruct (copy_same_pairs ex_tree ex_tree_wf) as (b & Hcopy & _ & _ & _ & Hitems & Hsize);
    [by vm_compute |].
  exists b. split_and!; [exact Hcopy | exact Hitems | exact Hsize].
Defined.

Lemma keys_values_items_aligned_witness :
  wf_tree ex_tree /\
  exists ks vs,
    PyBTree_Keys ex_tree = Some ks /\ PyBTree_Values ex_tree = Some vs /\
    PyBTree_Items ex_tree = Some (zip ks vs) /\
    Z.of_nat (length ks) = 7 /\ StronglySorted klt ks.
Proof.
  split; [exact ex_tree_wf |].
  destruct (keys_values_items_aligned ex_tree ex_tree_wf)
    as (ks & vs & Hks & Hvs & Hitems & Hlen & _ & Hsorted & _).
  exists ks, vs. split_and!; [exact Hks | exact Hvs | exact Hitems | exact Hlen | exact Hsorted].
Defined.

Lemma min_max_are_extremes_witness :
  wf_tree ex_tree /\
  btree_min ex_tree = Some (Return 1) /\ btree_max ex_tree = Some (Return 7).
Proof.
  split; [exact ex_tree_wf |].
  destruct (min_max_are_extremes ex_tree ex_tree_wf) as (ks & Hks & Hmin & Hmax & _).
  assert (ks = [1; 2; 3; 4; 5; 6; 7]) as ->.
  { apply (inj Some). rewrite <- Hks. reflexivity. }
  split; [exact Hmin | exact Hmax].
Defined.

(** The host's list equality taken as equality of the lists; the second
    tree has order 3 and the same pairs. *)
Lemma richcompare_by_content_witness :
  exists wide,
    (new_btree ← PyBTree_New (H := ZHost) 3;
     insert_items new_btree (map (fun k : Z => (k, 10 * k)) [7; 6; 5; 4; 3; 2; 1]))
    = Some (Return 0, wide) /\
    wf_tree ex_tree /\ wf_tree wide /\ items ex_tree = items wide /\
    btree_richcompare (fun l1 l2 => if bool_decide (l1 = l2) then 1 else 0)
      ex_tree (Some wide) Op_EQ = Some (Return (Some true)).
Proof.
  destruct (PyBTree_New (H := ZHost) 3) as [new_btree |] eqn:Hnew; [| done].
  destruct (insert_items_spec (H := ZHost)
              (map (fun k : Z => (k, 10 * k)) [7; 6; 5; 4; 3; 2; 1])
              new_btree (PyBTree_New_wf _ _ Hnew)) as (wide & Hbuilt & Hwf & _ & Hitems).
  injection Hnew as <-.
  assert (items ex_tree = items wide) as Hsame by (rewrite Hitems; reflexivity).
  exists wide. split_and!; [exact Hbuilt | exact ex_tree_wf | exact Hwf | exact Hsame |].
  destruct (richcompare_by_content (fun l1 l2 => if bool_decide (l1 = l2) then 1 else 0)
              ex_tree wide ex_tree_wf Hwf) as [Hequal _].
  apply Hequal; [exact Hsame |]. by rewrite bool_decide_eq_true_2.
Defined.

Lemma length_hint_counts_down_witness :
  wf_tree ex_tree /\ size ex_tree <= PY_SSIZE_T_MAX /\
  exists it it',
    btree_iter ex_tree = Some it /\ btreeiter_len it = 7 /\
    iter_take btreeiter_next 3 it = Some ([1; 2; 3], it') /\
    btreeiter_len it' = 4.
Proof.
  split; [exact ex_tree_wf |]. split; [exact ex_tree_size |].
  destruct (length_hint_counts_down ex_tree 3 ex_tree_wf ex_tree_size)
    as (ks & it & rit & it' & rit' & Hks & Hit & _ & Hlen & _ & Htake & Hlen' & _).
  assert (ks = [1; 2; 3; 4; 5; 6; 7]) as ->.
  { apply (inj Some). rewrite <- Hks. reflexivity. }
  exists it, it'. split_and!; [exact Hit | exact Hlen | exact Htake | exact Hlen'].
Defined.

Lemma popitem_drains_in_order_witness :
  wf_tree ex_tree /\
  exists btree',
    popitem_all 2 (Some 0) ex_tree = Some ([(1, 10); (2, 20)], btree') /\
    items btree' = [(3, 30); (4, 40); (5, 50); (6, 60); (7, 70)].
Proof.
  split; [exact ex_tree_wf |].
  destruct (popitem_drains_in_order ex_tree 2 ex_tree_wf)
    as [(b & Hpop & _ & Hitems & _) _].
  exists b. split; [exact Hpop | exact Hitems].
Defined.


Lemma borrow_next_undoes_borrow_prev_witness :
  shape (H := ZHost) 2 1 ex_root /\
  children ex_root !! 0%nat = Some (ex_leaf [1]) /\
  children ex_root !! 1%nat = Some (ex_leaf [3]) /\
  1 <= n_keys (ex_leaf [1]) /\ n_keys (ex_leaf [3]) < 2 * 2 - 1 /\
  exists node',
    borrow_from_prev ex_root 1 = Some node' /\
    collect_items_fast node' = collect_items_fast ex_root /\
    borrow_from_next node' 0 = Some ex_root.
Proof.
  split; [exact ex_root_shape |]. split; [reflexivity |]. split; [reflexivity |].
  split; [by vm_compute |]. split; [by vm_compute |].
  destruct (borrow_next_undoes_borrow_prev 2 0 ex_root 0 (ex_leaf [1]) (ex_leaf [3]))
    as (node' & Hprev & Hsame & Hnext);
    [lia | exact ex_root_shape | reflexivity | reflexivity | by vm_compute | by vm_compute |].
  exists node'. split_and!; [exact Hprev | exact Hsame | exact Hnext].
Defined.

Lemma node_search_key_position_witness :
  sorted (slots ex_root) /\
  exists (i : nat) (found : bool),
    node_search_key ex_root 3 = (Z.of_nat i, found) /\ (i <= 2)%nat.
Proof.
  assert (sorted (slots ex_root)) as Hsorted.
  { repeat (constructor; [| repeat (constructor; try reflexivity)]). constructor. }
  split; [exact Hsorted |].
  destruct (node_search_key_position ex_root 3 Hsorted) as (i & found & Hres & Hle & _).
  exists i, found. split; [exact Hres | exact Hle].
Defined.

Lemma clear_then_refill_witness :
  2 <= tree_order ex_broken /\
  exists cleared filled,
    btree_clear_method (H := ZHost) (-1) ex_broken = (Return (-1), cleared) /\
    wf_tree cleared /\
    btree_insert (H := ZHost) (-1) cleared 5 50 = Some (Return (-1), filled) /\
    items filled = [(5, 50)].
Proof.
  split; [simpl; lia |].
  destruct (clear_then_refill (H := ZHost) (-1) ex_broken 5 50)
    as (cleared & filled & Hclear & Hwf & _ & _ & _ & _ & Hins & _ & Hitems & _);
    [simpl; lia |].
  exists cleared, filled. split_and!; [exact Hclear | exact Hwf | exact Hins | exact Hitems].
Defined.

Lemma predecessor_successor_adjacent_witness :
  shape (H := ZHost) 2 1 ex_root /\ slots ex_root !! 1%nat = Some (4, 40) /\
  exists p q before after,
    get_predecessor ex_root 1 = Some p /\ get_successor ex_root 1 = Some q /\
    collect_items_fast ex_root = before ++ p :: (4, 40) :: q :: after.
Proof.
  split; [exact ex_root_shape |]. split; [reflexivity |].
  apply (predecessor_successor_adjacent 2 0 ex_root 1 (4, 40));
    [lia | exact ex_root_shape | reflexivity].
Defined.

Lemma fill_child_prepares_witness :
  shape (H := ZHost) 2 1 ex_root /\ 1 <= n_keys ex_root /\
  children ex_root !! 0%nat = Some (ex_leaf [1]) /\ n_keys (ex_leaf [1]) = 2 - 1 /\
  exists node' (j : nat) c',
    fill_child ex_root 0 = Some node' /\
    collect_items_fast node' = collect_items_fast ex_root /\
    children node' !! j = Some c' /\ 2 <= n_keys c'.
Proof.
  split; [exact ex_root_shape |]. split; [by vm_compute |].
  split; [reflexivity |]. split; [reflexivity |].
  destruct (fill_child_prepares 2 0 ex_root 0 (ex_leaf [1]))
    as (node' & j & c' & X & Y & Hfill & Hsame & _ & Hchild & _ & _ & Hkeys & _);
    [lia | exact ex_root_shape | by vm_compute | reflexivity | reflexivity |].
  exists node', j, c'. split_and!; [exact Hfill | exact Hsame | exact Hchild | exact Hkeys].
Defined.
